(** * Verification of the workflow orchestrator core

    A shallow embedding of the Python modules of [orchestrator/]
    (retry policy, secrets manager, variable substitutor, condition
    evaluator, output capture, step executor, dependency resolver, state
    store and the step loop of the workflow executor) together with the
    properties claimed for them.

    Conventions of the embedding:
    - a Python [str] is the list of its Unicode code points ([Py.str]);
      [Py.lit] turns a Rocq string literal into such a text;
    - [bytes] are lists of [Byte.byte];
    - a [dict] whose iteration order matters is an association list with
      unique keys ([Py.dict_set] updates in place like Python does); the
      process environment and the directory contents are [gmap]s;
    - an exception is the [inl] side of a sum ([Py.exn]);
    - external effects (files written, subprocesses spawned) are recorded
      in an explicit [world] that every effectful function threads. *)

From Stdlib Require Import ZArith NArith String Ascii Lia DecimalString Sorted.
From stdpp Require Import base list strings gmap.

Set Warnings "-register-all".
Open Scope Z_scope.

(* ================================================================= *)
(** ** Python built-ins used by the code *)
(* ================================================================= *)

Module Py.

Definition char := N.
Definition str := list char.
Abbreviation bytes := (list Byte.byte).

Definition lit (s : string) : str :=
  map N_of_ascii (list_ascii_of_string s).

(** [t.startswith(p)] *)
Fixpoint startswith (p t : str) : bool :=
  match p, t with
  | [], _ => true
  | _ :: _, [] => false
  | a :: p', b :: t' => if N.eqb a b then startswith p' t' else false
  end.

(** [p in t] for texts *)
Fixpoint contains (p t : str) : bool :=
  startswith p t ||
  match t with
  | [] => false
  | _ :: t' => contains p t'
  end.

(** [t.replace(old, new)] for a non-empty [old]: leftmost, non-overlapping
    occurrences, scanned left to right.  [fuel] bounds the number of
    scanned positions; [length t + 1] is always enough. *)
Fixpoint replace_fuel (fuel : nat) (old new t : str) : str :=
  match fuel with
  | O => t
  | S f =>
    if startswith old t
    then new ++ replace_fuel f old new (drop (length old) t)
    else match t with
         | [] => []
         | c :: t' => c :: replace_fuel f old new t'
         end
  end.

(** [t.replace(old, new)]; with an empty [old] Python inserts [new] before
    every character and at the end. *)
Definition replace (old new t : str) : str :=
  match old with
  | [] => new ++ concat (map (fun c => c :: new) t)
  | _ :: _ => replace_fuel (S (length t)) old new t
  end.

(** [re.sub(re.escape(pat), repl, t)]: the escaped pattern matches exactly
    the literal text [pat], and the replacement used by the code contains
    no backslash or group reference, so the substitution is the literal
    replacement of the leftmost non-overlapping occurrences. *)
Definition re_sub_escaped (pat repl t : str) : str := replace pat repl t.

(** [t.split(sep)] for a one-character separator. *)
Fixpoint split_on (sep : char) (t : str) : list str :=
  match t with
  | [] => [[]]
  | c :: t' =>
    if N.eqb c sep then [] :: split_on sep t'
    else match split_on sep t' with
         | [] => [[c]]
         | w :: ws => (c :: w) :: ws
         end
  end.

(** [sep.join(parts)] *)
Fixpoint join (sep : str) (parts : list str) : str :=
  match parts with
  | [] => []
  | [p] => p
  | p :: ps => p ++ sep ++ join sep ps
  end.

(** Comparison of texts: lexicographic on code points. *)
Fixpoint str_ltb (a b : str) : bool :=
  match a, b with
  | [], [] => false
  | [], _ :: _ => true
  | _ :: _, [] => false
  | x :: a', y :: b' =>
    if N.ltb x y then true
    else if N.eqb x y then str_ltb a' b' else false
  end.

Definition str_eqb (a b : str) : bool := bool_decide (a = b).

(** [sorted(l)] and [l.sort()]: a stable insertion sort; [lt y x] says that
    [y] goes strictly before [x]. *)
Fixpoint insert_sorted {A} (lt : A -> A -> bool) (x : A) (l : list A) : list A :=
  match l with
  | [] => [x]
  | y :: l' => if lt y x then y :: insert_sorted lt x l' else x :: y :: l'
  end.

Definition sort_by {A} (lt : A -> A -> bool) (l : list A) : list A :=
  foldr (insert_sorted lt) [] l.

Definition sorted (l : list str) : list str := sort_by str_ltb l.

(** [sorted(l, reverse=True)]: descending, equal elements keep their
    order. *)
Definition sorted_reverse (l : list str) : list str :=
  sort_by (fun y x => str_ltb x y) l.

(** [sorted(l, key=len, reverse=True)] *)
Definition sorted_by_len_desc (l : list str) : list str :=
  sort_by (fun y x => Nat.ltb (length x) (length y)) l.

(** A [set] of texts: a duplicate-free list; its order stands for the
    unspecified iteration order of the Python set. *)
Definition set_add (x : str) (s : list str) : list str :=
  if bool_decide (x ∈ s) then s else s ++ [x].

(** Python values as they occur in YAML and JSON documents.  A float is
    identified with its [str()] rendering. *)
Inductive value :=
| VNone
| VBool (b : bool)
| VInt (z : Z)
| VFloat (repr : str)
| VStr (s : str)
| VList (l : list value)
| VDict (d : list (str * value)).

(** [d.get(k)] and [d[k] = v] on an insertion-ordered dict. *)
Fixpoint dict_get {V} (k : str) (d : list (str * V)) : option V :=
  match d with
  | [] => None
  | (k', v) :: d' => if str_eqb k k' then Some v else dict_get k d'
  end.

Fixpoint dict_set {V} (k : str) (v : V) (d : list (str * V)) : list (str * V) :=
  match d with
  | [] => [(k, v)]
  | (k', v') :: d' =>
    if str_eqb k k' then (k, v) :: d' else (k', v') :: dict_set k v d'
  end.

(** Truth value of a Python object. *)
Definition truthy (v : value) : bool :=
  match v with
  | VNone => false
  | VBool b => b
  | VInt z => negb (Z.eqb z 0)
  | VFloat r => negb (str_eqb r (lit "0.0") || str_eqb r (lit "-0.0"))
  | VStr s => match s with [] => false | _ => true end
  | VList l => match l with [] => false | _ => true end
  | VDict d => match d with [] => false | _ => true end
  end.

(** Number of bytes of the UTF-8 encoding of a code point and of a text:
    [len(t.encode('utf-8'))]. *)
Definition utf8_len_char (c : char) : nat :=
  if (c <? 128)%N then 1%nat
  else if (c <? 2048)%N then 2%nat
  else if (c <? 65536)%N then 3%nat
  else 4%nat.

Definition utf8_len (t : str) : nat :=
  foldr (fun c n => (utf8_len_char c + n)%nat) 0%nat t.

(** [b.decode('utf-8', errors='replace')], on the numeric values of the
    bytes.  A well-formed sequence gives its character; an ill-formed one
    is replaced by U+FFFD up to the byte that breaks it (which is decoded
    again), and a sequence cut short by the end of the data is replaced as
    a whole. *)
Definition is_continuation (b : N) : bool := ((128 <=? b) && (b <=? 191))%N.

Definition second_of_three (b0 b1 : N) : bool :=
  (if b0 =? 224 then (160 <=? b1) && (b1 <=? 191)
   else if b0 =? 237 then (128 <=? b1) && (b1 <=? 159)
   else is_continuation b1)%N.

Definition second_of_four (b0 b1 : N) : bool :=
  (if b0 =? 240 then (144 <=? b1) && (b1 <=? 191)
   else if b0 =? 244 then (128 <=? b1) && (b1 <=? 143)
   else is_continuation b1)%N.

Definition replacement_char : char := 65533%N.

Fixpoint decode_utf8_units (l : list N) : str :=
  match l with
  | [] => []
  | b0 :: r =>
    if (b0 <? 128)%N then b0 :: decode_utf8_units r
    else if ((194 <=? b0) && (b0 <=? 223))%N then
      match r with
      | [] => [replacement_char]
      | b1 :: r1 =>
        if is_continuation b1
        then ((b0 - 192) * 64 + (b1 - 128))%N :: decode_utf8_units r1
        else replacement_char :: decode_utf8_units r
      end
    else if ((224 <=? b0) && (b0 <=? 239))%N then
      match r with
      | [] => [replacement_char]
      | b1 :: r1 =>
        if second_of_three b0 b1 then
          match r1 with
          | [] => [replacement_char]
          | b2 :: r2 =>
            if is_continuation b2
            then ((b0 - 224) * 4096 + (b1 - 128) * 64 + (b2 - 128))%N
                 :: decode_utf8_units r2
            else replacement_char :: decode_utf8_units r1
          end
        else replacement_char :: decode_utf8_units r
      end
    else if ((240 <=? b0) && (b0 <=? 244))%N then
      match r with
      | [] => [replacement_char]
      | b1 :: r1 =>
        if second_of_four b0 b1 then
          match r1 with
          | [] => [replacement_char]
          | b2 :: r2 =>
            if is_continuation b2 then
              match r2 with
              | [] => [replacement_char]
              | b3 :: r3 =>
                if is_continuation b3
                then ((b0 - 240) * 262144 + (b1 - 128) * 4096
                      + (b2 - 128) * 64 + (b3 - 128))%N
                     :: decode_utf8_units r3
                else replacement_char :: decode_utf8_units r2
              end
            else replacement_char :: decode_utf8_units r1
          end
        else replacement_char :: decode_utf8_units r
      end
    else replacement_char :: decode_utf8_units r
  end.

Definition decode_utf8_replace (b : bytes) : str :=
  decode_utf8_units (map Byte.to_N b).

(** [str(z)] for an integer. *)
Definition str_of_int (z : Z) : str := lit (NilZero.string_of_int (Z.to_int z)).

(** The result of a computation that may raise: [inl] carries the
    exception.  A [ValueError] carries the fixed part of its message and
    the names it lists. *)
Inductive exn :=
| ValueError (msg : str) (payload : list str)
| TypeError
| AttributeError
| KeyError (key : str)
| JSONDecodeError (msg : str)
| UnicodeDecodeError
| RuntimeError (msg : str)
| OSError (msg : str).

Definition result (A : Type) := sum exn A.

Definition bind {A B} (m : result A) (k : A -> result B) : result B :=
  match m with
  | inl e => inl e
  | inr a => k a
  end.

Declare Scope py_scope.
Delimit Scope py_scope with py.
Notation "x <- m ;; k" := (bind m (fun x => k))
  (at level 62, m at next level, right associativity) : py_scope.

End Py.

(* ================================================================= *)
(** ** exec/retry.py *)
(* ================================================================= *)

Module Retry.
Import Py.

(** The [retries] field of a step: the integer shorthand or a mapping with
    integer entries ([max], [delay_ms]). *)
Inductive retries_config :=
| RetriesInt (n : Z)
| RetriesDict (d : list (str * Z)).

Definition config_truthy (c : retries_config) : bool :=
  match c with
  | RetriesInt n => negb (Z.eqb n 0)
  | RetriesDict d => match d with [] => false | _ => true end
  end.

Record RetryPolicy := mkRetryPolicy {
  max_retries : Z;
  delay_ms : Z;
  retryable_codes : list Z
}.

(** [RetryPolicy(max_retries=m)]: [__post_init__] turns the missing set of
    codes into the empty set. *)
Definition default_policy (m : Z) : RetryPolicy :=
  mkRetryPolicy m 1000 [].

Definition for_provider (max_retries delay_ms : Z) : RetryPolicy :=
  mkRetryPolicy max_retries delay_ms [1; 124].

Definition for_command (retries_config : option retries_config) : RetryPolicy :=
  match retries_config with
  | None => default_policy 0
  | Some c =>
    if negb (config_truthy c) then default_policy 0
    else match c with
         | RetriesInt n => mkRetryPolicy n 1000 [1; 124]
         | RetriesDict d =>
           mkRetryPolicy (default 0 (dict_get (lit "max") d))
                         (default 1000 (dict_get (lit "delay_ms") d))
                         [1; 124]
         end
  end.

Definition should_retry (p : RetryPolicy) (exit_code attempt : Z) : bool :=
  if Z.leb (max_retries p) attempt then false
  else bool_decide (exit_code ∈ retryable_codes p).

End Retry.

(* ================================================================= *)
(** ** The world outside the interpreter *)
(* ================================================================= *)

Module World.
Import Py.

(** One call of [subprocess.run]. *)
Record spawn_event := mkSpawn {
  sp_argv : list str;
  sp_env : gmap str str
}.

(** What [subprocess.run] does: the process exits, the timeout expires
    (with the output read so far, if any), or the call raises. *)
Inductive proc_outcome :=
| Completed (returncode : Z) (stdout stderr : bytes)
| TimeoutExpired (stdout stderr : option bytes)
| SpawnError (msg : str).

(** The mutable part: the files (path to content), the subprocesses
    spawned so far (oldest first), the registry of values to mask held by
    the secrets manager, and the log of the directory scans and symlink
    resolutions asked of the file system (oldest first). *)
Record world := mkWorld {
  fs : gmap str bytes;
  spawned : list spawn_event;
  masked_values : list str;
  probes : list str
}.

(** What the code reads from its surroundings and from the Python
    library: the process environment, the behaviour of the n-th spawned
    subprocess and the elapsed milliseconds measured around it, the
    directory scan [glob.glob] and the symlink resolution [Path.resolve],
    the JSON parser ([inl] carries the text of the [JSONDecodeError]) and
    printer, the pieces that [json.dump(doc, f, indent=2)] writes to [f]
    one after the other, [json.load] of the content of a file,
    [str()] of a container, the UTF-8 encoder, and [shlex.split] (which
    raises [ValueError] on an unbalanced quotation). *)
Record platform := mkPlatform {
  environ : gmap str str;
  subprocess_run : nat -> spawn_event -> proc_outcome;
  elapsed_ms : nat -> Z;
  glob : str -> list str;
  realpath : str -> str;
  json_loads : str -> sum str value;
  json_dumps : value -> str;
  json_dump_chunks : value -> list bytes;
  json_load : bytes -> sum exn value;
  str_of_container : value -> str;
  encode_utf8 : str -> bytes;
  shlex_split : str -> result (list str)
}.

Definition write_bytes (path : str) (data : bytes) (w : world) : world :=
  mkWorld (<[path := data]> (fs w)) (spawned w) (masked_values w) (probes w).

Definition set_masked (m : list str) (w : world) : world :=
  mkWorld (fs w) (spawned w) m (probes w).

Definition record_spawn (e : spawn_event) (w : world) : world :=
  mkWorld (fs w) (spawned w ++ [e]) (masked_values w) (probes w).

Definition record_probe (p : str) (w : world) : world :=
  mkWorld (fs w) (spawned w) (masked_values w) (probes w ++ [p]).

(** The elementary changes of the file system, each of them atomic:
    creating or emptying a file, appending a piece to it, renaming it over
    another one, removing it. *)
Inductive fs_op :=
| FsTruncate (path : str)
| FsAppend (path : str) (chunk : bytes)
| FsRename (src dst : str)
| FsUnlink (path : str).

Definition apply_fs_op (files : gmap str bytes) (op : fs_op) : gmap str bytes :=
  match op with
  | FsTruncate p => <[p := []]> files
  | FsAppend p chunk => <[p := default [] (files !! p) ++ chunk]> files
  | FsRename src dst =>
    match files !! src with
    | Some content => <[dst := content]> (delete src files)
    | None => files
    end
  | FsUnlink p => delete p files
  end.

Definition run_fs_ops (ops : list fs_op) (w : world) : world :=
  mkWorld (foldl apply_fs_op (fs w) ops) (spawned w) (masked_values w) (probes w).

Definition slash : char := 47%N.

(** [PurePosixPath(p).parts]: the root, if any, then the components;
    empty components and [.] are dropped. *)
Definition path_components (p : str) : list str :=
  filter (fun c => c <> [] /\ c <> lit ".") (split_on slash p).

Definition path_root (p : str) : list str :=
  if startswith (lit "/") p then
    if startswith (lit "//") p && negb (startswith (lit "///") p)
    then [lit "//"] else [lit "/"]
  else [].

Definition path_parts (p : str) : list str := path_root p ++ path_components p.

(** [os.path.isabs(p)] and [Path(p).is_absolute()] *)
Definition is_absolute (p : str) : bool := startswith (lit "/") p.

(** [str(Path)] of a path given by its root and components. *)
Definition path_str (root components : list str) : str :=
  match root, components with
  | [], [] => lit "."
  | _, _ => concat root ++ join (lit "/") components
  end.

(** [str(Path(dir) / name)]: an absolute [name] replaces [dir]. *)
Definition path_join (dir name : str) : str :=
  if is_absolute name then path_str (path_root name) (path_components name)
  else path_str (path_root dir) (path_components dir ++ path_components name).

(** [Path(p).relative_to(base)], as a text: [None] stands for the
    [ValueError] raised when [p] is not below [base]. *)
Definition relative_to (p base : str) : option str :=
  let pp := path_parts p in
  let bp := path_parts base in
  if bool_decide (take (length bp) pp = bp)
  then Some (path_str [] (drop (length bp) pp))
  else None.

End World.

(* ================================================================= *)
(** ** security/secrets.py *)
(* ================================================================= *)

Module Secrets.
Import Py World.

Record SecretsContext := mkSecretsContext {
  declared_secrets : list str;
  missing_secrets : list str;
  secret_values : list (str * str);
  child_env : gmap str str
}.

(** Body of the first loop of [resolve_secrets]. *)
Definition overlay_secret (environ : gmap str str)
    (ctx : SecretsContext) (secret_name : str) : SecretsContext :=
  match environ !! secret_name with
  | Some v =>
    mkSecretsContext (declared_secrets ctx) (missing_secrets ctx)
      (dict_set secret_name v (secret_values ctx))
      (<[secret_name := v]> (child_env ctx))
  | None =>
    mkSecretsContext (declared_secrets ctx)
      (missing_secrets ctx ++ [secret_name])
      (secret_values ctx) (child_env ctx)
  end.

(** Body of the second loop: the step environment wins, and an overridden
    declared secret is tracked with its new value. *)
Definition apply_step_env (ctx : SecretsContext) (kv : str * str) : SecretsContext :=
  let '(key, v) := kv in
  mkSecretsContext (declared_secrets ctx) (missing_secrets ctx)
    (if bool_decide (key ∈ declared_secrets ctx)
     then dict_set key v (secret_values ctx) else secret_values ctx)
    (<[key := v]> (child_env ctx)).

(** Body of the third loop: empty values are not registered. *)
Definition track_value (masked : list str) (v : str) : list str :=
  match v with
  | [] => masked
  | _ :: _ => set_add v masked
  end.

Definition resolve_secrets (pf : platform)
    (declared : option (list str)) (step_env : option (list (str * str)))
    (w : world) : SecretsContext * world :=
  let ctx0 := mkSecretsContext (default [] declared) [] [] (environ pf) in
  let ctx1 := foldl (overlay_secret (environ pf)) ctx0 (declared_secrets ctx0) in
  let ctx2 := foldl apply_step_env ctx1 (default [] step_env) in
  let masked := foldl track_value (masked_values w) (map snd (secret_values ctx2)) in
  (ctx2, set_masked masked w).

(** The mask. *)
Definition stars : str := lit "***".

Definition mask_step (masked : str) (secret_value : str) : str :=
  if contains secret_value masked
  then re_sub_escaped secret_value stars masked
  else masked.

Definition mask_text (masked_values : list str) (text : str) : str :=
  match text, masked_values with
  | [], _ => text
  | _, [] => text
  | _, _ => foldl mask_step text (sorted_by_len_desc masked_values)
  end.

(** An item of a list value: only a text is masked. *)
Definition mask_item (masked_values : list str) (item : value) : value :=
  match item with
  | VStr s => VStr (mask_text masked_values s)
  | _ => item
  end.

(** The body of the loop of [mask_dict], for the value of one key. *)
Fixpoint mask_entry (masked_values : list str) (v : value) {struct v} : value :=
  match v with
  | VStr s => VStr (mask_text masked_values s)
  | VDict d =>
    VDict (match d, masked_values with
           | [], _ => d
           | _, [] => d
           | _, _ => map (fun kv => let '(k, x) := kv in
                                    (k, mask_entry masked_values x)) d
           end)
  | VList l => VList (map (mask_item masked_values) l)
  | _ => v
  end.

Definition mask_dict (masked_values : list str) (data : list (str * value))
    : list (str * value) :=
  match data, masked_values with
  | [], _ => data
  | _, [] => data
  | _, _ => map (fun kv => let '(k, x) := kv in
                           (k, mask_entry masked_values x)) data
  end.

(** The character of the mask. *)
Definition star : char := 42%N.

(** A value that masking can hide for good: not empty (such a value is
    never registered) and without the character of the mask itself. *)
Definition maskable (s : str) : bool :=
  match s with
  | [] => false
  | _ :: _ => negb (bool_decide (star ∈ s))
  end.

(** The texts of a value that [mask_entry] visits: the value itself when
    it is a text, the texts visited in the values of a map, and the items
    of a list that are texts. *)
Inductive visited_text : value -> str -> Prop :=
| visited_here (s : str) : visited_text (VStr s) s
| visited_in_map (d : list (str * value)) (k : str) (v : value) (s : str) :
    (k, v) ∈ d -> visited_text v s -> visited_text (VDict d) s
| visited_in_list (l : list value) (s : str) :
    VStr s ∈ l -> visited_text (VList l) s.

End Secrets.

(* ================================================================= *)
(** ** variables/substitution.py *)
(* ================================================================= *)

Module Substitution.
Import Py World.

Definition dollar : char := 36%N.
Definition brace_open : char := 123%N.
Definition brace_close : char := 125%N.
Definition dot : char := 46%N.
Definition nul : char := 0%N.

(** The part [[^}]+\}] of [VAR_PATTERN]: the text up to the first closing
    brace and what follows that brace. *)
Fixpoint until_brace (t : str) : option (str * str) :=
  match t with
  | [] => None
  | c :: t' =>
    if N.eqb c brace_close then Some ([], t')
    else match until_brace t' with
         | Some (p, r) => Some (c :: p, r)
         | None => None
         end
  end.

(** A match of [\$\{([^}]+)\}] at the head of [t]: group 1 and the rest. *)
Definition match_token (t : str) : option (str * str) :=
  match t with
  | c1 :: c2 :: body =>
    if N.eqb c1 dollar && N.eqb c2 brace_open then
      match until_brace body with
      | Some (c :: p, rest) => Some (c :: p, rest)
      | _ => None
      end
    else None
  | _ => None
  end.

Fixpoint _resolve_path (current : value) (path : list str) : value :=
  match path with
  | [] => current
  | part :: rest =>
    match current with
    | VDict d =>
      match dict_get part d with
      | None | Some VNone => VNone
      | Some v => _resolve_path v rest
      end
    | _ => VNone
    end
  end.

Definition is_str (s : str) (v : value) : bool :=
  match v with
  | VStr s' => str_eqb s s'
  | _ => false
  end.

(** [steps] is a dict whenever it comes from [build_variables]; for the
    other values the membership test or the subscript raises as in
    Python. *)
Definition _resolve_steps_variable (steps : value) (path : list str) : result value :=
  match path with
  | [] => inr VNone
  | step_name :: rest =>
    match steps with
    | VDict d =>
      match dict_get step_name d with
      | None => inr VNone
      | Some step_result =>
        match rest with
        | [] => inr step_result
        | _ :: _ => inr (_resolve_path step_result rest)
        end
      end
    | VList l => if existsb (is_str step_name) l then inl TypeError else inr VNone
    | VStr s => if contains step_name s then inl TypeError else inr VNone
    | _ => inl TypeError
    end
  end.

Definition _resolve_variable (var_path : str) (variables : list (str * value))
    : result value :=
  match split_on dot var_path with
  | [] => inr VNone
  | namespace :: rest =>
    match dict_get namespace variables, rest with
    | Some v, [] => inr v
    | _, _ =>
      if str_eqb namespace (lit "run") then
        inr (_resolve_path (default (VDict []) (dict_get (lit "run") variables)) rest)
      else if str_eqb namespace (lit "loop") then
        inr (_resolve_path (default (VDict []) (dict_get (lit "loop") variables)) rest)
      else if str_eqb namespace (lit "context") then
        inr (_resolve_path (default (VDict []) (dict_get (lit "context") variables)) rest)
      else if str_eqb namespace (lit "steps") then
        _resolve_steps_variable (default (VDict []) (dict_get (lit "steps") variables)) rest
      else if str_eqb namespace (lit "item") then
        inr (default VNone (dict_get (lit "item") variables))
      else inr VNone
    end
  end.

(** The conversion to text at the end of [replace_var]. *)
Definition render (pf : platform) (v : value) : str :=
  match v with
  | VBool b => if b then lit "true" else lit "false"
  | VInt z => str_of_int z
  | VFloat r => r
  | VStr s => s
  | _ => json_dumps pf v
  end.

(** [VAR_PATTERN.sub(replace_var, t)].  [prev_dollar] tells whether the
    character before the current position is a dollar sign (the negative
    look-behind), [undef] is [self.undefined_vars]. *)
Fixpoint var_sub (pf : platform) (variables : list (str * value)) (fuel : nat)
    (prev_dollar : bool) (t : str) (undef : list str) : result str * list str :=
  match fuel with
  | O => (inr t, undef)
  | S f =>
    match t with
    | [] => (inr [], undef)
    | c :: t' =>
      match (if prev_dollar then None else match_token t) with
      | Some (var_path, rest) =>
        match _resolve_variable var_path variables with
        | inl e => (inl e, undef)
        | inr v =>
          let '(piece, undef') :=
            match v with
            | VNone => (dollar :: brace_open :: var_path ++ [brace_close],
                        set_add var_path undef)
            | _ => (render pf v, undef)
            end in
          match var_sub pf variables f false rest undef' with
          | (inl e, u) => (inl e, u)
          | (inr out, u) => (inr (piece ++ out), u)
          end
        end
      | None =>
        match var_sub pf variables f (N.eqb c dollar) t' undef with
        | (inl e, u) => (inl e, u)
        | (inr out, u) => (inr (c :: out), u)
        end
      end
    end
  end.

Definition _substitute_string (pf : platform) (variables : list (str * value))
    (text : str) (undef : list str) : result str * list str :=
  let text1 := replace (lit "$$") [nul] text in
  match var_sub pf variables (S (length text1)) false text1 undef with
  | (inl e, u) => (inl e, u)
  | (inr out, u) => (inr (replace [nul] (lit "$") out), u)
  end.

(** The check made after each of the three branches of [substitute]. *)
Definition raise_if_undefined {A} (track_undefined : bool) (undef : list str)
    (r : A) : result A :=
  match track_undefined, undef with
  | true, _ :: _ => inl (ValueError (lit "Undefined variables: ") (sorted undef))
  | _, _ => inr r
  end.

(** [substitute(value, variables, track_undefined)]: the result (or the
    exception) and [self.undefined_vars] when the call ends.  Every call,
    the nested ones included, starts by clearing [self.undefined_vars]. *)
Fixpoint substitute (pf : platform) (variables : list (str * value))
    (v : value) (track_undefined : bool) {struct v} : result value * list str :=
  match v with
  | VStr s =>
    match _substitute_string pf variables s [] with
    | (inl e, u) => (inl e, u)
    | (inr out, u) => (raise_if_undefined track_undefined u (VStr out), u)
    end
  | VList l =>
    let fix items (l : list value) (u0 : list str) : result (list value) * list str :=
      match l with
      | [] => (inr [], u0)
      | x :: l' =>
        match substitute pf variables x false with
        | (inl e, u) => (inl e, u)
        | (inr y, u) =>
          match items l' u with
          | (inl e, u') => (inl e, u')
          | (inr ys, u') => (inr (y :: ys), u')
          end
        end
      end in
    match items l [] with
    | (inl e, u) => (inl e, u)
    | (inr out, u) => (raise_if_undefined track_undefined u (VList out), u)
    end
  | VDict d =>
    let fix entries (d : list (str * value)) (u0 : list str)
        : result (list (str * value)) * list str :=
      match d with
      | [] => (inr [], u0)
      | (k, x) :: d' =>
        match substitute pf variables x false with
        | (inl e, u) => (inl e, u)
        | (inr y, u) =>
          match entries d' u with
          | (inl e, u') => (inl e, u')
          | (inr ys, u') => (inr ((k, y) :: ys), u')
          end
        end
      end in
    match entries d [] with
    | (inl e, u) => (inl e, u)
    | (inr out, u) => (raise_if_undefined track_undefined u (VDict out), u)
    end
  | _ => (inr v, [])
  end.

End Substitution.

(* ================================================================= *)
(** ** workflow/conditions.py *)
(* ================================================================= *)

Module Conditions.
Import Py World.

Definition _is_path_safe (path : str) : bool :=
  if is_absolute path then false
  else if bool_decide (lit ".." ∈ path_parts path) then false
  else true.

Definition _to_string (pf : platform) (v : value) : str :=
  match v with
  | VBool b => if b then lit "true" else lit "false"
  | VStr s => s
  | VNone => lit "None"
  | VInt z => str_of_int z
  | VFloat r => r
  | _ => str_of_container pf v
  end.

Definition _evaluate_equals (pf : platform) (equals_cond : value)
    (variables : list (str * value)) : result bool :=
  match equals_cond with
  | VDict d =>
    match dict_get (lit "left") d, dict_get (lit "right") d with
    | Some l, Some r =>
      match fst (Substitution.substitute pf variables l true) with
      | inl (ValueError _ _) => inr false
      | inl e => inl e
      | inr left_ =>
        match fst (Substitution.substitute pf variables r true) with
        | inl (ValueError _ _) => inr false
        | inl e => inl e
        | inr right_ =>
          inr (str_eqb (_to_string pf left_) (_to_string pf right_))
        end
      end
    | _, _ => inl (ValueError (lit "equals condition must have 'left' and 'right' keys") [])
    end
  | _ => inl (ValueError (lit "Invalid equals condition: expected dict") [])
  end.

(** The loop over the matches of [_evaluate_exists]: every match is
    resolved, and the first one that stays in the workspace decides. *)
Fixpoint first_inside (pf : platform) (workspace : str) (matches : list str)
    (w : world) : bool * world :=
  match matches with
  | [] => (false, w)
  | match_path :: rest =>
    let w' := record_probe match_path w in
    match relative_to (realpath pf match_path) workspace with
    | Some _ => (true, w')
    | None => first_inside pf workspace rest w'
    end
  end.

Definition _evaluate_exists (pf : platform) (workspace : str) (pattern : value)
    (variables : list (str * value)) (w : world) : result bool * world :=
  match pattern with
  | VStr p =>
    match fst (Substitution.substitute pf variables (VStr p) true) with
    | inl (ValueError _ _) => (inr false, w)
    | inl e => (inl e, w)
    | inr (VStr pattern') =>
      if negb (_is_path_safe pattern') then
        (inl (ValueError (lit "Unsafe path in exists condition: ") [pattern']), w)
      else
        let full_pattern := path_join workspace pattern' in
        let w1 := record_probe full_pattern w in
        let '(b, w2) := first_inside pf workspace (glob pf full_pattern) w1 in
        (inr b, w2)
    | inr _ => (inr false, w)
    end
  | _ => (inl (ValueError (lit "Invalid exists pattern: expected string") []), w)
  end.

Definition _evaluate_not_exists (pf : platform) (workspace : str) (pattern : value)
    (variables : list (str * value)) (w : world) : result bool * world :=
  match _evaluate_exists pf workspace pattern variables w with
  | (inl e, w') => (inl e, w')
  | (inr b, w') => (inr (negb b), w')
  end.

Definition condition_types : list str :=
  [lit "equals"; lit "exists"; lit "not_exists"].

Definition evaluate (pf : platform) (workspace : str) (condition : option value)
    (variables : list (str * value)) (w : world) : result bool * world :=
  match condition with
  | None => (inr true, w)
  | Some (VDict c) =>
    let present_types :=
      filter (fun k => is_Some (dict_get k c)) condition_types in
    match present_types with
    | [] => (inl (ValueError (lit "No valid condition type found.") []), w)
    | [_] =>
      match dict_get (lit "equals") c, dict_get (lit "exists") c,
            dict_get (lit "not_exists") c with
      | Some e, _, _ => (_evaluate_equals pf e variables, w)
      | None, Some p, _ => _evaluate_exists pf workspace p variables w
      | None, None, Some p => _evaluate_not_exists pf workspace p variables w
      | None, None, None => (inr true, w)
      end
    | _ => (inl (ValueError (lit "Multiple condition types found") present_types), w)
    end
  | Some _ => (inl (ValueError (lit "Invalid condition format: expected dict") []), w)
  end.

End Conditions.

(* ================================================================= *)
(** ** exec/output_capture.py *)
(* ================================================================= *)

Module OutputCapture.
Import Py World.

Inductive CaptureMode := TEXT | LINES | JSON.

(** The [error] mapping of a result: [type], [message], [context]. *)
Record error_info := mkError {
  err_type : str;
  err_message : str;
  err_context : list (str * value)
}.

Record CaptureResult := mkCaptureResult {
  mode : CaptureMode;
  output : option str;
  lines : option (list str);
  json_data : option value;
  truncated : bool;
  exit_code : Z;
  error : option error_info;
  debug : option (list (str * str))
}.

Definition TEXT_LIMIT_BYTES : Z := 8 * 1024.
Definition LINES_LIMIT : Z := 10000.
Definition JSON_BUFFER_LIMIT : Z := 1024 * 1024.

Definition encoded_len (t : str) : Z := Z.of_nat (utf8_len t).

(** [while len(output.encode('utf-8')) > limit: output = output[:-1]];
    [fuel] bounds the number of rounds, [length output] is enough. *)
Fixpoint drop_while_over (limit : Z) (fuel : nat) (output : str) : str :=
  match fuel with
  | O => output
  | S f =>
    if limit <? encoded_len output
    then drop_while_over limit f (removelast output)
    else output
  end.

(** [text[:TEXT_LIMIT_BYTES]] followed by the loop above. *)
Definition truncate_text (text : str) : str :=
  let output := take (Z.to_nat TEXT_LIMIT_BYTES) text in
  drop_while_over TEXT_LIMIT_BYTES (length output) output.

Definition stdout_log (logs_dir step_name : str) : str :=
  path_join logs_dir (step_name ++ lit ".stdout").

Definition stderr_log (logs_dir step_name : str) : str :=
  path_join logs_dir (step_name ++ lit ".stderr").

Definition _capture_text (logs_dir : str) (text : str) (raw_stdout : bytes)
    (step_name : str) (exit_code : Z) (w : world) : CaptureResult * world :=
  if TEXT_LIMIT_BYTES <? encoded_len text then
    (mkCaptureResult TEXT (Some (truncate_text text)) None None true exit_code None None,
     write_bytes (stdout_log logs_dir step_name) raw_stdout w)
  else
    (mkCaptureResult TEXT (Some text) None None false exit_code None None, w).

Definition cr : char := 13%N.
Definition lf : char := 10%N.

Definition _capture_lines (logs_dir : str) (text : str) (raw_stdout : bytes)
    (step_name : str) (exit_code : Z) (w : world) : CaptureResult * world :=
  let text := replace [cr; lf] [lf] text in
  let lines := split_on lf text in
  let lines := match last lines with
               | Some [] => removelast lines
               | _ => lines
               end in
  if LINES_LIMIT <? Z.of_nat (length lines) then
    (mkCaptureResult LINES None (Some (take (Z.to_nat LINES_LIMIT) lines)) None
                     true exit_code None None,
     write_bytes (stdout_log logs_dir step_name) raw_stdout w)
  else
    (mkCaptureResult LINES None (Some lines) None false exit_code None None, w).

Definition overflow_message (raw_stdout : bytes) : str :=
  lit "JSON buffer overflow: " ++ str_of_int (Z.of_nat (length raw_stdout))
  ++ lit " bytes exceeds 1 MiB limit".

Definition _capture_json (pf : platform) (logs_dir : str) (text : str)
    (raw_stdout : bytes) (step_name : str) (allow_parse_error : bool)
    (exit_code : Z) (w : world) : CaptureResult * world :=
  if JSON_BUFFER_LIMIT <? Z.of_nat (length raw_stdout) then
    if allow_parse_error then
      (mkCaptureResult JSON (Some (truncate_text text)) None None true 0 None
         (Some [(lit "json_parse_error", overflow_message raw_stdout)]),
       write_bytes (stdout_log logs_dir step_name) raw_stdout w)
    else
      (mkCaptureResult JSON None None None false 2
         (Some (mkError (lit "json_overflow") (overflow_message raw_stdout)
                  [(lit "buffer_size", VInt (Z.of_nat (length raw_stdout)));
                   (lit "limit", VInt JSON_BUFFER_LIMIT)]))
         None, w)
  else
    match json_loads pf text with
    | inr json_data =>
      (mkCaptureResult JSON None None (Some json_data) false exit_code None None, w)
    | inl e =>
      if allow_parse_error then
        if TEXT_LIMIT_BYTES <? encoded_len text then
          (mkCaptureResult JSON (Some (truncate_text text)) None None true 0 None
             (Some [(lit "json_parse_error", e)]),
           write_bytes (stdout_log logs_dir step_name) raw_stdout w)
        else
          (mkCaptureResult JSON (Some text) None None false 0 None
             (Some [(lit "json_parse_error", e)]), w)
      else
        (mkCaptureResult JSON None None None false 2
           (Some (mkError (lit "json_parse_error")
                    (lit "Failed to parse JSON: " ++ e) []))
           None, w)
    end.

(** The first two steps of [capture]: stderr goes to the log when
    non-empty, then the full stdout is copied to [output_file] when there
    is one. *)
Definition after_tee (logs_dir : str) (stdout stderr : bytes) (step_name : str)
    (output_file : option str) (w : world) : world :=
  let w1 := match stderr with
            | [] => w
            | _ :: _ => write_bytes (stderr_log logs_dir step_name) stderr w
            end in
  match output_file with
  | Some f => write_bytes f stdout w1
  | None => w1
  end.

(** [capture]: the two writes above, then the mode decides. *)
Definition capture (pf : platform) (logs_dir : str) (stdout stderr : bytes)
    (step_name : str) (mode : CaptureMode) (output_file : option str)
    (allow_parse_error : bool) (exit_code : Z) (w : world)
    : CaptureResult * world :=
  let w2 := after_tee logs_dir stdout stderr step_name output_file w in
  let stdout_text := decode_utf8_replace stdout in
  match mode with
  | TEXT => _capture_text logs_dir stdout_text stdout step_name exit_code w2
  | LINES => _capture_lines logs_dir stdout_text stdout step_name exit_code w2
  | JSON => _capture_json pf logs_dir stdout_text stdout step_name
                          allow_parse_error exit_code w2
  end.

End OutputCapture.

(* ================================================================= *)
(** ** exec/step_executor.py *)
(* ================================================================= *)

Module StepExecutor.
Import Py World OutputCapture.

Record ExecutionResult := mkExecutionResult {
  step_name : str;
  exit_code : Z;
  capture_result : CaptureResult;
  duration_ms : Z;
  error : option error_info
}.

Inductive command :=
| CmdString (s : str)
| CmdArgv (argv : list str).

(** [mask_dict] applied to whatever [json.loads] returned: a value that is
    not a dict has no [items]. *)
Definition mask_json (masked : list str) (data : value) : result value :=
  match data with
  | VDict d => inr (VDict (Secrets.mask_dict masked d))
  | _ => if negb (truthy data) then inr data
         else match masked with
              | [] => inr data
              | _ :: _ => inl AttributeError
              end
  end.

(** The masking of the captured output at the end of [execute_command]. *)
Definition mask_capture (masked : list str) (c : CaptureResult)
    : result CaptureResult :=
  let output' := match output c with
                 | Some (ch :: t) => Some (Secrets.mask_text masked (ch :: t))
                 | o => o
                 end in
  let lines' := match lines c with
                | Some (l :: ls) => Some (map (Secrets.mask_text masked) (l :: ls))
                | o => o
                end in
  match json_data c with
  | Some j =>
    if truthy j then
      match mask_json masked j with
      | inl e => inl e
      | inr j' =>
        inr (mkCaptureResult (mode c) output' lines' (Some j') (truncated c)
               (OutputCapture.exit_code c) (OutputCapture.error c) (debug c))
      end
    else
      inr (mkCaptureResult (mode c) output' lines' (Some j) (truncated c)
             (OutputCapture.exit_code c) (OutputCapture.error c) (debug c))
  | None =>
    inr (mkCaptureResult (mode c) output' lines' None (truncated c)
           (OutputCapture.exit_code c) (OutputCapture.error c) (debug c))
  end.

Definition timeout_value (timeout_sec : option Z) : value :=
  match timeout_sec with
  | Some t => VInt t
  | None => VNone
  end.

Definition timeout_text (timeout_sec : option Z) : str :=
  match timeout_sec with
  | Some t => str_of_int t
  | None => lit "None"
  end.

Definition execute_command (pf : platform) (logs_dir : str)
    (step_name : str) (cmd : command)
    (env : option (list (str * str))) (secrets : option (list str))
    (timeout_sec : option Z) (output_capture : CaptureMode)
    (output_file : option str) (allow_parse_error : bool) (w : world)
    : result ExecutionResult * world :=
  let '(secrets_context, w1) := Secrets.resolve_secrets pf secrets env w in
  match Secrets.missing_secrets secrets_context with
  | _ :: _ =>
    let error :=
      mkError (lit "missing_secrets")
        (lit "Missing required secrets: "
         ++ join (lit ", ") (Secrets.missing_secrets secrets_context))
        [(lit "missing_secrets",
          VList (map VStr (Secrets.missing_secrets secrets_context)))] in
    let capture_result :=
      mkCaptureResult TEXT (Some []) (Some []) None false 2 (Some error) None in
    (inr (mkExecutionResult step_name 2 capture_result 0 (Some error)), w1)
  | [] =>
    let process_env := Secrets.child_env secrets_context in
    match (match cmd with
           | CmdString s => shlex_split pf s
           | CmdArgv argv => inr argv
           end) with
    | inl e => (inl e, w1)
    | inr command_argv =>
      let call := mkSpawn command_argv process_env in
      let n := length (spawned w1) in
      let w2 := record_spawn call w1 in
      let '(exit_code, stdout, stderr, error) :=
        match subprocess_run pf n call with
        | Completed rc out err => (rc, out, err, None)
        | TimeoutExpired out err =>
          (124, default [] out, default [] err,
           Some (mkError (lit "timeout")
                   (lit "Command timed out after " ++ timeout_text timeout_sec
                    ++ lit " seconds")
                   [(lit "timeout_sec", timeout_value timeout_sec)]))
        | SpawnError msg =>
          (1, [], encode_utf8 pf msg,
           Some (mkError (lit "execution_error") msg []))
        end in
      let duration_ms := elapsed_ms pf n in
      let '(captured, w3) :=
        capture pf logs_dir stdout stderr step_name output_capture output_file
                allow_parse_error exit_code w2 in
      match mask_capture (masked_values w3) captured with
      | inl e => (inl e, w3)
      | inr capture_result =>
        let '(exit_code, error) :=
          if negb (Z.eqb (OutputCapture.exit_code capture_result) 0) then
            (OutputCapture.exit_code capture_result,
             match OutputCapture.error capture_result with
             | Some e => Some e
             | None => error
             end)
          else (exit_code, error) in
        (inr (mkExecutionResult step_name exit_code capture_result duration_ms error), w3)
      end
    end
  end.

(** What a captured result shows of a text [s]: nowhere in the output, in
    a line, or in a text of the JSON value that masking visits. *)
Definition hidden_in (s : str) (c : CaptureResult) : Prop :=
  (forall out, output c = Some out -> contains s out = false)
  /\ (forall ls l, lines c = Some ls -> l ∈ ls -> contains s l = false)
  /\ (forall j t, json_data c = Some j -> Secrets.visited_text j t ->
        contains s t = false).

End StepExecutor.

(* ================================================================= *)
(** ** state.py *)
(* ================================================================= *)

Module State.
Import Py World.

(** The dataclasses hold whatever they are given: every field is a Python
    value, [VNone] standing for [None]. *)
Record StepResult := mkStepResult {
  status : value;
  exit_code : value;
  started_at : value;
  completed_at : value;
  duration_ms : value;
  output : value;
  truncated : value;
  lines : value;
  json : value;
  text : value;
  error : value;
  debug : value;
  skipped : value;
  files : value;
  wait_duration_ms : value;
  poll_count : value;
  timed_out : value
}.

Definition is_none (v : value) : bool :=
  match v with
  | VNone => true
  | _ => false
  end.

(** [StepResult.to_dict]: the fields in declaration order, without the
    ones that are [None]. *)
Definition step_result_to_dict (r : StepResult) : value :=
  VDict (filter (fun kv => negb (is_none (snd kv)))
    [(lit "status", status r); (lit "exit_code", exit_code r);
     (lit "started_at", started_at r); (lit "completed_at", completed_at r);
     (lit "duration_ms", duration_ms r); (lit "output", output r);
     (lit "truncated", truncated r); (lit "lines", lines r);
     (lit "json", json r); (lit "text", text r); (lit "error", error r);
     (lit "debug", debug r); (lit "skipped", skipped r);
     (lit "files", files r); (lit "wait_duration_ms", wait_duration_ms r);
     (lit "poll_count", poll_count r); (lit "timed_out", timed_out r)]).

Record ForEachState := mkForEachState {
  items : value;
  completed_indices : value;
  current_index : value
}.

Definition for_each_to_dict (s : ForEachState) : value :=
  VDict [(lit "items", items s);
         (lit "completed_indices", completed_indices s);
         (lit "current_index", current_index s)].

(** An entry of [steps]: a [StepResult] object, or a plain value (the
    array of a loop, or a result read back from disk). *)
Inductive step_value :=
| SVResult (r : StepResult)
| SVRaw (v : value).

(** [steps] is a dict in every state the code builds; [from_dict] stores
    whatever the document holds. *)
Inductive steps_field :=
| StepsDict (d : list (str * step_value))
| StepsOther (v : value).

Record RunState := mkRunState {
  schema_version : value;
  run_id : value;
  workflow_file : value;
  workflow_checksum : value;
  rs_started_at : value;
  updated_at : value;
  rs_status : value;
  run_root : value;
  context : value;
  steps : steps_field;
  for_each : list (str * ForEachState)
}.

Definition step_value_to_dict (sv : step_value) : value :=
  match sv with
  | SVResult r => step_result_to_dict r
  | SVRaw v => v
  end.

(** [RunState.to_dict]; [run_root] comes last and only when it is set. *)
Definition to_dict (s : RunState) : result value :=
  match steps s with
  | StepsOther _ => inl AttributeError
  | StepsDict d =>
    inr (VDict (
      [(lit "schema_version", schema_version s);
       (lit "run_id", run_id s);
       (lit "workflow_file", workflow_file s);
       (lit "workflow_checksum", workflow_checksum s);
       (lit "started_at", rs_started_at s);
       (lit "updated_at", updated_at s);
       (lit "status", rs_status s);
       (lit "context", context s);
       (lit "steps", VDict (map (fun kv => (fst kv, step_value_to_dict (snd kv))) d));
       (lit "for_each", VDict (map (fun kv => (fst kv, for_each_to_dict (snd kv)))
                                   (for_each s)))]
      ++ (if truthy (run_root s) then [(lit "run_root", run_root s)] else [])))
  end.

Definition for_each_fields : list str :=
  [lit "items"; lit "completed_indices"; lit "current_index"].

(** The constructor call of [ForEachState] with the entries of
    [state_dict] as keyword arguments. *)
Definition make_for_each (state_dict : value) : result ForEachState :=
  match state_dict with
  | VDict d =>
    if forallb (fun kv => bool_decide (fst kv ∈ for_each_fields)) d then
      match dict_get (lit "items") d with
      | None => inl TypeError
      | Some its =>
        inr (mkForEachState its
               (default (VList []) (dict_get (lit "completed_indices") d))
               (default VNone (dict_get (lit "current_index") d)))
      end
    else inl TypeError
  | _ => inl TypeError
  end.

Fixpoint make_for_each_all (entries : list (str * value))
    : result (list (str * ForEachState)) :=
  match entries with
  | [] => inr []
  | (name, state_dict) :: rest =>
    match make_for_each state_dict with
    | inl e => inl e
    | inr s =>
      match make_for_each_all rest with
      | inl e => inl e
      | inr out => inr ((name, s) :: out)
      end
    end
  end.

Definition required (k : string) (d : list (str * value)) : result value :=
  match dict_get (lit k) d with
  | Some v => inr v
  | None => inl (KeyError (lit k))
  end.

(** [RunState.from_dict] *)
Definition from_dict (data : value) : result RunState :=
  match data with
  | VDict d =>
    (fe <- match dict_get (lit "for_each") d with
           | None => inr []
           | Some (VDict entries) => make_for_each_all entries
           | Some _ => inl AttributeError
           end ;;
     v1 <- required "schema_version" d ;;
     v2 <- required "run_id" d ;;
     v3 <- required "workflow_file" d ;;
     v4 <- required "workflow_checksum" d ;;
     v5 <- required "started_at" d ;;
     v6 <- required "updated_at" d ;;
     v7 <- required "status" d ;;
     inr (mkRunState v1 v2 v3 v4 v5 v6 v7
            (default VNone (dict_get (lit "run_root") d))
            (default (VDict []) (dict_get (lit "context") d))
            (match default (VDict []) (dict_get (lit "steps") d) with
             | VDict sd => StepsDict (map (fun kv => (fst kv, SVRaw (snd kv))) sd)
             | v => StepsOther v
             end)
            fe))%py
  | _ => inl TypeError
  end.

(** The [StateManager] object: where the run lives, whether backups are
    taken, how many are kept, and the state in memory. *)
Record StateManager := mkStateManager {
  sm_run_root : str;
  backup_enabled : bool;
  max_backups : Z;
  state : option RunState
}.

Definition set_state (m : StateManager) (s : option RunState) : StateManager :=
  mkStateManager (sm_run_root m) (backup_enabled m) (max_backups m) s.

(** [StateManager(workspace, run_id, backup_enabled, debug)], given the run
    directory it computes. *)
Definition new_manager (run_root : str) (backup_enabled debug : bool) : StateManager :=
  mkStateManager run_root (backup_enabled || debug) 3 None.

Definition state_file (m : StateManager) : str :=
  path_join (sm_run_root m) (lit "state.json").

(** [Path.with_suffix] on the last component of a path: the text after the
    last dot of the name is replaced; a name without suffix gets one. *)
Definition name_with_suffix (name suffix : str) : str :=
  match rev (split_on Substitution.dot name) with
  | last_part :: (_ :: _) as before =>
    match last_part, join (lit ".") (rev before) with
    | _ :: _, _ :: _ => join (lit ".") (rev before) ++ suffix
    | _, _ => name ++ suffix
    end
  | _ => name ++ suffix
  end.

Definition temp_file (m : StateManager) : str :=
  path_join (sm_run_root m) (name_with_suffix (lit "state.json") (lit ".tmp")).

Definition set_updated_at (s : RunState) (now : str) : RunState :=
  mkRunState (schema_version s) (run_id s) (workflow_file s)
    (workflow_checksum s) (rs_started_at s) (VStr now) (rs_status s)
    (run_root s) (context s) (steps s) (for_each s).

(** The file-system operations of [_write_state], in order: the temp file
    is opened for writing, the pieces of the document are written to it,
    and it is renamed over the state file.  When [to_dict] raises, nothing
    follows the opening. *)
Definition _write_state_ops (pf : platform) (m : StateManager) (s : RunState)
    : list fs_op :=
  FsTruncate (temp_file m) ::
  match to_dict s with
  | inl _ => []
  | inr doc =>
    map (FsAppend (temp_file m)) (json_dump_chunks pf doc)
    ++ [FsRename (temp_file m) (state_file m)]
  end.

(** [_write_state]; [now] is the time read from the clock. *)
Definition _write_state (pf : platform) (now : str) (m : StateManager) (w : world)
    : result StateManager * world :=
  match state m with
  | None => (inl (RuntimeError (lit "No state to write")), w)
  | Some s =>
    let s' := set_updated_at s now in
    let m' := set_state m (Some s') in
    (match to_dict s' with
     | inl e => inl e
     | inr _ => inr m'
     end,
     run_fs_ops (_write_state_ops pf m' s') w)
  end.

Definition set_steps (s : RunState) (f : steps_field) : RunState :=
  mkRunState (schema_version s) (run_id s) (workflow_file s)
    (workflow_checksum s) (rs_started_at s) (updated_at s) (rs_status s)
    (run_root s) (context s) f (for_each s).

Definition set_status (s : RunState) (status : str) : RunState :=
  mkRunState (schema_version s) (run_id s) (workflow_file s)
    (workflow_checksum s) (rs_started_at s) (updated_at s) (VStr status)
    (run_root s) (context s) (steps s) (for_each s).

(** [self.state.steps[key] = entry] followed by [_write_state]: the body
    shared by [update_step], [update_loop_step] and [update_loop_results]. *)
Definition store_entry (pf : platform) (now : str) (key : str) (entry : step_value)
    (m : StateManager) (w : world) : result StateManager * world :=
  match state m with
  | None => (inl (RuntimeError (lit "State not initialized")), w)
  | Some s =>
    match steps s with
    | StepsDict d =>
      _write_state pf now (set_state m (Some (set_steps s (StepsDict (dict_set key entry d))))) w
    | StepsOther _ => (inl TypeError, w)
    end
  end.

Definition update_step (pf : platform) (now : str) (step_name : str)
    (r : StepResult) (m : StateManager) (w : world) : result StateManager * world :=
  store_entry pf now step_name (SVResult r) m w.

Definition update_loop_step (pf : platform) (now : str) (loop_name : str)
    (index : Z) (step_name : str) (r : StepResult) (m : StateManager) (w : world)
    : result StateManager * world :=
  store_entry pf now
    (loop_name ++ lit "[" ++ str_of_int index ++ lit "]." ++ step_name)
    (SVResult r) m w.

Definition update_loop_results (pf : platform) (now : str) (loop_name : str)
    (loop_results : list value) (m : StateManager) (w : world)
    : result StateManager * world :=
  store_entry pf now loop_name (SVRaw (VList loop_results)) m w.

Definition update_status (pf : platform) (now : str) (status : str)
    (m : StateManager) (w : world) : result StateManager * world :=
  match state m with
  | None => (inl (RuntimeError (lit "State not initialized")), w)
  | Some s => _write_state pf now (set_state m (Some (set_status s status))) w
  end.

(** The state that [from_dict] builds from a document built by [to_dict]:
    the entries of [steps] are plain values, and an unset [run_root] is
    [None]. *)
Definition read_back (s : RunState) (d : list (str * step_value)) : RunState :=
  mkRunState (schema_version s) (run_id s) (workflow_file s)
    (workflow_checksum s) (rs_started_at s) (updated_at s) (rs_status s)
    (if truthy (run_root s) then run_root s else VNone) (context s)
    (StepsDict (map (fun kv => (fst kv, SVRaw (snd kv)))
                    (map (fun kv => (fst kv, step_value_to_dict (snd kv))) d)))
    (for_each s).

(** [load] *)
Definition load (pf : platform) (m : StateManager) (w : world)
    : result (StateManager * RunState) :=
  match fs w !! state_file m with
  | None => inl (OSError (lit "State file not found"))
  | Some content =>
    (data <- json_load pf content ;;
     s <- from_dict data ;;
     inr (set_state m (Some s), s))%py
  end.

(** [t.endswith(suffix)] *)
Definition endswith (suffix t : str) : bool := startswith (rev suffix) (rev t).

(** The name [n] matches the pattern [state.json.step_*.bak]. *)
Definition is_backup_name (n : str) : bool :=
  startswith (lit "state.json.step_") n && endswith (lit ".bak") n
  && Nat.leb (length (lit "state.json.step_") + length (lit ".bak")) (length n).

(** [self.state_file.parent.glob("state.json.step_*.bak")]: the files that
    sit directly in the run directory and whose name matches. *)
Definition is_backup_path (run_root path : str) : bool :=
  let prefix := path_join run_root [] ++ lit "/" in
  startswith prefix path
  && let n := drop (length prefix) path in
     negb (bool_decide (slash ∈ n)) && is_backup_name n.

Definition glob_backups (m : StateManager) (files : gmap str bytes) : list str :=
  filter (fun p => is_backup_path (sm_run_root m) p) (map fst (map_to_list files)).

Definition backup_file (m : StateManager) (step_name : str) : str :=
  path_join (sm_run_root m) (lit "state.json.step_" ++ step_name ++ lit ".bak").

(** [_rotate_backups]: [backups[:-max_backups]] are removed. *)
Definition _rotate_backups (m : StateManager) (w : world) : world :=
  let backups := sorted (glob_backups m (fs w)) in
  if max_backups m <? Z.of_nat (length backups) then
    run_fs_ops
      (map FsUnlink (take (length backups - Z.to_nat (max_backups m)) backups)) w
  else w.

(** [backup_state].  The copy needs the directory of the backup file: a
    step name with a slash points into a directory that nothing creates,
    and the copy raises. *)
Definition backup_state (m : StateManager) (step_name : str) (w : world)
    : result unit * world :=
  if negb (backup_enabled m) then (inr tt, w)
  else match fs w !! state_file m with
       | None => (inr tt, w)
       | Some content =>
         if bool_decide (slash ∈ step_name) then
           (inl (OSError (lit "No such file or directory")), w)
         else
           (inr tt, _rotate_backups m (write_bytes (backup_file m step_name) content w))
       end.

(** The loop of [attempt_repair] over the backups, in the order given. *)
Fixpoint repair_from (pf : platform) (m : StateManager) (backups : list str)
    (w : world) : result (bool * StateManager) * world :=
  match backups with
  | [] => (inr (false, m), w)
  | backup :: rest =>
    match fs w !! backup with
    | None => (inl (OSError (lit "No such file or directory")), w)
    | Some content =>
      match bind (json_load pf content) from_dict with
      | inr s => (inr (true, set_state m (Some s)), write_bytes (state_file m) content w)
      | inl (JSONDecodeError _) | inl (KeyError _) | inl TypeError =>
        repair_from pf m rest w
      | inl e => (inl e, w)
      end
    end
  end.

Definition attempt_repair (pf : platform) (m : StateManager) (w : world)
    : result (bool * StateManager) * world :=
  repair_from pf m (sorted_reverse (glob_backups m (fs w))) w.

End State.

(* ================================================================= *)
(** ** deps/resolver.py *)
(* ================================================================= *)

Module Resolver.
Import Py World.

Record DependencyResolution := mkResolution {
  required_files : list str;
  optional_files : list str;
  missing_required : list str;
  patterns_used : list (str * list str)
}.

Definition is_valid (r : DependencyResolution) : bool :=
  match missing_required r with
  | [] => true
  | _ :: _ => false
  end.

Definition files (r : DependencyResolution) : list str :=
  sorted (required_files r ++ optional_files r).

(** [_substitute_variables]: one textual replacement per variable. *)
Definition _substitute_variables (pattern : str) (variables : list (str * str)) : str :=
  foldl (fun result kv =>
           replace (lit "${" ++ fst kv ++ lit "}") (snd kv) result)
        pattern variables.

Definition _validate_path_safety (path : str) : result unit :=
  if is_absolute path then
    inl (ValueError (lit "Path safety violation: absolute path not allowed: ") [path])
  else if bool_decide (lit ".." ∈ path_parts path) then
    inl (ValueError
           (lit "Path safety violation: parent directory traversal not allowed: ")
           [path])
  else inr tt.

(** The inner loop of [_resolve_patterns]: every match is resolved and
    must stay in the workspace. *)
Fixpoint relative_matches (pf : platform) (workspace : str) (matches : list str)
    (w : world) : result (list str) * world :=
  match matches with
  | [] => (inr [], w)
  | m :: rest =>
    let w' := record_probe m w in
    let match_path := realpath pf m in
    if negb (startswith workspace match_path) then
      (inl (ValueError (lit "Path safety violation: symlink escapes workspace") [m]), w')
    else
      match relative_to match_path workspace with
      | None =>
        (inl (ValueError (lit "Path safety violation: resolved path outside workspace")
                [match_path]), w')
      | Some rel_path =>
        match relative_matches pf workspace rest w' with
        | (inl e, w'') => (inl e, w'')
        | (inr out, w'') => (inr (rel_path :: out), w'')
        end
      end
  end.

(** The removal of duplicates at the end of [_resolve_patterns]. *)
Fixpoint unique (seen : list str) (all_files : list str) : list str :=
  match all_files with
  | [] => []
  | f :: rest =>
    if bool_decide (f ∈ seen) then unique seen rest
    else f :: unique (f :: seen) rest
  end.

(** The outer loop: the files, the patterns used and the missing patterns
    collected so far are carried along. *)
Fixpoint resolve_loop (pf : platform) (workspace : str) (patterns : list str)
    (variables : list (str * str)) (required : bool)
    (all_files : list str) (used : list (str * list str)) (missing : list str)
    (w : world)
    : result (list str * list (str * list str) * list str) * world :=
  match patterns with
  | [] => (inr (all_files, used, missing), w)
  | pattern :: rest =>
    let expanded_pattern := _substitute_variables pattern variables in
    match _validate_path_safety expanded_pattern with
    | inl e => (inl e, w)
    | inr _ =>
      let full_pattern := path_join workspace expanded_pattern in
      let w1 := record_probe full_pattern w in
      match relative_matches pf workspace (glob pf full_pattern) w1 with
      | (inl e, w2) => (inl e, w2)
      | (inr found, w2) =>
        let found := sorted found in
        match found with
        | _ :: _ =>
          resolve_loop pf workspace rest variables required
            (all_files ++ found) (dict_set expanded_pattern found used) missing w2
        | [] =>
          resolve_loop pf workspace rest variables required all_files used
            (if required then missing ++ [expanded_pattern] else missing) w2
        end
      end
    end
  end.

Definition _resolve_patterns (pf : platform) (workspace : str) (patterns : list str)
    (variables : list (str * str)) (required : bool) (w : world)
    : result (list str * list (str * list str) * list str) * world :=
  match resolve_loop pf workspace patterns variables required [] [] [] w with
  | (inl e, w') => (inl e, w')
  | (inr (all_files, used, missing), w') =>
    (inr (unique [] all_files, used, missing), w')
  end.

(** [resolve]; [depends_on] maps [required] and [optional] to their
    pattern lists. *)
Definition resolve (pf : platform) (workspace : str)
    (depends_on : list (str * list str)) (variables : option (list (str * str)))
    (w : world) : result DependencyResolution * world :=
  match depends_on with
  | [] => (inr (mkResolution [] [] [] []), w)
  | _ :: _ =>
    let variables := default [] variables in
    match _resolve_patterns pf workspace
            (default [] (dict_get (lit "required") depends_on)) variables true w with
    | (inl e, w1) => (inl e, w1)
    | (inr (required_files, required_used, missing_required), w1) =>
      match _resolve_patterns pf workspace
              (default [] (dict_get (lit "optional") depends_on)) variables false w1 with
      | (inl e, w2) => (inl e, w2)
      | (inr (optional_files, optional_used, _), w2) =>
        (inr (mkResolution required_files optional_files missing_required
                (foldl (fun acc kv => dict_set (fst kv) (snd kv) acc)
                       required_used optional_used)), w2)
      end
    end
  end.

(** A match stays in the workspace: its real path passes the two tests of
    the inner loop. *)
Definition inside (pf : platform) (workspace : str) (m : str) : bool :=
  startswith workspace (realpath pf m)
  && bool_decide (is_Some (relative_to (realpath pf m) workspace)).

(** The relative paths found for one pattern, in the order the loop
    stores them. *)
Definition found_for (pf : platform) (workspace : str)
    (variables : list (str * str)) (pattern : str) : list str :=
  sorted (omap (fun m => relative_to (realpath pf m) workspace)
               (glob pf (path_join workspace (_substitute_variables pattern variables)))).

(** A pattern that the loop gets through: safe once expanded, and with
    every match in the workspace. *)
Definition pattern_ok (pf : platform) (workspace : str)
    (variables : list (str * str)) (pattern : str) : bool :=
  let expanded := _substitute_variables pattern variables in
  negb (is_absolute expanded)
  && negb (bool_decide (lit ".." ∈ path_parts expanded))
  && forallb (inside pf workspace) (glob pf (path_join workspace expanded)).

(** The required patterns without any match. *)
Definition missing_of (pf : platform) (workspace : str)
    (variables : list (str * str)) (required : bool) (patterns : list str)
    : list str :=
  if required then
    map (fun p => _substitute_variables p variables)
        (filter (fun p => found_for pf workspace variables p = []) patterns)
  else [].

(** [a] is not after [b]. *)
Definition not_after (a b : str) : Prop := str_ltb b a = false.

End Resolver.

(* ================================================================= *)
(** ** workflow/executor.py *)
(* ================================================================= *)

Module Executor.
Import Py World.

(** A handler of [on]: a mapping that may carry [goto]. *)
Record handler := mkHandler { goto : option str }.

Record on_handlers := mkOn {
  on_success : option handler;
  on_failure : option handler;
  on_always : option handler
}.

(** What a step does: run a command, or one of the other kinds (loop,
    wait, provider), which this development leaves to [run_other]. *)
Inductive step_kind :=
| KCommand (cmd : StepExecutor.command)
| KOther.

Record Step := mkStep {
  name : option str;
  when : option value;
  on : option on_handlers;
  kind : step_kind;
  retries : option Retry.retries_config;
  env : option (list (str * str));
  timeout_sec : option Z;
  output_capture : option str;
  output_file : option str;
  allow_parse_error : option bool
}.

(** The workflow and the settings of the executor that the step loop
    reads. *)
Record Workflow := mkWorkflow {
  wf_steps : list Step;
  strict_flow : option bool;
  wf_context : option value;
  workspace : str;
  logs_dir : str;
  debug : bool
}.

Definition error_to_value (e : OutputCapture.error_info) : value :=
  VDict [(lit "type", VStr (OutputCapture.err_type e));
         (lit "message", VStr (OutputCapture.err_message e));
         (lit "context", VDict (OutputCapture.err_context e))].

Definition opt_entry {A} (k : string) (f : A -> value) (o : option A)
    : list (str * value) :=
  match o with
  | Some a => [(lit k, f a)]
  | None => []
  end.

(** [CaptureResult.to_state_dict] *)
Definition capture_to_state_dict (c : OutputCapture.CaptureResult) : list (str * value) :=
  [(lit "exit_code", VInt (OutputCapture.exit_code c));
   (lit "truncated", VBool (OutputCapture.truncated c))]
  ++ (match OutputCapture.mode c, OutputCapture.json_data c with
      | OutputCapture.TEXT, _ | OutputCapture.JSON, None =>
        opt_entry "output" VStr (OutputCapture.output c)
      | _, _ => []
      end)
  ++ (match OutputCapture.mode c with
      | OutputCapture.LINES =>
        opt_entry "lines" (fun l => VList (map VStr l)) (OutputCapture.lines c)
      | _ => []
      end)
  ++ (match OutputCapture.mode c with
      | OutputCapture.JSON => opt_entry "json" id (OutputCapture.json_data c)
      | _ => []
      end)
  ++ opt_entry "error" error_to_value (OutputCapture.error c)
  ++ (match OutputCapture.debug c with
      | Some (kv :: d) =>
        [(lit "debug", VDict (map (fun e => (fst e, VStr (snd e))) (kv :: d)))]
      | _ => []
      end).

Definition dict_update {V} (d extra : list (str * V)) : list (str * V) :=
  foldl (fun acc kv => dict_set (fst kv) (snd kv) acc) d extra.

(** [ExecutionResult.to_state_dict]: the entries of the capture result
    come after (and replace) [exit_code] and [duration_ms]. *)
Definition to_state_dict (r : StepExecutor.ExecutionResult) : list (str * value) :=
  let base :=
    dict_update [(lit "exit_code", VInt (StepExecutor.exit_code r));
                 (lit "duration_ms", VInt (StepExecutor.duration_ms r))]
                (capture_to_state_dict (StepExecutor.capture_result r)) in
  match StepExecutor.error r with
  | Some e => dict_set (lit "error") (error_to_value e) base
  | None => base
  end.

Definition get_or (k : string) (dflt : value) (d : list (str * value)) : value :=
  default dflt (dict_get (lit k) d).

(** [VariableSubstitutor.build_variables] *)
Definition build_variables (run_state : list (str * value)) (context : value)
    (loop_vars : value) (item : value) : list (str * value) :=
  (match run_state with
   | [] => []
   | _ :: _ =>
     [(lit "run", VDict [(lit "id", get_or "run_id" (VStr []) run_state);
                         (lit "root", get_or "run_root" (VStr []) run_state);
                         (lit "timestamp_utc", get_or "started_at" (VStr []) run_state)]);
      (lit "steps", get_or "steps" (VDict []) run_state)]
   end)
  ++ (if truthy context then [(lit "context", context)] else [])
  ++ (if truthy loop_vars then [(lit "loop", loop_vars)] else [])
  ++ (match item with
      | VNone => []
      | _ => [(lit "item", item)]
      end).

Definition reserved_names : list str :=
  [lit "run"; lit "context"; lit "steps"; lit "loop"; lit "item"].

(** The variables of [_execute_command_with_context]: [build_variables] on
    the scoped state, then the custom loop variables of the context. *)
Definition command_variables (context state : list (str * value)) : list (str * value) :=
  let scoped_state := match dict_get (lit "steps") context with
                      | Some s => dict_set (lit "steps") s state
                      | None => state
                      end in
  dict_update
    (build_variables scoped_state (get_or "context" (VDict []) context)
                     (get_or "loop" VNone context) (get_or "item" VNone context))
    (filter (fun kv => fst kv ∉ reserved_names) context).

(** [str(Path(p))] *)
Definition normpath (p : str) : str := path_join p [].

Definition capture_mode_of (step : Step) : OutputCapture.CaptureMode :=
  let capture_mode_str := default (lit "text") (output_capture step) in
  if str_eqb capture_mode_str (lit "text") then OutputCapture.TEXT
  else if str_eqb capture_mode_str (lit "lines") then OutputCapture.LINES
  else OutputCapture.JSON.

(** The substitution of the command: element by element for an argv, with
    undefined variables tracked; the second component is
    [undefined_vars] when the substitution ends. *)
Fixpoint substitute_argv (pf : platform) (variables : list (str * value))
    (argv : list str) : result (list str) * list str :=
  match argv with
  | [] => (inr [], [])
  | elem :: rest =>
    match Substitution.substitute pf variables (VStr elem) true with
    | (inl e, u) => (inl e, u)
    | (inr (VStr s), u) =>
      match rest with
      | [] => (inr [s], u)
      | _ :: _ =>
        match substitute_argv pf variables rest with
        | (inl e, u') => (inl e, u')
        | (inr out, u') => (inr (s :: out), u')
        end
      end
    | (inr _, u) => (inl TypeError, u)
    end
  end.

Definition substitute_command (pf : platform) (variables : list (str * value))
    (cmd : StepExecutor.command) : result StepExecutor.command * list str :=
  match cmd with
  | StepExecutor.CmdArgv argv =>
    match substitute_argv pf variables argv with
    | (inl e, u) => (inl e, u)
    | (inr out, u) => (inr (StepExecutor.CmdArgv out), u)
    end
  | StepExecutor.CmdString s =>
    match Substitution.substitute pf variables (VStr s) true with
    | (inl e, u) => (inl e, u)
    | (inr (VStr out), u) => (inr (StepExecutor.CmdString out), u)
    | (inr _, u) => (inl TypeError, u)
    end
  end.

(** The best-effort rendering for the error context: the same
    substitution without tracking; any exception falls back to the
    command as written. *)
Fixpoint render_argv (pf : platform) (variables : list (str * value))
    (argv : list str) : option (list str) :=
  match argv with
  | [] => Some []
  | elem :: rest =>
    match fst (Substitution.substitute pf variables (VStr elem) false),
          render_argv pf variables rest with
    | inr (VStr s), Some out => Some (s :: out)
    | _, _ => None
    end
  end.

Definition substituted_command (pf : platform) (variables : list (str * value))
    (cmd : StepExecutor.command) : list str :=
  match cmd with
  | StepExecutor.CmdArgv argv => default argv (render_argv pf variables argv)
  | StepExecutor.CmdString s =>
    match fst (Substitution.substitute pf variables (VStr s) false) with
    | inr (VStr out) => [out]
    | _ => [s]
    end
  end.

(** The result recorded for a command with undefined variables. *)
Definition undefined_variables_result (undefined_vars substituted_cmd : list str)
    : list (str * value) :=
  [(lit "exit_code", VInt 2);
   (lit "error",
    VDict [(lit "type", VStr (lit "undefined_variables"));
           (lit "message",
            VStr (lit "Undefined variables in command: "
                  ++ join (lit ", ") undefined_vars));
           (lit "context",
            VDict [(lit "undefined_vars", VList (map VStr undefined_vars));
                   (lit "substituted_command", VList (map VStr substituted_cmd))])]);
   (lit "output", VStr []);
   (lit "duration_ms", VInt 0)].

(** The [while True] loop of [_execute_command_with_context].  [attempt]
    counts from 0, [history] collects the results of the attempts made so
    far, and [fuel] bounds the number of rounds ([None]: the bound was too
    small). *)
Fixpoint retry_loop (pf : platform) (wf : Workflow) (step : Step)
    (cmd : StepExecutor.command) (variables : list (str * value))
    (retry_policy : Retry.RetryPolicy) (fuel : nat) (attempt : Z)
    (history : list StepExecutor.ExecutionResult) (w : world)
    : option (result (list StepExecutor.ExecutionResult) * world) :=
  match fuel with
  | O => None
  | S f =>
    let out_file :=
      match output_file step with
      | None => inr None
      | Some o =>
        match fst (Substitution.substitute pf variables (VStr o) true) with
        | inl e => inl e
        | inr (VStr s) => inr (Some (normpath s))
        | inr _ => inl TypeError
        end
      end in
    match out_file with
    | inl e => Some (inl e, w)
    | inr output_file =>
      match StepExecutor.execute_command pf (logs_dir wf)
              (default (lit "command") (name step)) cmd (env step) None
              (timeout_sec step) (capture_mode_of step) output_file
              (default false (allow_parse_error step)) w with
      | (inl e, w') => Some (inl e, w')
      | (inr r, w') =>
        if Retry.should_retry retry_policy (StepExecutor.exit_code r) attempt
        then retry_loop pf wf step cmd variables retry_policy f (attempt + 1)
                        (history ++ [r]) w'
        else Some (inr (history ++ [r]), w')
      end
    end
  end.

(** [_execute_command_with_context]: the recorded result, and the results
    of all the attempts (none when the command was not run). *)
Definition _execute_command_with_context (pf : platform) (wf : Workflow)
    (step : Step) (cmd : StepExecutor.command)
    (context state : list (str * value)) (w : world)
    : option (result (list (str * value) * list StepExecutor.ExecutionResult) * world) :=
  let variables := command_variables context state in
  match substitute_command pf variables cmd with
  | (inl (ValueError _ _), undefined_vars) =>
    Some (inr (undefined_variables_result undefined_vars
                 (substituted_command pf variables cmd), []), w)
  | (inl e, _) => Some (inl e, w)
  | (inr command, _) =>
    let retry_policy := Retry.for_command (retries step) in
    match retry_loop pf wf step command variables retry_policy
            (S (Z.to_nat (Retry.max_retries retry_policy))) 0 [] w with
    | None => None
    | Some (inl e, w') => Some (inl e, w')
    | Some (inr history, w') =>
      match last history with
      | Some r => Some (inr (to_state_dict r, history), w')
      | None =>
        Some (inr ([(lit "status", VStr (lit "failed")); (lit "exit_code", VInt 1);
                    (lit "error",
                     VDict [(lit "message",
                             VStr (lit "Command execution failed with no result"))])],
                   history), w')
      end
    end
  end.

(** [_execute_command]: no loop context. *)
Definition _execute_command (pf : platform) (wf : Workflow) (step : Step)
    (cmd : StepExecutor.command) (state : list (str * value)) (w : world) :=
  _execute_command_with_context pf wf step cmd
    [(lit "context", get_or "context" (VDict []) state)] state w.

(** Where the step loop goes next. *)
Inductive flow :=
| FlowEnd
| FlowStop
| FlowJump (index : nat)
| FlowNext.

(** [v == 0] *)
Definition equals_zero (v : value) : bool :=
  match v with
  | VInt z => Z.eqb z 0
  | VBool b => negb b
  | VFloat r => str_eqb r (lit "0.0") || str_eqb r (lit "-0.0")
  | _ => false
  end.

Fixpoint index_of_step (target : str) (steps : list Step) (i : nat) : option nat :=
  match steps with
  | [] => None
  | s :: rest =>
    if bool_decide (name s = Some target) then Some i
    else index_of_step target rest (S i)
  end.

Definition _resolve_goto_target (wf : Workflow) (target : str) : flow :=
  if str_eqb target (lit "_end") then FlowEnd
  else match index_of_step target (wf_steps wf) 0 with
       | Some i => FlowJump i
       | None => FlowNext
       end.

Definition handler_goto (h : option handler) : option str :=
  match h with
  | Some h' => goto h'
  | None => None
  end.

(** The target chosen from the handlers of [on]: the branch that matches
    the exit code, then [always] on top of it. *)
Definition goto_target_of (handlers : on_handlers) (exit_code : value) : option str :=
  let goto_target :=
    match on_success handlers, on_failure handlers with
    | Some h, _ => if equals_zero exit_code then goto h
                   else match on_failure handlers with
                        | Some h' => goto h'
                        | None => None
                        end
    | None, Some h' => if equals_zero exit_code then None else goto h'
    | None, None => None
    end in
  match on_always handlers with
  | Some h => match goto h with
              | Some t => Some t
              | None => goto_target
              end
  | None => goto_target
  end.

(** The entry of [step_name] in [state['steps']], [{}] when there is
    none. *)
Definition step_result_of (state : list (str * value)) (step_name : str)
    : result value :=
  match get_or "steps" (VDict []) state with
  | VDict sd => inr (default (VDict []) (dict_get step_name sd))
  | _ => inl AttributeError
  end.

(** The part of [_handle_control_flow] that follows the look-up of the
    result of the step, for a result that is a dict. *)
Definition flow_of_result (wf : Workflow) (step : Step) (on_error : str)
    (step_result : list (str * value)) : flow :=
  let exit_code := get_or "exit_code" (VInt 0) step_result in
  if truthy (get_or "skipped" VNone step_result) then FlowNext
  else
    let after_handlers :=
      if negb (equals_zero exit_code) then
        if default true (strict_flow wf) && str_eqb on_error (lit "stop")
        then FlowStop
        else FlowNext
      else FlowNext in
    match on step with
    | Some handlers =>
      match goto_target_of handlers exit_code with
      | Some (c :: t) => _resolve_goto_target wf (c :: t)
      | _ => after_handlers
      end
    | None => after_handlers
    end.

Definition _handle_control_flow (wf : Workflow) (step : Step)
    (state : list (str * value)) (step_name : str) (on_error : str)
    : result flow :=
  match step_result_of state step_name with
  | inl e => inl e
  | inr (VDict step_result) => inr (flow_of_result wf step on_error step_result)
  | inr _ => inr FlowNext
  end.

(** [state['steps'][step_name] = v], creating [steps] when the state has
    none.  [state['steps']] is a dict in every state that [to_dict] builds;
    on another value the assignment raises. *)
Definition set_step_entry (state : list (str * value)) (step_name : str) (v : value)
    : result (list (str * value)) :=
  match dict_get (lit "steps") state with
  | None => inr (dict_set (lit "steps") (VDict [(step_name, v)]) state)
  | Some (VDict sd) =>
    inr (dict_set (lit "steps") (VDict (dict_set step_name v sd)) state)
  | Some _ => inl TypeError
  end.

(** [StepResult(status=..., exit_code=...)] with the defaults of the
    dataclass for the other fields. *)
Definition blank_result (status : str) (exit_code : value) : State.StepResult :=
  State.mkStepResult (VStr status) exit_code VNone VNone VNone VNone (VBool false)
    VNone VNone VNone VNone VNone (VBool false) VNone VNone VNone VNone.

(** The [StepResult] persisted for a command step. *)
Definition command_step_result (r : list (str * value)) : State.StepResult :=
  State.mkStepResult
    (VStr (if equals_zero (get_or "exit_code" VNone r)
           then lit "completed" else lit "failed"))
    (get_or "exit_code" (VInt 0) r) VNone VNone
    (get_or "duration_ms" (VInt 0) r) (get_or "output" VNone r)
    (get_or "truncated" (VBool false) r) (get_or "lines" VNone r)
    (get_or "json" VNone r) VNone (get_or "error" VNone r) VNone
    (VBool false) VNone VNone VNone VNone.

Definition exn_text (e : exn) : str :=
  match e with
  | ValueError msg payload => msg ++ join (lit ", ") payload
  | TypeError => lit "TypeError"
  | AttributeError => lit "AttributeError"
  | KeyError k => k
  | JSONDecodeError msg => msg
  | UnicodeDecodeError => lit "UnicodeDecodeError"
  | RuntimeError msg => msg
  | OSError msg => msg
  end.

Definition terminal_status (v : value) : bool :=
  match v with
  | VStr s => str_eqb s (lit "completed") || str_eqb s (lit "skipped")
  | _ => false
  end.

(** The resume test at the top of the loop body: the step already has a
    terminal result. *)
Definition already_done (state : list (str * value)) (step_name : str) : bool :=
  match dict_get (lit "steps") state with
  | Some (VDict sd) =>
    match dict_get step_name sd with
    | Some (VList iterations) =>
      forallb (fun iteration =>
                 match iteration with
                 | VDict d => terminal_status (get_or "status" VNone d)
                 | _ => true
                 end) iterations
    | Some (VDict d) => terminal_status (get_or "status" VNone d)
    | _ => false
    end
  | _ => false
  end.

(** What the loop body hands back: where to go, the state dict, the state
    manager. *)
Definition step_outcome : Type := flow * list (str * value) * State.StateManager.

(** Recording a result that ends the iteration at once (condition failed
    to evaluate, or step skipped): the state dict, then the state store,
    then on to the next step. *)
Definition record_and_advance (pf : platform) (now : str)
    (state : list (str * value)) (m : State.StateManager) (step_name : str)
    (entry : list (str * value)) (r : State.StepResult) (w : world)
    : result step_outcome * world :=
  match set_step_entry state step_name (VDict entry) with
  | inl e => (inl e, w)
  | inr state' =>
    match State.update_step pf now step_name r m w with
    | (inl e, w') => (inl e, w')
    | (inr m', w') => (inr (FlowNext, state', m'), w')
    end
  end.

(** The name under which the step at [step_index] is recorded. *)
Definition step_name_of (step_index : nat) (step : Step) : str :=
  default (lit "step_" ++ str_of_int (Z.of_nat step_index)) (name step).

(** The evaluation of [when]: a step without condition always runs. *)
Definition when_gate (pf : platform) (wf : Workflow) (step : Step)
    (state : list (str * value)) (w : world) : result bool * world :=
  match when step with
  | None => (inr true, w)
  | Some cond =>
    Conditions.evaluate pf (workspace wf) (Some cond)
      (build_variables state (default (VDict []) (wf_context wf)) VNone VNone) w
  end.

(** One round of the [while] loop of [execute] for the step at
    [step_index].  [run_other] stands for the dispatch of the kinds of
    step other than commands; [now] is the time read by the state store. *)
Definition run_step (pf : platform) (wf : Workflow)
    (run_other : Step -> list (str * value) -> State.StateManager -> world ->
                 list (str * value) * State.StateManager * world)
    (now : str) (resume : bool) (on_error : str) (step_index : nat) (step : Step)
    (state : list (str * value)) (m : State.StateManager) (w : world)
    : option (result step_outcome * world) :=
  let step_name := step_name_of step_index step in
  if resume && already_done state step_name then Some (inr (FlowNext, state, m), w)
  else
    match when_gate pf wf step state w with
    | (inl e, w1) =>
      let error_info :=
        VDict [(lit "message", VStr (lit "Condition evaluation failed: " ++ exn_text e));
               (lit "context", VDict [(lit "condition", default VNone (when step))])] in
      Some (record_and_advance pf now state m step_name
              [(lit "status", VStr (lit "failed")); (lit "exit_code", VInt 2);
               (lit "error", error_info)]
              (State.mkStepResult (VStr (lit "failed")) (VInt 2) VNone VNone VNone
                 VNone (VBool false) VNone VNone VNone error_info VNone
                 (VBool false) VNone VNone VNone VNone) w1)
    | (inr false, w1) =>
      Some (record_and_advance pf now state m step_name
              [(lit "status", VStr (lit "skipped")); (lit "exit_code", VInt 0);
               (lit "skipped", VBool true)]
              (State.mkStepResult (VStr (lit "skipped")) (VInt 0) VNone VNone VNone
                 VNone (VBool false) VNone VNone VNone VNone VNone
                 (VBool true) VNone VNone VNone VNone) w1)
    | (inr true, w1) =>
      match (if debug wf then State.backup_state m step_name w1 else (inr tt, w1)) with
      | (inl e, w2) => Some (inl e, w2)
      | (inr _, w2) =>
        let ran :=
          match kind step with
          | KOther =>
            let '(state', m', w3) := run_other step state m w2 in
            Some (inr (state', m'), w3)
          | KCommand cmd =>
            match _execute_command pf wf step cmd state w2 with
            | None => None
            | Some (inl e, w3) => Some (inl e, w3)
            | Some (inr (r, _), w3) =>
              match set_step_entry state step_name (VDict r) with
              | inl e => Some (inl e, w3)
              | inr state' =>
                match State.update_step pf now step_name (command_step_result r) m w3 with
                | (inl e, w4) => Some (inl e, w4)
                | (inr m', w4) => Some (inr (state', m'), w4)
                end
              end
            end
          end in
        match ran with
        | None => None
        | Some (inl e, w3) => Some (inl e, w3)
        | Some (inr (state', m'), w3) =>
          match _handle_control_flow wf step state' step_name on_error with
          | inl e => Some (inl e, w3)
          | inr next_step => Some (inr (next_step, state', m'), w3)
          end
        end
      end
    end.

End Executor.

(* ================================================================= *)
(** ** Sample surroundings and workflows *)
(* ================================================================= *)

Module Samples.
Import Py World.

Definition blit (s : string) : bytes := map byte_of_ascii (list_ascii_of_string s).

(** A decoder for the samples: an ASCII byte is its own character, any
    other byte is replaced by U+FFFD. *)
Definition decode_ascii_replace (b : bytes) : str :=
  map (fun x => if (Byte.to_N x <? 128)%N then Byte.to_N x else 65533%N) b.

Definition encode_ascii (t : str) : bytes :=
  map (fun c => default Byte.x3f (Byte.of_N c)) t.

(** Surroundings in which the n-th subprocess behaves as [proc n] says and
    no output is valid JSON. *)
Definition sample_platform (env : gmap str str) (proc : nat -> proc_outcome)
    : platform :=
  mkPlatform env (fun n _ => proc n) (fun _ => 7)
    (fun _ => []) (fun path => path)
    (fun _ => inl (lit "Expecting value: line 1 column 1 (char 0)"))
    (fun _ => lit "{}") (fun _ => [blit "{"; blit "}"])
    (fun _ => inl (JSONDecodeError (lit "Expecting value")))
    (fun _ => lit "[]") encode_ascii
    (fun s => inr (split_on 32%N s)).

(** A process that always fails with exit code 1. *)
Definition always_fails : platform :=
  sample_platform ∅ (fun _ => Completed 1 [] []).

(** Scenario: [Fail] runs [false] with [retries: {max: 2}] and
    [on.failure.goto: Handler]; [Middle] sits between the two. *)
Definition step_fail : Executor.Step :=
  Executor.mkStep (Some (lit "Fail")) None
    (Some (Executor.mkOn None (Some (Executor.mkHandler (Some (lit "Handler")))) None))
    (Executor.KCommand (StepExecutor.CmdArgv [lit "false"]))
    (Some (Retry.RetriesDict [(lit "max", 2)])) None None None None None.

Definition step_echo (n : string) : Executor.Step :=
  Executor.mkStep (Some (lit n)) None None
    (Executor.KCommand (StepExecutor.CmdArgv [lit "echo"; lit n]))
    None None None None None None.

Definition sample_workflow : Executor.Workflow :=
  Executor.mkWorkflow [step_fail; step_echo "Middle"; step_echo "Handler"]
    None None (lit "/ws") (lit "/ws/.orchestrate/runs/r1/logs") false.

Definition sample_run_state : State.RunState :=
  State.mkRunState (VStr (lit "1.1.1")) (VStr (lit "r1")) (VStr (lit "wf.yaml"))
    (VStr (lit "sha256:00")) (VStr (lit "2024-01-01T00:00:00+00:00"))
    (VStr (lit "2024-01-01T00:00:00+00:00")) (VStr (lit "running"))
    (VStr (lit "/ws/.orchestrate/runs/r1")) (VDict []) (State.StepsDict []) [].

Definition sample_manager : State.StateManager :=
  State.mkStateManager (lit "/ws/.orchestrate/runs/r1") false 3 (Some sample_run_state).

Definition sample_state : list (str * value) :=
  match State.to_dict sample_run_state with
  | inr (VDict d) => d
  | _ => []
  end.

Definition empty_world : world := mkWorld ∅ [] [] [].

(** A process started with [TOKEN=hunter2] in its environment that prints
    the token. *)
Definition prints_token : platform :=
  sample_platform {[ lit "TOKEN" := lit "hunter2" ]}
    (fun _ => Completed 0 (blit "token=hunter2") []).

(** A workspace [/ws] that holds [a1], [b1] and the symlink [link.txt],
    which points to [/tmp/outside/secret.txt]. *)
Definition workspace_with_symlink : platform :=
  mkPlatform ∅ (fun _ _ => Completed 0 [] []) (fun _ => 7)
    (fun pattern =>
       if str_eqb pattern (lit "/ws/link.txt") then [lit "/ws/link.txt"]
       else if str_eqb pattern (lit "/ws/a*") then [lit "/ws/a1"]
       else if str_eqb pattern (lit "/ws/b*") then [lit "/ws/b1"]
       else if str_eqb pattern (lit "/ws/*") then
              [lit "/ws/a1"; lit "/ws/b1"; lit "/ws/link.txt"]
       else [])
    (fun path => if str_eqb path (lit "/ws/link.txt")
                 then lit "/tmp/outside/secret.txt" else path)
    (fun _ => inl (lit "Expecting value: line 1 column 1 (char 0)"))
    (fun _ => lit "{}") (fun _ => [blit "{"; blit "}"])
    (fun _ => inl (JSONDecodeError (lit "Expecting value")))
    (fun _ => lit "[]") encode_ascii
    (fun s => inr (split_on 32%N s)).

Definition quoted (s : string) : str := 34%N :: lit s ++ [34%N].

(** The JSON document that maps [items] to a list holding one object,
    which maps [token] to [hunter2]: as text and as parsed. *)
Definition nested_json_text : str :=
  lit "{" ++ quoted "items" ++ lit ": [{" ++ quoted "token" ++ lit ": "
  ++ quoted "hunter2" ++ lit "}]}".

Definition nested_json_value : value :=
  VDict [(lit "items", VList [VDict [(lit "token", VStr (lit "hunter2"))]])].

(** The same process printing that document; the parser knows it. *)
Definition prints_nested_json : platform :=
  mkPlatform {[ lit "TOKEN" := lit "hunter2" ]}
    (fun _ _ => Completed 0 (encode_ascii nested_json_text) []) (fun _ => 7)
    (fun _ => []) (fun path => path)
    (fun t => if str_eqb t nested_json_text then inr nested_json_value
              else inl (lit "Expecting value: line 1 column 1 (char 0)"))
    (fun _ => lit "{}") (fun _ => [blit "{"; blit "}"])
    (fun _ => inl (JSONDecodeError (lit "Expecting value")))
    (fun _ => lit "[]") encode_ascii
    (fun s => inr (split_on 32%N s)).

(** A world in which the state file of the sample run holds an earlier
    document. *)
Definition world_with_state : world :=
  mkWorld {[ State.state_file sample_manager := blit "{old}" ]} [] [] [].

(** The same run with backups enabled. *)
Definition backup_manager : State.StateManager :=
  State.new_manager (lit "/ws/.orchestrate/runs/r1") true false.

(** The document of the sample run as updated at time [t]. *)
Definition doc_at (t : string) : value :=
  match State.to_dict (State.set_updated_at sample_run_state (lit t)) with
  | inr doc => doc
  | inl _ => VNone
  end.

(** A JSON library that reads the file contents [v1] and [v2] as the
    documents of the run at times 1 and 2, and rejects anything else. *)
Definition reads_versions : platform :=
  mkPlatform ∅ (fun _ _ => Completed 0 [] []) (fun _ => 7)
    (fun _ => []) (fun path => path)
    (fun _ => inl (lit "Expecting value: line 1 column 1 (char 0)"))
    (fun _ => lit "{}") (fun _ => [blit "{"; blit "}"])
    (fun content =>
       if str_eqb (decode_ascii_replace content) (lit "v1") then inr (doc_at "1")
       else if str_eqb (decode_ascii_replace content) (lit "v2") then inr (doc_at "2")
       else inl (JSONDecodeError (lit "Expecting value")))
    (fun _ => lit "[]") encode_ascii
    (fun s => inr (split_on 32%N s)).

(** Backups taken before the steps [names], in this order. *)
Definition backups_before (names : list string) (w : world) : world :=
  foldl (fun w n => (State.backup_state backup_manager (lit n) w).2) w names.

Definition no_other_kinds (s : Executor.Step) (state : list (str * value))
    (m : State.StateManager) (w : world) := (state, m, w).

End Samples.

Module Pointers.
Import Py World.

(** The longest prefix of [t] without the character [c], and what
    follows it. *)
Fixpoint span_until (c : char) (t : str) : str * str :=
  match t with
  | [] => ([], [])
  | x :: t' =>
    if N.eqb x c then ([], t)
    else let '(p, r) := span_until c t' in (x :: p, r)
  end.

(** [POINTER_PATTERN.match(pointer)], the groups 1 and 2 of
    [^steps\.([^.]+)\.(.+)$]: the name runs up to the first dot, the field
    path up to the end of the line, and [$] accepts the end of the text or
    a last line feed. *)
Definition match_pointer (pointer : str) : option (str * str) :=
  if startswith (lit "steps.") pointer then
    match span_until Substitution.dot (drop (length (lit "steps.")) pointer) with
    | ((_ :: _) as step_name, _ :: fields) =>
      match span_until OutputCapture.lf fields with
      | ((_ :: _) as field_path, tail) =>
        if bool_decide (tail = [] \/ tail = [OutputCapture.lf])
        then Some (step_name, field_path) else None
      | _ => None
      end
    | _ => None
    end
  else None.

(** [type(v).__name__] *)
Definition type_name (v : value) : str :=
  match v with
  | VNone => lit "NoneType"
  | VBool _ => lit "bool"
  | VInt _ => lit "int"
  | VFloat _ => lit "float"
  | VStr _ => lit "str"
  | VList _ => lit "list"
  | VDict _ => lit "dict"
  end.

(** [key in container] for a text [key]: a key of a dict, an item of a
    list, a part of a text; another value is not iterable. *)
Definition py_in (key : str) (container : value) : result bool :=
  match container with
  | VDict d => inr (bool_decide (is_Some (dict_get key d)))
  | VList l => inr (existsb (Substitution.is_str key) l)
  | VStr s => inr (contains key s)
  | _ => inl TypeError
  end.

(** [container[key]] for a text [key]. *)
Definition py_getitem (key : str) (container : value) : result value :=
  match container with
  | VDict d =>
    match dict_get key d with
    | Some v => inr v
    | None => inl (KeyError key)
    end
  | _ => inl TypeError
  end.

(** The loop of [resolve] over the parts that follow [json]. *)
Fixpoint navigate (field_path : str) (result_ : value) (parts : list str)
    : result value :=
  match parts with
  | [] => inr result_
  | part :: rest =>
    match result_ with
    | VDict d =>
      match dict_get part d with
      | Some v => navigate field_path v rest
      | None =>
        inl (ValueError (lit "Path '" ++ field_path ++ lit "' not found - missing key '"
                         ++ part ++ lit "'") [])
      end
    | _ => inl (ValueError (lit "Cannot navigate path '" ++ field_path ++ lit "' - '"
                       ++ part ++ lit "' is not an object") [])
    end
  end.

(** [PointerResolver(state).resolve(pointer)] *)
Definition resolve (state : list (str * value)) (pointer : str) : result value :=
  match match_pointer pointer with
  | None => inl (ValueError (lit "Invalid pointer syntax: " ++ pointer) [])
  | Some (step_name, field_path) =>
    let steps := default (VDict []) (dict_get (lit "steps") state) in
    (present <- py_in step_name steps ;;
     if negb present then
       inl (ValueError (lit "Step '" ++ step_name ++ lit "' not found in state") [])
     else
       step_data <- py_getitem step_name steps ;;
       if contains (lit "[") step_name then
         inl (ValueError (lit "Loop iteration references not supported in items_from: "
                         ++ pointer) [])
       else
         match split_on Substitution.dot field_path with
         | [] => inl (ValueError (lit "Invalid field path in pointer: " ++ pointer) [])
         | first :: rest =>
           if str_eqb first (lit "lines") then
             match rest with
             | _ :: _ =>
               inl (ValueError (lit "'lines' cannot have nested paths: " ++ pointer) [])
             | [] =>
               has <- py_in (lit "lines") step_data ;;
               if negb has then
                 inl (ValueError (lit "Step '" ++ step_name
                                 ++ lit "' does not have 'lines' output") [])
               else py_getitem (lit "lines") step_data
             end
           else if str_eqb first (lit "json") then
             has <- py_in (lit "json") step_data ;;
             if negb has then
               inl (ValueError (lit "Step '" ++ step_name
                               ++ lit "' does not have 'json' output") [])
             else
               json <- py_getitem (lit "json") step_data ;;
               navigate field_path json rest
           else inl (ValueError (lit "Invalid output field '" ++ first
                                  ++ lit "' - must be 'lines' or 'json'") [])
         end)%py
  end.

(** [resolve_safe]: only a [ValueError] is turned into a result. *)
Definition resolve_safe (state : list (str * value)) (pointer : str)
    : result (bool * value * option str) :=
  match resolve state pointer with
  | inr v => inr (true, v, None)
  | inl (ValueError msg payload) =>
    inr (false, VNone, Some (Executor.exn_text (ValueError msg payload)))
  | inl e => inl e
  end.

End Pointers.

(* ================================================================= *)
(** ** providers/types.py, providers/registry.py *)
(* ================================================================= *)

Module Providers.
Import Py World.

Inductive InputMode := ARGV | STDIN.

Record ProviderTemplate := mkTemplate {
  name : str;
  command : list str;
  defaults : list (str * value);
  input_mode : InputMode
}.

Definition prompt_placeholder : str := lit "${PROMPT}".

(** [ProviderTemplate.validate]: the list of error messages. *)
Definition validate (p : ProviderTemplate) : list str :=
  (match command p with
   | [] => [lit "Provider '" ++ name p ++ lit "': command cannot be empty"]
   | _ :: _ => []
   end)
  ++ (match input_mode p with
      | STDIN =>
        map (fun _ => lit "Provider '" ++ name p
                      ++ lit "': ${PROMPT} not allowed in stdin mode")
            (filter (fun token => contains prompt_placeholder token = true) (command p))
      | ARGV => []
      end).

(** The registry: the templates of the workflow, which come before the
    built-in ones. *)
Record ProviderRegistry := mkRegistry {
  _providers : list (str * ProviderTemplate)
}.

Definition _builtin_providers : list (str * ProviderTemplate) :=
  [(lit "claude",
    mkTemplate (lit "claude")
      [lit "claude"; lit "-p"; lit "${PROMPT}"; lit "--model"; lit "${model}"]
      [(lit "model", VStr (lit "claude-sonnet-4-20250514"))] ARGV);
   (lit "gemini",
    mkTemplate (lit "gemini") [lit "gemini"; lit "-p"; lit "${PROMPT}"] [] ARGV);
   (lit "codex",
    mkTemplate (lit "codex")
      [lit "codex"; lit "exec"; lit "--model"; lit "${model}";
       lit "--dangerously-bypass-approvals-and-sandbox"]
      [(lit "model", VStr (lit "gpt-5"))] STDIN)].

Definition new_registry : ProviderRegistry := mkRegistry [].

(** [register] *)
Definition register (provider : ProviderTemplate) (r : ProviderRegistry)
    : result ProviderRegistry :=
  match validate provider with
  | [] => inr (mkRegistry (dict_set (name provider) provider (_providers r)))
  | errors => inl (ValueError (lit "Invalid provider template: ") [join (lit "; ") errors])
  end.

(** [get]: a template object is always true, so the built-in one is
    looked up only when the workflow has none of this name. *)
Definition get (r : ProviderRegistry) (name : str) : option ProviderTemplate :=
  match dict_get name (_providers r) with
  | Some p => Some p
  | None => dict_get name _builtin_providers
  end.

Definition exists_ (r : ProviderRegistry) (name : str) : bool :=
  bool_decide (is_Some (dict_get name (_providers r)))
  || bool_decide (is_Some (dict_get name _builtin_providers)).

(** [_deep_merge(base, overlay)] for an overlay that is the dict [o]: the
    entries of the overlay are stored one after the other, a dict over a
    dict being merged in turn. *)
Fixpoint merge_into (o : value) (base : list (str * value)) {struct o}
    : list (str * value) :=
  match o with
  | VDict overlay =>
    (fix go (overlay : list (str * value)) (result_ : list (str * value))
       : list (str * value) :=
       match overlay with
       | [] => result_
       | (key, v) :: rest =>
         go rest
            match dict_get key result_, v with
            | Some (VDict b), VDict _ => dict_set key (VDict (merge_into v b)) result_
            | _, _ => dict_set key v result_
            end
       end) overlay base
  | _ => base
  end.

Definition _deep_merge (base overlay : list (str * value)) : list (str * value) :=
  merge_into (VDict overlay) base.

(** [merge_params] *)
Definition merge_params (r : ProviderRegistry) (provider_name : str)
    (step_params : option (list (str * value))) : list (str * value) :=
  match get r provider_name with
  | None => default [] step_params
  | Some provider =>
    match step_params with
    | Some ((_ :: _) as params) => _deep_merge (defaults provider) params
    | _ => defaults provider
    end
  end.

(** *** providers/executor.py *)

Record ProviderParams := mkParams {
  pp_params : option (list (str * value));
  input_file : option str;
  pp_output_file : option str
}.

Record ProviderInvocation := mkInvocation {
  inv_command : list str;
  inv_input_mode : InputMode;
  prompt : option str;
  inv_output_file : option str;
  inv_env : gmap str str;
  inv_timeout_sec : option Z
}.

Record ProviderExecutionResult := mkProviderResult {
  exit_code : Z;
  stdout : bytes;
  stderr : bytes;
  duration_ms : Z;
  error : option OutputCapture.error_info;
  missing_placeholders : option (list str);
  invalid_prompt_placeholder : bool
}.

(** [var_pattern.finditer(t)], group 1 of each match of [\$\{([^}]+)\}],
    from left to right; [fuel] bounds the scanned positions, [length t] is
    enough. *)
Fixpoint find_placeholders (fuel : nat) (t : str) : list str :=
  match fuel with
  | O => []
  | S f =>
    match t with
    | [] => []
    | _ :: t' =>
      match Substitution.match_token t with
      | Some (var, rest) => var :: find_placeholders f rest
      | None => find_placeholders f t'
      end
    end
  end.

Definition placeholder (var : str) : str := lit "${" ++ var ++ lit "}".

(** [processed.replace(old, new)] where [new] is whatever the mapping
    holds: a value that is not a text makes [replace] raise. *)
Definition replace_with (old : str) (new : value) (processed : str) : result str :=
  match new with
  | VStr s => inr (replace old s processed)
  | _ => inl TypeError
  end.

(** The loop of [_build_command] over the placeholders of one token. *)
Fixpoint substitute_placeholders (params context : list (str * value))
    (vars : list str) (processed : str) (missing : list str)
    : result (str * list str) :=
  match vars with
  | [] => inr (processed, missing)
  | var :: rest =>
    if str_eqb var (lit "PROMPT") then
      substitute_placeholders params context rest processed missing
    else
      match dict_get var params, dict_get var context with
      | Some v, _ | None, Some v =>
        match replace_with (placeholder var) v processed with
        | inl e => inl e
        | inr processed' =>
          substitute_placeholders params context rest processed' missing
        end
      | None, None =>
        substitute_placeholders params context rest processed (set_add var missing)
      end
  end.

Definition marker0 : char := 0%N.
Definition marker1 : char := 1%N.

(** The body of the loop of [_build_command] for one token: the token of
    the command, the placeholders missing so far, whether [${PROMPT}] was
    found in stdin mode. *)
Definition build_token (provider : ProviderTemplate)
    (params context : list (str * value)) (prompt : option str) (token : str)
    (missing : list str) (invalid_prompt : bool) : result (str * list str * bool) :=
  let processed := replace (lit "$$") [marker0] token in
  let processed := replace (lit "$${") (marker1 :: lit "{") processed in
  let has_prompt := contains prompt_placeholder processed in
  let invalid_prompt :=
    match has_prompt, input_mode provider with
    | true, STDIN => true
    | _, _ => invalid_prompt
    end in
  match substitute_placeholders params context
          (find_placeholders (length processed) processed) processed missing with
  | inl e => inl e
  | inr (processed, missing) =>
    let processed :=
      match has_prompt, input_mode provider, prompt with
      | true, ARGV, Some ((_ :: _) as p) => replace prompt_placeholder p processed
      | _, _, _ => processed
      end in
    let processed := replace [marker0] (lit "$") processed in
    let processed := replace (marker1 :: lit "{") (lit "${") processed in
    inr (processed, missing, invalid_prompt)
  end.

Fixpoint build_tokens (provider : ProviderTemplate)
    (params context : list (str * value)) (prompt : option str) (tokens : list str)
    (command : list str) (missing : list str) (invalid_prompt : bool)
    : result (list str * list str * bool) :=
  match tokens with
  | [] => inr (command, missing, invalid_prompt)
  | token :: rest =>
    match build_token provider params context prompt token missing invalid_prompt with
    | inl e => inl e
    | inr (processed, missing', invalid') =>
      build_tokens provider params context prompt rest (command ++ [processed])
                   missing' invalid'
    end
  end.

Definition _build_command (provider : ProviderTemplate)
    (params context : list (str * value)) (prompt : option str)
    : result (list str * list str * bool) :=
  build_tokens provider params context prompt (command provider) [] [] false.

(** [_substitute_params]: the parameters and the error messages. *)
Definition _substitute_params (pf : platform) (params context : list (str * value))
    : result (list (str * value) * list str) :=
  match Substitution.substitute pf context (VDict params) true with
  | (inl (ValueError msg payload), _) =>
    inr (params, [msg ++ str_of_container pf (VList (map VStr payload))])
  | (inl e, _) => inl e
  | (inr (VDict substituted), undefined_vars) =>
    inr (substituted,
         map (fun var => lit "Undefined variable in provider_params: " ++ placeholder var)
             undefined_vars)
  | (inr other, _) =>
    inr (params, [lit "Parameter substitution returned unexpected type: <class '"
                  ++ Pointers.type_name other ++ lit "'>"])
  end.

Definition invocation_error (type message : str) (context : list (str * value))
    : OutputCapture.error_info :=
  OutputCapture.mkError type message context.

(** [prepare_invocation]: the invocation, or the error mapping. *)
Definition prepare_invocation (pf : platform) (r : ProviderRegistry)
    (provider_name : str) (pparams : ProviderParams) (context : list (str * value))
    (prompt_content : option str) (env : option (list (str * str)))
    (secrets : option (list str)) (timeout_sec : option Z) (w : world)
    : result (OutputCapture.error_info + ProviderInvocation) * world :=
  match get r provider_name with
  | None =>
    (inr (inl (invocation_error (lit "provider_not_found")
                 (lit "Provider '" ++ provider_name ++ lit "' not found")
                 [(lit "provider", VStr provider_name)])), w)
  | Some provider =>
    let merged_params := merge_params r provider_name (Some (default [] (pp_params pparams))) in
    match _substitute_params pf merged_params context with
    | inl e => (inl e, w)
    | inr (_, (_ :: _) as param_errors) =>
      (inr (inl (invocation_error (lit "substitution_error")
                   (lit "Failed to substitute provider parameters")
                   [(lit "errors", VList (map VStr param_errors))])), w)
    | inr (substituted_params, []) =>
      match _build_command provider substituted_params context prompt_content with
      | inl e => (inl e, w)
      | inr (command, missing_placeholders, invalid_prompt) =>
        if invalid_prompt then
          (inr (inl (invocation_error (lit "validation_error")
                       (lit "Invalid ${PROMPT} placeholder in stdin mode")
                       [(lit "invalid_prompt_placeholder", VBool true)])), w)
        else
          match missing_placeholders with
          | _ :: _ =>
            (inr (inl (invocation_error (lit "validation_error")
                         (lit "Missing placeholders: "
                          ++ join (lit ", ") missing_placeholders)
                         [(lit "missing_placeholders",
                           VList (map VStr missing_placeholders))])), w)
          | [] =>
            let '(secrets_context, w1) := Secrets.resolve_secrets pf secrets env w in
            match Secrets.missing_secrets secrets_context with
            | _ :: _ =>
              (inr (inl (invocation_error (lit "missing_secrets")
                           (lit "Missing required secrets: "
                            ++ join (lit ", ") (Secrets.missing_secrets secrets_context))
                           [(lit "missing_secrets",
                             VList (map VStr (Secrets.missing_secrets secrets_context)))])),
               w1)
            | [] =>
              (inr (inr (mkInvocation command (input_mode provider)
                           (match input_mode provider with
                            | STDIN => prompt_content
                            | ARGV => None
                            end)
                           (pp_output_file pparams)
                           (Secrets.child_env secrets_context) timeout_sec)), w1)
            end
          end
      end
    end
  end.

(** What a provider run reads from its surroundings besides [platform]:
    the behaviour of the n-th spawned subprocess given what it reads from
    its standard input. *)
Record surroundings := mkSurroundings {
  base : platform;
  run_with_input : nat -> spawn_event -> option bytes -> proc_outcome
}.

(** [ProviderExecutor.execute] *)
Definition execute (sr : surroundings) (invocation : ProviderInvocation) (w : world)
    : ProviderExecutionResult * world :=
  let pf := base sr in
  let process_env := inv_env invocation ∪ environ pf in
  let stdin_input :=
    match inv_input_mode invocation, prompt invocation with
    | STDIN, Some ((_ :: _) as p) => Some (encode_utf8 pf p)
    | _, _ => None
    end in
  let call := mkSpawn (inv_command invocation) process_env in
  let n := length (spawned w) in
  let w' := record_spawn call w in
  match run_with_input sr n call stdin_input with
  | Completed rc out err =>
    (mkProviderResult rc out err (elapsed_ms pf n) None None false, w')
  | TimeoutExpired out err =>
    (mkProviderResult 124 (default [] out) (default [] err) (elapsed_ms pf n)
       (Some (OutputCapture.mkError (lit "timeout")
                (lit "Provider timed out after "
                 ++ StepExecutor.timeout_text (inv_timeout_sec invocation)
                 ++ lit " seconds")
                [(lit "timeout_sec",
                  StepExecutor.timeout_value (inv_timeout_sec invocation))]))
       None false, w')
  | SpawnError msg =>
    (mkProviderResult 1 [] (encode_utf8 pf msg) (elapsed_ms pf n)
       (Some (OutputCapture.mkError (lit "execution_error") msg []))
       None false, w')
  end.

End Providers.

(* ================================================================= *)
(** ** fsq/wait.py *)
(* ================================================================= *)

Module WaitFor.
Import Py World.

Record WaitForConfig := mkConfig {
  glob_pattern : str;
  timeout_sec : Z;
  poll_ms : Z;
  min_count : Z;
  workspace : str
}.

Record WaitForResult := mkResult {
  files : list str;
  wait_duration_ms : Z;
  poll_count : Z;
  timed_out : bool;
  exit_code : Z;
  error : option OutputCapture.error_info
}.

(** What a wait reads from its surroundings besides [platform]: the
    successive readings of the clock, in microseconds, and the directory
    scan at each poll (other processes create files while the step
    waits). *)
Record surroundings := mkSurroundings {
  base : platform;
  clock : nat -> Z;
  glob_at : nat -> str -> list str
}.

(** [_validate_path_safety]: the error message, if any.  A pattern that
    still holds a variable is let through. *)
Definition _validate_path_safety (glob_pattern : str) : option str :=
  if contains (lit "${") glob_pattern then None
  else if is_absolute glob_pattern then
    Some (lit "Absolute paths not allowed in wait_for.glob: " ++ glob_pattern)
  else if bool_decide (lit ".." ∈ path_parts glob_pattern) then
    Some (lit "Parent directory traversal ('..') not allowed in wait_for.glob: "
          ++ glob_pattern)
  else None.

(** The loop of [_find_matching_files]: a match is kept, as a path
    relative to the workspace, when its real path and the path itself are
    below the workspace. *)
Fixpoint relative_matches (pf : platform) (workspace : str) (matches : list str)
    (w : world) : list str * world :=
  match matches with
  | [] => ([], w)
  | m :: rest =>
    let w' := record_probe m w in
    let '(out, w'') := relative_matches pf workspace rest w' in
    match relative_to (realpath pf m) workspace, relative_to m workspace with
    | Some _, Some original_relative => (original_relative :: out, w'')
    | _, _ => (out, w'')
    end
  end.

Definition _find_matching_files (sr : surroundings) (workspace : str) (poll : nat)
    (pattern : str) (w : world) : list str * world :=
  let '(found, w') :=
    relative_matches (base sr) workspace (glob_at sr poll pattern)
                     (record_probe pattern w) in
  (sorted found, w').

(** [int((t - start_time) * 1000)] on readings in microseconds. *)
Definition elapsed_ms (start_time t : Z) : Z := Z.quot (t - start_time) 1000.

(** The [while] loop of [execute].  [reading] counts the readings of the
    clock made so far, [poll_count] the polls, [matched_files] is the
    result of the last poll; [fuel] bounds the number of rounds ([None]:
    the bound was too small). *)
Fixpoint poll_loop (sr : surroundings) (config : WaitForConfig) (fuel : nat)
    (start_time : Z) (reading : nat) (poll_count : nat) (matched_files : list str)
    (w : world) : option (WaitForResult * world) :=
  match fuel with
  | O => None
  | S f =>
    let timeout_deadline := start_time + timeout_sec config * 1000000 in
    if clock sr reading <? timeout_deadline then
      let poll_count := S poll_count in
      let pattern_path := path_join (workspace config) (glob_pattern config) in
      let '(matched_files, w') :=
        _find_matching_files sr (workspace config) (pred poll_count) pattern_path w in
      if min_count config <=? Z.of_nat (length matched_files) then
        let elapsed := elapsed_ms start_time (clock sr (S reading)) in
        let elapsed := if (elapsed =? 0) && (0 <? Z.of_nat (length matched_files))
                       then 1 else elapsed in
        Some (mkResult matched_files elapsed (Z.of_nat poll_count) false 0 None, w')
      else
        (* the reading made to decide whether to sleep *)
        poll_loop sr config f start_time (S (S reading)) poll_count matched_files w'
    else
      Some (mkResult matched_files (elapsed_ms start_time (clock sr (S reading)))
              (Z.of_nat poll_count) true 124 None, w)
  end.

(** [WaitFor(config).execute()] *)
Definition execute (sr : surroundings) (config : WaitForConfig) (fuel : nat)
    (w : world) : option (WaitForResult * world) :=
  match _validate_path_safety (glob_pattern config) with
  | Some path_error =>
    Some (mkResult [] 0 0 false 2
            (Some (OutputCapture.mkError (lit "path_safety_error") path_error
                     [(lit "glob_pattern", VStr (glob_pattern config))])), w)
  | None => poll_loop sr config fuel (clock sr 0) 1 0 [] w
  end.

(** The files of a wait: sorted relative paths of matches found at some
    poll whose real path is in the workspace. *)
Definition found_by_a_poll (sr : surroundings) (config : WaitForConfig)
    (l : list str) : Prop :=
  Sorted Resolver.not_after l
  /\ forall f, f ∈ l ->
       exists poll m,
         m ∈ glob_at sr poll (path_join (workspace config) (glob_pattern config))
         /\ relative_to m (workspace config) = Some f
         /\ is_Some (relative_to (realpath (base sr) m) (workspace config)).

End WaitFor.

(* ================================================================= *)
(** ** workflow/executor.py: loops, waits and the step loop *)
(* ================================================================= *)

Module Loops.
Import Py World.

(** A step nested in a loop: what [Executor.Step] holds, and whether the
    step has a [provider]. *)
Record LoopStep := mkLoopStep {
  inner : Executor.Step;
  has_provider : bool
}.

(** The [for_each] mapping of a step. *)
Record ForEachConfig := mkForEach {
  items_from : option str;
  items : option (list value);
  as_ : option str;
  loop_steps : list LoopStep
}.

Definition _record_step_error (state : list (str * value)) (step_name : str)
    (exit_code : Z) (error : value) : result (list (str * value)) :=
  Executor.set_step_entry state step_name
    (VDict [(lit "exit_code", VInt exit_code); (lit "error", error);
            (lit "failed", VBool true)]).

(** The items of the loop: [inl] carries the state returned at once when
    the pointer does not give a list. *)
Definition resolve_items (cfg : ForEachConfig) (state : list (str * value))
    (step_name : str) : result (list (str * value) + list value) :=
  match items_from cfg with
  | Some pointer =>
    match Pointers.resolve state pointer with
    | inl (ValueError msg payload) =>
      let e := Executor.exn_text (ValueError msg payload) in
      (state' <- _record_step_error state step_name 2
         (VDict [(lit "message", VStr (lit "Failed to resolve items_from pointer: " ++ e));
                 (lit "context", VDict [(lit "pointer", VStr pointer);
                                        (lit "error", VStr e)])]) ;;
       inr (inl state'))%py
    | inl e => inl e
    | inr (VList l) => inr (inr l)
    | inr v =>
      (state' <- _record_step_error state step_name 2
         (VDict [(lit "message",
                  VStr (lit "items_from must resolve to an array, got " ++ Pointers.type_name v));
                 (lit "context", VDict [(lit "pointer", VStr pointer);
                                        (lit "resolved_type", VStr (Pointers.type_name v))])]) ;;
       inr (inl state'))%py
    end
  | None => inr (inr (default [] (items cfg)))
  end.

(** [f"{step_name}[{i}].{nested_name}"] *)
Definition iteration_key (step_name : str) (i : nat) (nested_name : str) : str :=
  step_name ++ lit "[" ++ str_of_int (Z.of_nat i) ++ lit "]." ++ nested_name.

(** The test made on resume for the iteration [i]: every nested step has
    a terminal result under its indexed key. *)
Fixpoint all_steps_complete (steps : list (str * value)) (step_name : str) (i : nat)
    (loop_steps : list LoopStep) : result bool :=
  match loop_steps with
  | [] => inr true
  | nested_step :: rest =>
    let nested_name :=
      default (lit "step_" ++ str_of_int (Z.of_nat i)) (Executor.name (inner nested_step)) in
    match dict_get (iteration_key step_name i nested_name) steps with
    | None => inr false
    | Some (VDict entry) =>
      if Executor.terminal_status (Executor.get_or "status" VNone entry)
      then all_steps_complete steps step_name i rest
      else inr false
    | Some _ => inl AttributeError
    end
  end.

(** The scan of the results of an earlier run: the results kept and the
    index at which the loop starts again. *)
Fixpoint scan_existing (steps : list (str * value)) (step_name : str)
    (loop_steps : list LoopStep) (existing : list value) (i : nat)
    (loop_results : list value) (start_index : nat) : result (list value * nat) :=
  match existing with
  | [] => inr (loop_results, start_index)
  | iteration_result :: rest =>
    match iteration_result with
    | VDict _ =>
      match all_steps_complete steps step_name i loop_steps with
      | inl e => inl e
      | inr true =>
        scan_existing steps step_name loop_steps rest (S i)
                      (loop_results ++ [iteration_result]) (S i)
      | inr false => inr (loop_results, i)
      end
    | _ => scan_existing steps step_name loop_steps rest (S i) loop_results start_index
    end
  end.

Definition resume_point (resume : bool) (state : list (str * value))
    (step_name : str) (loop_steps : list LoopStep) : result (list value * nat) :=
  if resume then
    let steps := default VNone (dict_get (lit "steps") state) in
    (present <- Pointers.py_in step_name steps ;;
     if present then
       existing_results <- Pointers.py_getitem step_name steps ;;
       match existing_results, steps with
       | VList existing, VDict sd => scan_existing sd step_name loop_steps existing 0 [] 0
       | _, _ => inr ([], 0%nat)
       end
     else inr ([], 0%nat))%py
  else inr ([], 0%nat).

(** [loop_context] of an iteration. *)
Definition loop_context (item_var : str) (item : value) (index total : nat)
    : list (str * value) :=
  dict_set (lit "loop")
    (VDict [(lit "index", VInt (Z.of_nat index)); (lit "total", VInt (Z.of_nat total))])
    (dict_set item_var item [(lit "item", item)]).

(** [_create_loop_context]: the state is read back from disk for the run
    metadata; the results of the current iteration are the only [steps]. *)
Definition _create_loop_context (pf : platform) (variables : value)
    (loop_context : list (str * value)) (iteration_state : list (str * value))
    (m : State.StateManager) (w : world)
    : result (list (str * value) * State.StateManager) :=
  match State.load pf m w with
  | inl e => inl e
  | inr (m', run_state) =>
    inr (Executor.dict_update
           [(lit "run", VDict [(lit "id", State.run_id run_state);
                               (lit "root", State.run_root run_state);
                               (lit "timestamp_utc", State.rs_started_at run_state)]);
            (lit "context", variables);
            (lit "steps", VDict iteration_state)]
           loop_context, m')
  end.

Section ForEach.

(** The surroundings, the workflow with its top-level [variables], and the
    execution of a provider step in a context, which this part leaves
    open. *)
Variables (pf : platform) (wf : Executor.Workflow) (wf_variables : value).
Variable run_provider :
  Executor.Step -> list (str * value) -> list (str * value) -> world ->
  result (list (str * value)) * world.

(** The nested steps of one iteration, in order. *)
Fixpoint run_nested (step_name : str) (item : value) (index : nat)
    (loop_context : list (str * value)) (state : list (str * value))
    (loop_steps : list LoopStep) (iteration_state : list (str * value))
    (m : State.StateManager) (w : world)
    : option (result (list (str * value) * State.StateManager) * world) :=
  match loop_steps with
  | [] => Some (inr (iteration_state, m), w)
  | nested_step :: rest =>
    let step := inner nested_step in
    let nested_name :=
      default (lit "nested_" ++ str_of_int (Z.of_nat index)) (Executor.name step) in
    let continue_with result_ m' w' :=
      run_nested step_name item index loop_context state rest
                 (dict_set nested_name (VDict result_) iteration_state) m' w' in
    let '(gate, w1) :=
      match Executor.when step with
      | None => (inr true, w)
      | Some cond =>
        Conditions.evaluate pf (Executor.workspace wf) (Some cond)
          (Executor.build_variables state
             (default (VDict []) (Executor.wf_context wf))
             (Executor.get_or "loop" (VDict []) loop_context) item) w
      end in
    match gate with
    | inl e =>
      continue_with
        [(lit "status", VStr (lit "failed")); (lit "exit_code", VInt 2);
         (lit "error",
          VDict [(lit "message",
                  VStr (lit "Condition evaluation failed: " ++ Executor.exn_text e));
                 (lit "context",
                  VDict [(lit "condition", default VNone (Executor.when step))])])]
        m w1
    | inr false =>
      continue_with
        [(lit "status", VStr (lit "skipped")); (lit "exit_code", VInt 0);
         (lit "skipped", VBool true)] m w1
    | inr true =>
      match _create_loop_context pf wf_variables loop_context iteration_state m w1 with
      | inl e => Some (inl e, w1)
      | inr (nested_context, m1) =>
        match (if Executor.debug wf
               then State.backup_state m1 (iteration_key step_name index nested_name) w1
               else (inr tt, w1)) with
        | (inl e, w2) => Some (inl e, w2)
        | (inr _, w2) =>
          match Executor.kind step with
          | Executor.KCommand cmd =>
            match Executor._execute_command_with_context pf wf step cmd
                    nested_context state w2 with
            | None => None
            | Some (inl e, w3) => Some (inl e, w3)
            | Some (inr (result_, _), w3) => continue_with result_ m1 w3
            end
          | Executor.KOther =>
            if has_provider nested_step then
              match run_provider step nested_context state w2 with
              | (inl e, w3) => Some (inl e, w3)
              | (inr result_, w3) => continue_with result_ m1 w3
              end
            else
              continue_with [(lit "exit_code", VInt 0); (lit "skipped", VBool true)] m1 w2
          end
        end
      end
    end
  end.

(** The iterations from [index] on, over the items that are left. *)
Fixpoint run_iterations (step_name : str) (item_var : str) (total : nat)
    (state : list (str * value)) (loop_steps : list LoopStep)
    (remaining : list value) (index : nat) (loop_results : list value)
    (m : State.StateManager) (w : world)
    : option (result (list value * State.StateManager) * world) :=
  match remaining with
  | [] => Some (inr (loop_results, m), w)
  | item :: rest =>
    match run_nested step_name item index (loop_context item_var item index total)
                     state loop_steps [] m w with
    | None => None
    | Some (inl e, w') => Some (inl e, w')
    | Some (inr (iteration_state, m'), w') =>
      run_iterations step_name item_var total state loop_steps rest (S index)
                     (loop_results ++ [VDict iteration_state]) m' w'
    end
  end.

(** The [StepResult] persisted for a result of a nested step. *)
Definition loop_step_result (r : list (str * value)) : State.StepResult :=
  let exit_code := Executor.get_or "exit_code" (VInt 0) r in
  State.mkStepResult
    (VStr (if Executor.equals_zero exit_code then lit "completed" else lit "failed"))
    exit_code VNone VNone VNone (Executor.get_or "output" VNone r)
    (Executor.get_or "truncated" (VBool false) r) (Executor.get_or "lines" VNone r)
    (Executor.get_or "json" VNone r) VNone (Executor.get_or "error" VNone r) VNone
    (VBool false) VNone VNone VNone VNone.

(** The flattened copy of the results and its persisting: the entries of
    the iteration [i], one after the other.  [now] gives the time read at
    the k-th write of the state store. *)
Fixpoint flatten_iteration (now : nat -> str) (step_name : str) (i : nat)
    (entries : list (str * value)) (state : list (str * value)) (writes : nat)
    (m : State.StateManager) (w : world)
    : result (list (str * value) * nat * State.StateManager) * world :=
  match entries with
  | [] => (inr (state, writes, m), w)
  | (nested_name, result_) :: rest =>
    match Executor.set_step_entry state (iteration_key step_name i nested_name) result_ with
    | inl e => (inl e, w)
    | inr state' =>
      match result_ with
      | VDict r =>
        match State.update_loop_step pf (now writes) step_name (Z.of_nat i) nested_name
                (loop_step_result r) m w with
        | (inl e, w') => (inl e, w')
        | (inr m', w') => flatten_iteration now step_name i rest state' (S writes) m' w'
        end
      | _ => (inl AttributeError, w)
      end
    end
  end.

Fixpoint flatten_results (now : nat -> str) (step_name : str) (i : nat)
    (loop_results : list value) (state : list (str * value)) (writes : nat)
    (m : State.StateManager) (w : world)
    : result (list (str * value) * State.StateManager) * world :=
  match loop_results with
  | [] => (inr (state, m), w)
  | iteration :: rest =>
    match iteration with
    | VDict entries =>
      match flatten_iteration now step_name i entries state writes m w with
      | (inl e, w') => (inl e, w')
      | (inr (state', writes', m'), w') =>
        flatten_results now step_name (S i) rest state' writes' m' w'
      end
    | _ => (inl AttributeError, w)
    end
  end.

(** [_execute_for_each]; [current_step] is the index of the step in the
    workflow. *)
Definition _execute_for_each (now : nat -> str) (current_step : nat)
    (step_name : option str) (cfg : ForEachConfig) (resume : bool)
    (state : list (str * value)) (m : State.StateManager) (w : world)
    : option (result (list (str * value) * State.StateManager) * world) :=
  let step_name :=
    default (lit "step_" ++ str_of_int (Z.of_nat current_step)) step_name in
  match resolve_items cfg state step_name with
  | inl e => Some (inl e, w)
  | inr (inl state') => Some (inr (state', m), w)
  | inr (inr items) =>
    let item_var := default (lit "item") (as_ cfg) in
    let state1 := match dict_get (lit "steps") state with
                  | None => dict_set (lit "steps") (VDict []) state
                  | Some _ => state
                  end in
    match resume_point resume state1 step_name (loop_steps cfg) with
    | inl e => Some (inl e, w)
    | inr (kept, start_index) =>
      match run_iterations step_name item_var (length items) state1 (loop_steps cfg)
              (drop start_index items) start_index kept m w with
      | None => None
      | Some (inl e, w') => Some (inl e, w')
      | Some (inr (loop_results, m'), w') =>
        match Executor.set_step_entry state1 step_name (VList loop_results) with
        | inl e => Some (inl e, w')
        | inr state2 => Some (flatten_results now step_name 0 loop_results state2 0 m' w')
        end
      end
    end
  end.

End ForEach.

(** The [wait_for] mapping of a step. *)
Record WaitConfig := mkWait {
  wc_glob : option str;
  wc_timeout_sec : option Z;
  wc_poll_ms : option Z;
  wc_min_count : option Z
}.

(** [StepExecutor.execute_wait_for]: the result object and the mapping
    that its [to_state_dict] returns. *)
Definition execute_wait_for (sr : WaitFor.surroundings) (workspace : str)
    (fuel : nat) (step_name : str) (wait_config : WaitConfig) (w : world)
    : option (StepExecutor.ExecutionResult * list (str * value) * world) :=
  let glob_pattern := default [] (wc_glob wait_config) in
  let timeout_sec := default 300 (wc_timeout_sec wait_config) in
  let poll_ms := default 500 (wc_poll_ms wait_config) in
  let min_count := default 1 (wc_min_count wait_config) in
  let config := WaitFor.mkConfig glob_pattern timeout_sec poll_ms min_count workspace in
  match WaitFor.execute sr config fuel w with
  | None => None
  | Some (wait_result, w') =>
    let capture_result :=
      OutputCapture.mkCaptureResult OutputCapture.LINES None
        (Some (WaitFor.files wait_result)) None false
        (WaitFor.exit_code wait_result) None None in
    let error :=
      match WaitFor.error wait_result with
      | Some e => Some e
      | None =>
        if WaitFor.timed_out wait_result then
          Some (OutputCapture.mkError (lit "timeout")
                  (lit "Wait timed out after " ++ str_of_int timeout_sec ++ lit " seconds")
                  [(lit "timeout_sec", VInt timeout_sec);
                   (lit "files_found", VInt (Z.of_nat (length (WaitFor.files wait_result))));
                   (lit "min_count_required", VInt min_count)])
        else None
      end in
    Some (StepExecutor.mkExecutionResult step_name (WaitFor.exit_code wait_result)
            capture_result (WaitFor.wait_duration_ms wait_result) error,
          [(lit "exit_code", VInt (WaitFor.exit_code wait_result));
           (lit "files", VList (map VStr (WaitFor.files wait_result)));
           (lit "wait_duration_ms", VInt (WaitFor.wait_duration_ms wait_result));
           (lit "poll_count", VInt (WaitFor.poll_count wait_result));
           (lit "timed_out", VBool (WaitFor.timed_out wait_result))]
          ++ match error with
             | Some e => [(lit "error", Executor.error_to_value e)]
             | None => []
             end,
          w')
  end.

(** [state['steps'][step_name] = v] when nothing creates [steps]. *)
Definition store_step (state : list (str * value)) (step_name : str) (v : value)
    : result (list (str * value)) :=
  match dict_get (lit "steps") state with
  | None => inl (KeyError (lit "steps"))
  | Some (VDict sd) =>
    inr (dict_set (lit "steps") (VDict (dict_set step_name v sd)) state)
  | Some _ => inl TypeError
  end.

(** [_execute_wait_for] *)
Definition _execute_wait_for (sr : WaitFor.surroundings) (wf : Executor.Workflow)
    (fuel : nat) (now : str) (step_name : option str) (wait_config : option WaitConfig)
    (state : list (str * value)) (m : State.StateManager) (w : world)
    : option (result (list (str * value) * State.StateManager) * world) :=
  match step_name with
  | None => Some (inl (KeyError (lit "name")), w)
  | Some step_name =>
    match execute_wait_for sr (Executor.workspace wf) fuel step_name
            (default (mkWait None None None None) wait_config) w with
    | None => None
    | Some (result_, wait_state, w1) =>
      let step_result :=
        dict_set (lit "status")
          (VStr (if Z.eqb (StepExecutor.exit_code result_) 0
                 then lit "completed" else lit "failed")) wait_state in
      match store_step state step_name (VDict step_result) with
      | inl e => Some (inl e, w1)
      | inr state' =>
        let state_result :=
          State.mkStepResult
            (VStr (if Z.eqb (StepExecutor.exit_code result_) 0
                   then lit "completed" else lit "failed"))
            (Executor.get_or "exit_code" (VInt 0) step_result) VNone VNone
            (Executor.get_or "wait_duration_ms" (VInt 0) step_result) VNone
            (VBool false) VNone VNone VNone
            (if truthy (Executor.get_or "error" VNone step_result)
             then Executor.get_or "error" VNone step_result else VNone)
            VNone (VBool false)
            (Executor.get_or "files" (VList []) step_result)
            (Executor.get_or "wait_duration_ms" (VInt 0) step_result)
            (Executor.get_or "poll_count" (VInt 0) step_result)
            (Executor.get_or "timed_out" (VBool false) step_result) in
        match State.update_step (WaitFor.base sr) now step_name state_result m w1 with
        | (inl e, w2) => Some (inl e, w2)
        | (inr m', w2) => Some (inr (state', m'), w2)
        end
      end
    end
  end.

(** How the step loop of [execute] ends: the steps ran out or a handler
    went to [_end], or strict flow stopped the run. *)
Inductive loop_end := Finished | Stopped.

(** The [while] loop of [execute].  [now] gives the time read by the state
    store in each round, [fuel] bounds the number of rounds ([None]: the
    bound was too small). *)
Fixpoint step_loop (pf : platform) (wf : Executor.Workflow)
    (run_other : Executor.Step -> list (str * value) -> State.StateManager -> world ->
                 list (str * value) * State.StateManager * world)
    (now : nat -> str) (resume : bool) (on_error : str) (fuel : nat) (round : nat)
    (step_index : nat) (state : list (str * value)) (m : State.StateManager)
    (w : world)
    : option (result (loop_end * list (str * value) * State.StateManager) * world) :=
  match fuel with
  | O => None
  | S f =>
    match Executor.wf_steps wf !! step_index with
    | None => Some (inr (Finished, state, m), w)
    | Some step =>
      match Executor.run_step pf wf run_other (now round) resume on_error
              step_index step state m w with
      | None => None
      | Some (inl e, w') => Some (inl e, w')
      | Some (inr (next_step, state', m'), w') =>
        match next_step with
        | Executor.FlowEnd => Some (inr (Finished, state', m'), w')
        | Executor.FlowStop => Some (inr (Stopped, state', m'), w')
        | Executor.FlowJump i =>
          step_loop pf wf run_other now resume on_error f (S round) i state' m' w'
        | Executor.FlowNext =>
          step_loop pf wf run_other now resume on_error f (S round) (S step_index)
                    state' m' w'
        end
      end
    end
  end.

(** [execute]: the state is loaded, the steps run, and unless strict flow
    stopped the run its status becomes [completed] and the state is read
    back. *)
Definition execute (pf : platform) (wf : Executor.Workflow)
    (run_other : Executor.Step -> list (str * value) -> State.StateManager -> world ->
                 list (str * value) * State.StateManager * world)
    (now : nat -> str) (now_end : str) (resume : bool) (on_error : str) (fuel : nat)
    (m : State.StateManager) (w : world)
    : option (result (list (str * value)) * world) :=
  match State.load pf m w with
  | inl e => Some (inl e, w)
  | inr (m0, run_state) =>
    match State.to_dict run_state with
    | inl e => Some (inl e, w)
    | inr (VDict state) =>
      match step_loop pf wf run_other now resume on_error fuel 0 0 state m0 w with
      | None => None
      | Some (inl e, w') => Some (inl e, w')
      | Some (inr (Stopped, state', _), w') => Some (inr state', w')
      | Some (inr (Finished, _, m'), w') =>
        match State.update_status pf now_end (lit "completed") m' w' with
        | (inl e, w'') => Some (inl e, w'')
        | (inr m'', w'') =>
          match State.load pf m'' w'' with
          | inl e => Some (inl e, w'')
          | inr (_, final) =>
            match State.to_dict final with
            | inr (VDict d) => Some (inr d, w'')
            | inr _ => Some (inl TypeError, w'')
            | inl e => Some (inl e, w'')
            end
          end
        end
      end
    | inr _ => Some (inl TypeError, w)
    end
  end.

End Loops.

(* ================================================================= *)
(** ** deps/injector.py *)
(* ================================================================= *)

Module Injector.
Import Py World.

Definition MAX_INJECTION_SIZE : Z := 256 * 1024.

Record InjectionResult := mkInjection {
  modified_prompt : str;
  was_truncated : bool;
  truncation_details : option (list (str * value))
}.

(** [_get_default_instruction]; [mode] is whatever the configuration
    holds. *)
Definition _get_default_instruction (mode : value) (is_required : bool) : str :=
  let dep_type := if is_required then lit "required" else lit "optional" in
  if Substitution.is_str (lit "list") mode then
    lit "The following " ++ dep_type ++ lit " files are available:"
  else if Substitution.is_str (lit "content") mode then
    lit "Content from " ++ dep_type ++ lit " dependencies:"
  else lit "Dependencies (" ++ dep_type ++ lit "):".

Definition bullet (file_path : str) : str := lit "  - " ++ file_path.

(** The loop of the truncating branch of [_generate_list_injection]: the
    lines kept and their number. *)
Fixpoint shown_lines (files : list str) (total_size : Z) : list str :=
  match files with
  | [] => []
  | file_path :: rest =>
    let line_size := OutputCapture.encoded_len (bullet file_path ++ [OutputCapture.lf]) in
    if MAX_INJECTION_SIZE <? total_size + line_size then []
    else bullet file_path :: shown_lines rest (total_size + line_size)
  end.

Definition omitted_line (n : Z) : str :=
  lit "  ... (" ++ str_of_int n ++ lit " files omitted due to size limit)".

(** The size of lines, each with its line feed. *)
Definition lines_size (ls : list str) : Z :=
  foldr (fun l n => OutputCapture.encoded_len l + 1 + n) 0 ls.

Definition _generate_list_injection (files : list str) (instruction : str)
    : str * bool * option (list (str * value)) :=
  let content := join [OutputCapture.lf] (instruction :: map bullet files) in
  if MAX_INJECTION_SIZE <? OutputCapture.encoded_len content then
    let shown := shown_lines files (OutputCapture.encoded_len instruction) in
    let files_shown := Z.of_nat (length shown) in
    let files_omitted := Z.of_nat (length files) - files_shown in
    (join [OutputCapture.lf] (instruction :: shown ++ [omitted_line files_omitted]),
     true,
     Some [(lit "total_files", VInt (Z.of_nat (length files)));
           (lit "files_shown", VInt files_shown);
           (lit "files_omitted", VInt files_omitted)])
  else (content, false, None).

(** [inject].  [generate_content] stands for [_generate_content_injection],
    which reads the files; this part leaves it open. *)
Definition inject
    (generate_content : list str -> str -> str * bool * option (list (str * value)))
    (prompt : str) (files : list str) (inject_config : value) (is_required : bool)
    : result InjectionResult :=
  if negb (truthy inject_config) then inr (mkInjection prompt false None)
  else
    (settings <-
       match inject_config with
       | VBool _ =>
         inr (VStr (lit "list"), VStr (lit "prepend"),
              VStr (_get_default_instruction (VStr (lit "list")) is_required))
       | VDict d =>
         let mode := Executor.get_or "mode" (VStr (lit "list")) d in
         inr (mode, Executor.get_or "position" (VStr (lit "prepend")) d,
              Executor.get_or "instruction"
                (VStr (_get_default_instruction mode is_required)) d)
       | _ => inl AttributeError
       end ;;
     let '(mode, position, instruction) := settings in
     if Substitution.is_str (lit "none") mode then inr (mkInjection prompt false None)
     else
       generated <-
         (if Substitution.is_str (lit "list") mode then
            match instruction with
            | VStr i => inr (_generate_list_injection files i)
            | _ => inl TypeError
            end
          else if Substitution.is_str (lit "content") mode then
            match instruction with
            | VStr i => inr (generate_content files i)
            | _ => inl AttributeError
            end
          else inl (ValueError (lit "Invalid injection mode: ") [])) ;;
       let '(injection_content, was_truncated, truncation_details) := generated in
       if Substitution.is_str (lit "prepend") position then
         inr (mkInjection
                (match prompt with
                 | [] => injection_content
                 | _ :: _ => injection_content ++ [OutputCapture.lf; OutputCapture.lf] ++ prompt
                 end) was_truncated truncation_details)
       else if Substitution.is_str (lit "append") position then
         inr (mkInjection
                (match prompt with
                 | [] => injection_content
                 | _ :: _ => prompt ++ [OutputCapture.lf; OutputCapture.lf] ++ injection_content
                 end) was_truncated truncation_details)
       else inl (ValueError (lit "Invalid injection position: ") []))%py.

End Injector.

(* ================================================================= *)
(** ** Sample loops *)
(* ================================================================= *)

Module LoopSamples.
Import Py World.

(** A nested step whose condition is false. *)
Definition skipped_step : Loops.LoopStep :=
  Loops.mkLoopStep
    (Executor.mkStep (Some (lit "Check"))
       (Some (VDict [(lit "equals", VDict [(lit "left", VStr (lit "a"));
                                           (lit "right", VStr (lit "b"))])]))
       None Executor.KOther None None None None None None) false.

Definition loop_config : Loops.ForEachConfig :=
  Loops.mkForEach None (Some [VStr (lit "x"); VStr (lit "y")]) None [skipped_step].

(** The step [Each] that carries the loop. *)
Definition loop_step : Executor.Step :=
  Executor.mkStep (Some (lit "Each")) None None Executor.KOther
    None None None None None None.

Definition no_provider (step : Executor.Step) (context state : list (str * value))
    (w : world) : result (list (str * value)) * world := (inr [], w).

Definition loop_run :=
  Loops._execute_for_each Samples.always_fails Samples.sample_workflow (VDict [])
    no_provider (fun _ => lit "t") 0 (Some (lit "Each")) loop_config false
    [(lit "steps", VDict [])] Samples.sample_manager Samples.empty_world.

Definition loop_state : list (str * value) :=
  match loop_run with
  | Some (inr (state, _), _) => state
  | _ => []
  end.

Definition loop_manager : State.StateManager :=
  match loop_run with
  | Some (inr (_, m), _) => m
  | _ => Samples.sample_manager
  end.

Definition loop_world : world :=
  match loop_run with
  | Some (_, w) => w
  | None => Samples.empty_world
  end.

(** A world in which the state file of the sample run holds version 1. *)
Definition stored_world : world :=
  mkWorld {[ State.state_file Samples.sample_manager := Samples.blit "v1" ]} [] [] [].

Definition iteration_state : list (str * value) :=
  [(lit "A", VDict [(lit "exit_code", VInt 0)])].

Definition iteration_context_run :=
  Loops._create_loop_context Samples.reads_versions (VDict [])
    (Loops.loop_context (lit "f") (VStr (lit "a")) 0 3) iteration_state
    Samples.sample_manager stored_world.

Definition iteration_context : list (str * value) :=
  match iteration_context_run with
  | inr (context, _) => context
  | inl _ => []
  end.

Definition iteration_manager : State.StateManager :=
  match iteration_context_run with
  | inr (_, m) => m
  | inl _ => Samples.sample_manager
  end.

(** A workflow of two commands without handlers. *)
Definition plain_workflow : Executor.Workflow :=
  Executor.mkWorkflow [Samples.step_echo "A"; Samples.step_echo "B"]
    None None (lit "/ws") (lit "/ws/.orchestrate/runs/r1/logs") false.

End LoopSamples.

(* ================================================================= *)
(** * Properties *)
(* ================================================================= *)

Import Py World.

(** ** Retry policy and the retry loop *)

Section RetryLoop.

Import Retry Executor.

Lemma should_retry_true (p : RetryPolicy) (exit_code attempt : Z) :
  should_retry p exit_code attempt = true ->
  attempt < max_retries p /\ exit_code ∈ retryable_codes p.
Proof.
  unfold should_retry.
  destruct (Z.leb_spec (max_retries p) attempt) as [Hle | Hlt]; [discriminate |].
  intros H. split; [exact Hlt |]. by apply bool_decide_eq_true in H.
Qed.

Lemma elem_of_retryable (e : Z) : e ∈ [1; 124] -> e = 1 \/ e = 124.
Proof.
  rewrite !elem_of_cons. intros [-> | [-> | H]]; auto.
  by apply elem_of_nil in H.
Qed.

Lemma for_command_codes (c : option retries_config) (e : Z) :
  e ∈ retryable_codes (for_command c) -> e = 1 \/ e = 124.
Proof.
  unfold for_command.
  destruct c as [c |]; simpl; [| by intros ?%elem_of_nil].
  destruct (config_truthy c); simpl; [| by intros ?%elem_of_nil].
  destruct c; simpl; apply elem_of_retryable.
Qed.

Lemma for_provider_codes (m d e : Z) :
  e ∈ retryable_codes (for_provider m d) -> e = 1 \/ e = 124.
Proof. unfold for_provider; simpl. apply elem_of_retryable. Qed.

Variables (pf : platform) (wf : Workflow) (step : Step).
Variables (cmd : StepExecutor.command) (variables : list (str * value)).
Variable (p : RetryPolicy).

(** The loop returns as soon as the fuel exceeds the retries that are
    left. *)
Lemma retry_loop_total (fuel : nat) :
  forall (attempt : Z) history w,
    (Z.to_nat (max_retries p - attempt) < fuel)%nat ->
    retry_loop pf wf step cmd variables p fuel attempt history w <> None.
Proof.
  induction fuel as [| f IH]; intros attempt history w Hfuel; [lia |].
  cbn [retry_loop].
  destruct (output_file step) as [o |].
  - destruct (Substitution.substitute pf variables (VStr o) true).1 as [e | [ | | | | s | |]];
      try discriminate.
    destruct (StepExecutor.execute_command _ _ _ _ _ _ _ _ _ _ _) as [[e | r] w1];
      [discriminate |].
    destruct (should_retry p _ attempt) eqn:Hretry; [| discriminate].
    apply should_retry_true in Hretry as [Hlt _].
    apply IH. lia.
  - destruct (StepExecutor.execute_command _ _ _ _ _ _ _ _ _ _ _) as [[e | r] w1];
      [discriminate |].
    destruct (should_retry p _ attempt) eqn:Hretry; [| discriminate].
    apply should_retry_true in Hretry as [Hlt _].
    apply IH. lia.
Qed.

(** What the loop returns: the attempts made so far, then the retried
    attempts of this call, then the final one.  Every retried attempt
    ended with a retryable code while retries were left. *)
Lemma retry_loop_history (fuel : nat) :
  forall (attempt : Z) history w out w',
    retry_loop pf wf step cmd variables p fuel attempt history w = Some (inr out, w') ->
    exists retried final,
      out = history ++ retried ++ [final]
      /\ Forall (fun r => StepExecutor.exit_code r ∈ retryable_codes p) retried
      /\ (retried = [] \/ attempt + Z.of_nat (length retried) <= max_retries p).
Proof.
  induction fuel as [| f IH]; intros attempt history w out w' Hrun; [discriminate |].
  cbn [retry_loop] in Hrun.
  destruct (match output_file step with
            | Some o => _
            | None => _
            end) as [e | ofile]; [by inversion Hrun |].
  destruct (StepExecutor.execute_command _ _ _ _ _ _ _ _ _ _ _) as [[e | r] w1];
    [by inversion Hrun |].
  destruct (should_retry p _ attempt) eqn:Hretry.
  - apply should_retry_true in Hretry as [Hlt Hcode].
    apply IH in Hrun as (retried & final & -> & Hall & Hlen).
    exists (r :: retried), final. split; [by rewrite <- app_assoc |].
    split; [by constructor |].
    right. destruct Hlen as [-> | Hlen]; simpl; lia.
  - inversion Hrun; subst. exists [], r. split; [done |].
    split; [constructor | by left].
Qed.

End RetryLoop.

(** ** Dictionaries *)

Lemma str_eqb_refl (k : str) : str_eqb k k = true.
Proof. unfold str_eqb. by apply bool_decide_eq_true. Qed.

Lemma dict_get_set_eq {V} (k : str) (v : V) (d : list (str * V)) :
  dict_get k (dict_set k v d) = Some v.
Proof.
  induction d as [| [k' v'] d IH]; simpl.
  - by rewrite str_eqb_refl.
  - destruct (str_eqb k k') eqn:E; simpl; [by rewrite str_eqb_refl |].
    by rewrite E.
Qed.

Lemma dict_get_set_ne {V} (k k' : str) (v : V) (d : list (str * V)) :
  k <> k' -> dict_get k' (dict_set k v d) = dict_get k' d.
Proof.
  intros Hne. assert (Hf : str_eqb k' k = false).
  { unfold str_eqb. apply bool_decide_eq_false_2. congruence. }
  induction d as [| [k0 v0] d IH]; simpl.
  - by rewrite Hf.
  - destruct (str_eqb k k0) eqn:E; simpl.
    + apply bool_decide_eq_true in E as <-. by rewrite Hf.
    + by rewrite IH.
Qed.

(** ** The command of a step: retries, then control flow *)

Section CommandStep.

Import Retry Executor.

Variables (pf : platform) (wf : Workflow) (step : Step).
Variable (cmd : StepExecutor.command).

Lemma execute_command_with_context_total context state w :
  _execute_command_with_context pf wf step cmd context state w <> None.
Proof.
  unfold _execute_command_with_context.
  destruct (substitute_command pf _ cmd) as [[e | c] u].
  - destruct e; discriminate.
  - destruct (retry_loop _ _ _ _ _ _ _ _ _ _) as [[[e | h] w'] |] eqn:Hloop.
    + discriminate.
    + destruct (last h); discriminate.
    + exfalso. revert Hloop. apply retry_loop_total. lia.
Qed.

Lemma execute_command_with_context_history context state w r history w' :
  _execute_command_with_context pf wf step cmd context state w
    = Some (inr (r, history), w') ->
  Z.of_nat (length history) <= 1 + Z.max 0 (max_retries (for_command (retries step)))
  /\ (forall k e, history !! k = Some e -> (S k < length history)%nat ->
        StepExecutor.exit_code e = 1 \/ StepExecutor.exit_code e = 124)
  /\ (forall final, last history = Some final -> r = to_state_dict final)
  /\ (history = [] -> exists u c, r = undefined_variables_result u c).
Proof.
  unfold _execute_command_with_context.
  destruct (substitute_command pf _ cmd) as [[e | c] u].
  - destruct e; intros H; inversion H; subst; simpl.
    split; [lia |]. split; [intros k e Hk; by rewrite lookup_nil in Hk |].
    split; [intros f [=] |]. intros _. by eexists _, _.
  - destruct (retry_loop _ _ _ _ _ _ _ _ _ _) as [[[e | h] w1] |] eqn:Hloop;
      try discriminate.
    apply retry_loop_history in Hloop as (retried & final & Hh & Hall & Hlen).
    simpl in Hh. subst h. rewrite last_snoc.
    intros H; inversion H; subst. clear H.
    rewrite length_app; simpl.
    split; [destruct Hlen as [-> | Hlen]; simpl; lia |].
    split.
    { intros k e Hk Hlt.
      apply (for_command_codes (retries step)).
      rewrite Forall_forall in Hall. apply Hall.
      apply list_elem_of_lookup. exists k.
      rewrite lookup_app_l in Hk; [done | lia]. }
    split; [intros f Hf; rewrite last_snoc in Hf; by inversion Hf |].
    intros Hnil. by destruct retried.
Qed.

Lemma step_result_of_set state step_name v state' :
  set_step_entry state step_name v = inr state' ->
  step_result_of state' step_name = inr v.
Proof.
  unfold set_step_entry, step_result_of, get_or.
  destruct (dict_get (lit "steps") state) as [[ | | | | | | sd] |];
    intros [= <-]; rewrite dict_get_set_eq; simpl.
  - by rewrite dict_get_set_eq.
  - by rewrite str_eqb_refl.
Qed.

End CommandStep.



(** ** Conditions on files with undefined variables *)

Section UndefinedInCondition.

Import Substitution Conditions Executor.

Variables (pf : platform) (variables : list (str * value)).

(** A text whose scan records unresolved tokens makes the tracked
    substitution raise [ValueError] with their sorted list. *)
Lemma substitute_undefined (text out name : str) (names : list str) :
  _substitute_string pf variables text [] = (inr out, name :: names) ->
  substitute pf variables (VStr text) true
  = (inl (ValueError (lit "Undefined variables: ") (sorted (name :: names))),
     name :: names).
Proof. intros H. cbn [substitute]. by rewrite H. Qed.

Lemma evaluate_exists_undefined workspace (pattern out name : str) names w :
  _substitute_string pf variables pattern [] = (inr out, name :: names) ->
  _evaluate_exists pf workspace (VStr pattern) variables w = (inr false, w).
Proof.
  intros H. unfold _evaluate_exists.
  by rewrite (substitute_undefined _ _ _ _ H).
Qed.

End UndefinedInCondition.



(** ** Undefined variables in containers *)

(** C3 (the code at the failing inputs).  With nothing defined, the tracked
    substitution of a list or of a map whose last leaf is fully resolved
    raises nothing and hands back the unresolved token of the earlier leaf
    as it stands; when the last leaf has an unresolved token as well, the
    error lists that token only. *)
Theorem substitute_container_forgets_undefined :
  Substitution.substitute Samples.always_fails []
    (VList [VStr (lit "${context.missing}"); VStr (lit "ok")]) true
  = (inr (VList [VStr (lit "${context.missing}"); VStr (lit "ok")]), [])
  /\ Substitution.substitute Samples.always_fails []
       (VDict [(lit "model", VStr (lit "${context.missing}"));
               (lit "effort", VStr (lit "high"))]) true
     = (inr (VDict [(lit "model", VStr (lit "${context.missing}"));
                    (lit "effort", VStr (lit "high"))]), [])
  /\ Substitution.substitute Samples.always_fails []
       (VList [VStr (lit "${run.a}"); VStr (lit "${run.b}")]) true
     = (inl (ValueError (lit "Undefined variables: ") [lit "run.b"]), [lit "run.b"])
  /\ Substitution.substitute Samples.always_fails []
       (VStr (lit "${run.b} ${run.a}")) true
     = (inl (ValueError (lit "Undefined variables: ") [lit "run.a"; lit "run.b"]),
        [lit "run.b"; lit "run.a"]).
Proof. repeat split; vm_compute; reflexivity. Qed.

(** For an argv the executor substitutes element by element: the first
    element with an unresolved token stops the step with exit code 2, no
    subprocess is spawned, and the error lists the tokens of that element
    only. *)
Lemma undefined_argv_not_spawned :
  Executor._execute_command Samples.always_fails Samples.sample_workflow
    (Samples.step_echo "Echo")
    (StepExecutor.CmdArgv [lit "echo"; lit "${run.a}"; lit "${run.b}"])
    Samples.sample_state Samples.empty_world
  = Some (inr (Executor.undefined_variables_result [lit "run.a"]
                 [lit "echo"; lit "${run.a}"; lit "${run.b}"], []),
          Samples.empty_world).
Proof. vm_compute. reflexivity. Qed.

(** ** Secrets of a step *)

Section ResolveSecrets.

Import Secrets.

Variable (environ : gmap str str).

Lemma overlay_secrets_fold (names : list str) :
  forall ctx,
    child_env ctx = environ ->
    let ctx' := foldl (overlay_secret environ) ctx names in
    child_env ctx' = environ
    /\ declared_secrets ctx' = declared_secrets ctx
    /\ missing_secrets ctx'
       = missing_secrets ctx ++ filter (fun n => environ !! n = None) names.
Proof.
  induction names as [| n names IH]; intros ctx Henv; simpl.
  - by rewrite app_nil_r.
  - rewrite filter_cons.
    destruct (IH (overlay_secret environ ctx n)) as (H1 & H2 & H3).
    { unfold overlay_secret. destruct (environ !! n) as [v |] eqn:Hn; simpl;
        [| exact Henv].
      rewrite Henv. by apply insert_id. }
    split; [exact H1 |]. rewrite H2, H3. clear H1 H2 H3.
    unfold overlay_secret. destruct (environ !! n) as [v |] eqn:Hn; simpl.
    + done.
    + by rewrite <- app_assoc.
Qed.

Lemma apply_step_env_fold (step_env : list (str * str)) :
  forall ctx,
    let ctx' := foldl apply_step_env ctx step_env in
    missing_secrets ctx' = missing_secrets ctx
    /\ forall k, k ∉ map fst step_env -> child_env ctx' !! k = child_env ctx !! k.
Proof.
  induction step_env as [| [key v] step_env IH]; intros ctx; cbn [foldl]; [done |].
  destruct (IH (apply_step_env ctx (key, v))) as [H1 H2].
  split; [by rewrite H1 |].
  intros k Hk. rewrite H2.
  - simpl. apply lookup_insert_ne. intros ->. apply Hk. simpl. by left.
  - intros Hin. apply Hk. simpl. by right.
Qed.

End ResolveSecrets.

Lemma resolve_secrets_spec (pf : platform) (declared : list str)
    (step_env : option (list (str * str))) (w : world) :
  let ctx := (Secrets.resolve_secrets pf (Some declared) step_env w).1 in
  let w' := (Secrets.resolve_secrets pf (Some declared) step_env w).2 in
  Secrets.missing_secrets ctx = filter (fun n => environ pf !! n = None) declared
  /\ (forall k, k ∉ map fst (default [] step_env) ->
        Secrets.child_env ctx !! k = environ pf !! k)
  /\ spawned w' = spawned w /\ fs w' = fs w.
Proof.
  unfold Secrets.resolve_secrets.
  change (default [] (Some declared)) with declared.
  cbn [fst snd Secrets.declared_secrets].
  set (ctx0 := Secrets.mkSecretsContext declared [] [] (environ pf)).
  destruct (overlay_secrets_fold (environ pf) declared ctx0 eq_refl) as (H1 & _ & H3).
  destruct (apply_step_env_fold (default [] step_env)
              (foldl (Secrets.overlay_secret (environ pf)) ctx0 declared)) as [H4 H5].
  split; [by rewrite H4, H3 |].
  split; [| done].
  intros k Hk. by rewrite H5, H1.
Qed.

(** C4, as the code has it.  Every declared name that the process
    environment defines (the empty string included) is in the child
    environment with that value unless the step's own [env] sets the same
    key; the missing names are exactly the declared names that the
    process environment lacks, in the order of the declaration (not
    sorted), and when there is one the step fails with error type
    [missing_secrets] and exit code 2, carrying that list, without
    spawning a subprocess or writing a file. *)
Theorem missing_secrets_in_declaration_order
    (pf : platform) (logs_dir step_name : str) (cmd : StepExecutor.command)
    (env : option (list (str * str))) (declared : list str)
    (timeout_sec : option Z) (mode : OutputCapture.CaptureMode)
    (output_file : option str) (allow_parse_error : bool) (w : world) :
  let ctx := (Secrets.resolve_secrets pf (Some declared) env w).1 in
  let missing := filter (fun n => environ pf !! n = None) declared in
  (forall n v, n ∈ declared -> environ pf !! n = Some v ->
     (n ∉ missing)
     /\ (n ∉ map fst (default [] env) -> Secrets.child_env ctx !! n = Some v))
  /\ Secrets.missing_secrets ctx = missing
  /\ (missing <> [] ->
      exists err w',
        StepExecutor.execute_command pf logs_dir step_name cmd env (Some declared)
          timeout_sec mode output_file allow_parse_error w
        = (inr (StepExecutor.mkExecutionResult step_name 2
                  (OutputCapture.mkCaptureResult OutputCapture.TEXT (Some [])
                     (Some []) None false 2 (Some err) None)
                  0 (Some err)), w')
        /\ OutputCapture.err_type err = lit "missing_secrets"
        /\ OutputCapture.err_context err
           = [(lit "missing_secrets", VList (map VStr missing))]
        /\ spawned w' = spawned w /\ fs w' = fs w).
Proof.
  intros ctx missing.
  destruct (resolve_secrets_spec pf declared env w) as (Hmiss & Henv & Hsp & Hfs).
  fold ctx in Hmiss, Henv. fold missing in Hmiss.
  split.
  { intros n v Hin Hn. split.
    - unfold missing. rewrite list_elem_of_filter. intros [Hnone _]. congruence.
    - intros Hk. by rewrite Henv. }
  split; [exact Hmiss |].
  intros Hne. unfold StepExecutor.execute_command.
  destruct (Secrets.resolve_secrets pf (Some declared) env w) as [ctx1 w1] eqn:Hres.
  simpl in ctx, Hsp, Hfs. subst ctx.
  rewrite Hmiss. destruct missing as [| n0 missing0] eqn:Hm; [done |].
  eexists _, w1. split; [reflexivity |]. by rewrite <- Hm.
Qed.

Lemma missing_secrets_in_declaration_order_witness :
  exists err w',
    StepExecutor.execute_command Samples.prints_token (lit "/ws/logs") (lit "S")
      (StepExecutor.CmdArgv [lit "true"]) None
      (Some [lit "ZETA"; lit "TOKEN"; lit "ALPHA"]) None
      OutputCapture.TEXT None false Samples.empty_world
    = (inr (StepExecutor.mkExecutionResult (lit "S") 2
              (OutputCapture.mkCaptureResult OutputCapture.TEXT (Some [])
                 (Some []) None false 2 (Some err) None)
              0 (Some err)), w')
    /\ OutputCapture.err_type err = lit "missing_secrets"
    /\ OutputCapture.err_context err
       = [(lit "missing_secrets", VList [VStr (lit "ZETA"); VStr (lit "ALPHA")])]
    /\ spawned w' = spawned Samples.empty_world /\ fs w' = fs Samples.empty_world.
Proof.
  apply (proj2 (proj2 (missing_secrets_in_declaration_order Samples.prints_token
                         (lit "/ws/logs") (lit "S")
                         (StepExecutor.CmdArgv [lit "true"]) None
                         [lit "ZETA"; lit "TOKEN"; lit "ALPHA"] None
                         OutputCapture.TEXT None false Samples.empty_world))).
  vm_compute. discriminate.
Defined.

(** C4, the claim as stated fails: with [MISSING_SECRET] and
    [ANOTHER_MISSING] declared in this order and both absent, the error
    carries them in this order, which is not the sorted one. *)
Lemma missing_secrets_not_sorted :
  exists err w',
    StepExecutor.execute_command Samples.always_fails (lit "/ws/logs") (lit "S")
      (StepExecutor.CmdArgv [lit "true"]) None
      (Some [lit "MISSING_SECRET"; lit "ANOTHER_MISSING"]) None
      OutputCapture.TEXT None false Samples.empty_world
    = (inr (StepExecutor.mkExecutionResult (lit "S") 2
              (OutputCapture.mkCaptureResult OutputCapture.TEXT (Some [])
                 (Some []) None false 2 (Some err) None)
              0 (Some err)), w')
    /\ OutputCapture.err_context err
       = [(lit "missing_secrets",
           VList [VStr (lit "MISSING_SECRET"); VStr (lit "ANOTHER_MISSING")])]
    /\ sorted [lit "MISSING_SECRET"; lit "ANOTHER_MISSING"]
       = [lit "ANOTHER_MISSING"; lit "MISSING_SECRET"]
    /\ [lit "MISSING_SECRET"; lit "ANOTHER_MISSING"]
       <> sorted [lit "MISSING_SECRET"; lit "ANOTHER_MISSING"].
Proof.
  eexists _, _. split; [vm_compute; reflexivity |].
  split; [reflexivity |]. split; [vm_compute; reflexivity |].
  vm_compute. discriminate.
Qed.

(** ** Output capture *)

Section Capture.

Import OutputCapture.

Lemma removelast_prefix (t : str) : removelast t `prefix_of` t.
Proof.
  destruct t as [| c t]; [by exists [] |].
  exists [List.last (c :: t) c]. by apply app_removelast_last.
Qed.

Lemma removelast_length (t : str) : length (removelast t) = pred (length t).
Proof.
  induction t as [| c t IH]; [done |].
  destruct t as [| c' t]; [done |].
  simpl in *. f_equal. exact IH.
Qed.

Lemma drop_while_over_prefix (limit : Z) (fuel : nat) :
  forall output, drop_while_over limit fuel output `prefix_of` output.
Proof.
  induction fuel as [| f IH]; intros output; simpl; [done |].
  destruct (limit <? encoded_len output); [| done].
  etrans; [apply IH | apply removelast_prefix].
Qed.

Lemma drop_while_over_bound (limit : Z) (fuel : nat) :
  0 <= limit ->
  forall output, (length output <= fuel)%nat ->
    encoded_len (drop_while_over limit fuel output) <= limit.
Proof.
  intros Hlimit. induction fuel as [| f IH]; intros output Hlen; simpl.
  - destruct output; [unfold encoded_len; simpl; lia | simpl in Hlen; lia].
  - destruct (Z.ltb_spec limit (encoded_len output)) as [Hover | Hfit]; [| lia].
    apply IH. rewrite removelast_length. lia.
Qed.

(** The truncated text is a prefix of the decoded text made of whole
    characters, and its encoding fits the limit. *)
Lemma truncate_text_spec (text : str) :
  truncate_text text `prefix_of` text
  /\ encoded_len (truncate_text text) <= TEXT_LIMIT_BYTES.
Proof.
  unfold truncate_text. split.
  - etrans; [apply drop_while_over_prefix | apply prefix_take].
  - apply drop_while_over_bound; [unfold TEXT_LIMIT_BYTES; lia | done].
Qed.

Lemma fs_write_bytes_eq path data w : fs (write_bytes path data w) !! path = Some data.
Proof. unfold write_bytes; simpl. apply lookup_insert_eq. Qed.

Lemma fs_write_bytes_ne path path' data w :
  path <> path' -> fs (write_bytes path data w) !! path' = fs w !! path'.
Proof. intros H. unfold write_bytes; simpl. by apply lookup_insert_ne. Qed.

Lemma spawned_write_bytes path data w : spawned (write_bytes path data w) = spawned w.
Proof. done. Qed.

Lemma after_tee_output_file logs_dir stdout stderr step_name f w :
  fs (after_tee logs_dir stdout stderr step_name (Some f) w) !! f = Some stdout.
Proof. unfold after_tee. apply fs_write_bytes_eq. Qed.

(** Whatever the mode does afterwards, the output file keeps the full
    stdout: the only later write is the log of the same bytes. *)
Lemma capture_keeps_output_file pf logs_dir stdout stderr step_name mode f
    allow_parse_error exit_code w :
  fs (capture pf logs_dir stdout stderr step_name mode (Some f)
        allow_parse_error exit_code w).2 !! f = Some stdout.
Proof.
  assert (Hlog : forall w0, fs w0 !! f = Some stdout ->
            fs (write_bytes (stdout_log logs_dir step_name) stdout w0) !! f
            = Some stdout).
  { intros w0 H0. destruct (decide (stdout_log logs_dir step_name = f)) as [<- | Hne].
    - apply fs_write_bytes_eq.
    - by rewrite fs_write_bytes_ne. }
  pose proof (after_tee_output_file logs_dir stdout stderr step_name f w) as Htee.
  unfold capture.
  set (w2 := after_tee logs_dir stdout stderr step_name (Some f) w) in *.
  destruct mode.
  - unfold _capture_text. destruct (_ <? _); cbn [snd]; auto.
  - unfold _capture_lines. destruct (_ <? _); cbn [snd]; auto.
  - unfold _capture_json.
    destruct (JSON_BUFFER_LIMIT <? _); [destruct allow_parse_error; cbn [snd]; auto |].
    destruct (json_loads pf _); [| cbn [snd]; auto].
    destruct allow_parse_error; [| cbn [snd]; auto].
    destruct (TEXT_LIMIT_BYTES <? _); cbn [snd]; auto.
Qed.

End Capture.

(** The decoder never shrinks its input: every byte consumed is paid for
    by at least one byte of the encoding of what it produces. *)
Lemma utf8_len_cons c t : utf8_len (c :: t) = (utf8_len_char c + utf8_len t)%nat.
Proof. reflexivity. Qed.

Lemma utf8_len_char_pos c : (1 <= utf8_len_char c)%nat.
Proof. unfold utf8_len_char. repeat case_match; lia. Qed.

Lemma utf8_len_char_two c : (128 <= c)%N -> (2 <= utf8_len_char c)%nat.
Proof.
  intros H. unfold utf8_len_char.
  destruct (N.ltb_spec c 128); [lia |]. repeat case_match; lia.
Qed.

Lemma utf8_len_char_three c : (2048 <= c)%N -> (3 <= utf8_len_char c)%nat.
Proof.
  intros H. unfold utf8_len_char.
  destruct (N.ltb_spec c 128); [lia |].
  destruct (N.ltb_spec c 2048); [lia |]. repeat case_match; lia.
Qed.

Lemma utf8_len_char_four c : (65536 <= c)%N -> (4 <= utf8_len_char c)%nat.
Proof.
  intros H. unfold utf8_len_char.
  destruct (N.ltb_spec c 128); [lia |].
  destruct (N.ltb_spec c 2048); [lia |].
  destruct (N.ltb_spec c 65536); lia.
Qed.

Lemma is_continuation_bounds b : is_continuation b = true -> (128 <= b <= 191)%N.
Proof. unfold is_continuation. intros [?%N.leb_le ?%N.leb_le]%andb_true_iff. lia. Qed.

Lemma second_of_three_bounds b0 b1 :
  (224 <= b0)%N -> second_of_three b0 b1 = true ->
  (128 <= b1)%N /\ (2048 <= (b0 - 224) * 4096 + (b1 - 128) * 64)%N.
Proof.
  unfold second_of_three, is_continuation. intros Hb0.
  destruct (N.eqb_spec b0 224) as [-> | Hne].
  - intros [?%N.leb_le ?%N.leb_le]%andb_true_iff. lia.
  - destruct (N.eqb_spec b0 237);
      intros [?%N.leb_le ?%N.leb_le]%andb_true_iff; lia.
Qed.

Lemma second_of_four_bounds b0 b1 :
  (240 <= b0)%N -> second_of_four b0 b1 = true ->
  (128 <= b1)%N /\ (65536 <= (b0 - 240) * 262144 + (b1 - 128) * 4096)%N.
Proof.
  unfold second_of_four, is_continuation. intros Hb0.
  destruct (N.eqb_spec b0 240) as [-> | Hne].
  - intros [?%N.leb_le ?%N.leb_le]%andb_true_iff. lia.
  - destruct (N.eqb_spec b0 244);
      intros [?%N.leb_le ?%N.leb_le]%andb_true_iff; lia.
Qed.

Lemma decode_utf8_units_len n l :
  (length l <= n)%nat -> (length l <= utf8_len (decode_utf8_units l))%nat.
Proof.
  revert l. induction n as [| n IH]; intros l Hl.
  { destruct l; simpl in *; lia. }
  destruct l as [| b0 r]; [simpl; lia |].
  cbn [length] in Hl.
  pose proof (IH r ltac:(lia)) as Hr.
  pose proof (utf8_len_char_pos replacement_char) as Hrep.
  assert (Hrep3 : utf8_len_char replacement_char = 3%nat) by reflexivity.
  cbn [decode_utf8_units].
  destruct (N.ltb_spec b0 128).
  { rewrite utf8_len_cons. pose proof (utf8_len_char_pos b0). cbn [length]. lia. }
  destruct ((194 <=? b0)%N && (b0 <=? 223)%N) eqn:H2.
  { apply andb_true_iff in H2 as [?%N.leb_le ?%N.leb_le].
    destruct r as [| b1 r1]; [cbn; lia |].
    destruct (is_continuation b1) eqn:Hc1.
    - apply is_continuation_bounds in Hc1.
      pose proof (IH r1 ltac:(cbn [length] in *; lia)).
      rewrite utf8_len_cons.
      pose proof (utf8_len_char_two ((b0 - 192) * 64 + (b1 - 128))%N ltac:(lia)).
      cbn [length]. lia.
    - rewrite utf8_len_cons. cbn [length] in *. lia. }
  destruct ((224 <=? b0)%N && (b0 <=? 239)%N) eqn:H3.
  { apply andb_true_iff in H3 as [?%N.leb_le ?%N.leb_le].
    destruct r as [| b1 r1]; [cbn; lia |].
    destruct (second_of_three b0 b1) eqn:Hs.
    - apply second_of_three_bounds in Hs as [? ?]; [| done].
      destruct r1 as [| b2 r2]; [cbn; lia |].
      pose proof (IH (b2 :: r2) ltac:(cbn [length] in *; lia)).
      destruct (is_continuation b2) eqn:Hc2.
      + pose proof (IH r2 ltac:(cbn [length] in *; lia)).
        rewrite utf8_len_cons.
        pose proof (utf8_len_char_three
                      ((b0 - 224) * 4096 + (b1 - 128) * 64 + (b2 - 128))%N ltac:(lia)).
        cbn [length]. lia.
      + rewrite utf8_len_cons. cbn [length] in *. lia.
    - rewrite utf8_len_cons. cbn [length] in *. lia. }
  destruct ((240 <=? b0)%N && (b0 <=? 244)%N) eqn:H4.
  { apply andb_true_iff in H4 as [?%N.leb_le ?%N.leb_le].
    destruct r as [| b1 r1]; [cbn; lia |].
    destruct (second_of_four b0 b1) eqn:Hs.
    - apply second_of_four_bounds in Hs as [? ?]; [| done].
      destruct r1 as [| b2 r2]; [cbn; lia |].
      pose proof (IH (b2 :: r2) ltac:(cbn [length] in *; lia)).
      destruct (is_continuation b2) eqn:Hc2.
      + destruct r2 as [| b3 r3]; [cbn; lia |].
        pose proof (IH (b3 :: r3) ltac:(cbn [length] in *; lia)).
        destruct (is_continuation b3) eqn:Hc3.
        * pose proof (IH r3 ltac:(cbn [length] in *; lia)).
          rewrite utf8_len_cons.
          pose proof (utf8_len_char_four
                        ((b0 - 240) * 262144 + (b1 - 128) * 4096
                         + (b2 - 128) * 64 + (b3 - 128))%N ltac:(lia)).
          cbn [length]. lia.
        * rewrite utf8_len_cons. cbn [length] in *. lia.
      + rewrite utf8_len_cons. cbn [length] in *. lia.
    - rewrite utf8_len_cons. cbn [length] in *. lia. }
  rewrite utf8_len_cons. cbn [length] in *. lia.
Qed.

Lemma decode_utf8_replace_len (b : bytes) :
  (length b <= utf8_len (decode_utf8_replace b))%nat.
Proof.
  unfold decode_utf8_replace.
  rewrite <- (length_map Byte.to_N b) at 1.
  by apply (decode_utf8_units_len (length (map Byte.to_N b))).
Qed.



(** The same run, computed: of [a] followed by 4096 two-byte characters
    (8193 bytes), the record keeps [a] and 4095 whole characters. *)
Example truncation_keeps_whole_characters :
  let stdout := Byte.x61 :: concat (repeat [Byte.xc3; Byte.xa9] (Z.to_nat 4096)) in
  OutputCapture.output
    (OutputCapture.capture Samples.always_fails (lit "/ws/logs") stdout []
       (lit "Big") OutputCapture.TEXT None false 0 Samples.empty_world).1
  = Some (97%N :: repeat 233%N (Z.to_nat 4095)).
Proof. vm_compute. reflexivity. Qed.

(** C5, as the code has it.  In JSON mode a stdout of more than 1 MiB
    without [allow_parse_error] gives exit code 2 and error type
    [json_overflow]; with [allow_parse_error], an overflow or a parse
    failure gives exit code 0, no error, a [debug.json_parse_error]
    message, and as output a prefix of the decoded text: the whole text
    when it fits in 8 KiB and the buffer did not overflow, an 8 KiB
    truncation otherwise.  The full stdout is written to the log exactly
    in the truncated case; otherwise capture writes no log. *)
Theorem json_capture_overflow_and_parse_errors
    (pf : platform) (logs_dir : str) (stdout stderr : bytes) (step_name : str)
    (output_file : option str) (exit_code : Z) (w : world) :
  let text := decode_utf8_replace stdout in
  let overflow := OutputCapture.JSON_BUFFER_LIMIT <? Z.of_nat (length stdout) in
  let too_long := OutputCapture.TEXT_LIMIT_BYTES <? OutputCapture.encoded_len text in
  let tee := OutputCapture.after_tee logs_dir stdout stderr step_name output_file w in
  let res allow :=
    OutputCapture.capture pf logs_dir stdout stderr step_name OutputCapture.JSON
      output_file allow exit_code w in
  (overflow = true ->
     OutputCapture.exit_code (res false).1 = 2
     /\ (exists e, OutputCapture.error (res false).1 = Some e
                   /\ OutputCapture.err_type e = lit "json_overflow")
     /\ (res false).2 = tee)
  /\ (overflow = true \/ (exists e, json_loads pf text = inl e) ->
      OutputCapture.exit_code (res true).1 = 0
      /\ OutputCapture.error (res true).1 = None
      /\ OutputCapture.json_data (res true).1 = None
      /\ (exists msg, OutputCapture.debug (res true).1
                      = Some [(lit "json_parse_error", msg)])
      /\ OutputCapture.truncated (res true).1 = overflow || too_long
      /\ (overflow || too_long = true ->
            OutputCapture.output (res true).1 = Some (OutputCapture.truncate_text text)
            /\ (res true).2
               = write_bytes (OutputCapture.stdout_log logs_dir step_name) stdout tee
            /\ fs (res true).2 !! OutputCapture.stdout_log logs_dir step_name
               = Some stdout)
      /\ (overflow || too_long = false ->
            OutputCapture.output (res true).1 = Some text
            /\ (res true).2 = tee)).
Proof.
  intros text overflow too_long tee res.
  unfold res, OutputCapture.capture, OutputCapture._capture_json.
  fold text overflow too_long tee.
  split.
  - intros ->. cbn. split; [done |]. split; [eauto | done].
  - intros Hcase. destruct overflow; cbn.
    + repeat split; eauto; try done. apply fs_write_bytes_eq.
    + destruct Hcase as [? | [e He]]; [done |]. rewrite He.
      destruct too_long; cbn; repeat split; eauto; try done.
      apply fs_write_bytes_eq.
Qed.

Lemma json_capture_overflow_and_parse_errors_witness :
  let res :=
    OutputCapture.capture Samples.always_fails (lit "/ws/logs")
      (Samples.blit "not valid json") [] (lit "S") OutputCapture.JSON None true 0
      Samples.empty_world in
  OutputCapture.exit_code res.1 = 0 /\ OutputCapture.error res.1 = None.
Proof.
  intros res.
  pose proof (proj2 (json_capture_overflow_and_parse_errors Samples.always_fails
                       (lit "/ws/logs") (Samples.blit "not valid json") []
                       (lit "S") None 0 Samples.empty_world)) as H.
  destruct H as (Hcode & Herr & _).
  - right. eexists. vm_compute. reflexivity.
  - split; [exact Hcode | exact Herr].
Defined.

(** C5, the claim as stated fails: a small output that is not JSON, with
    [allow_parse_error], is captured with exit code 0 and the parse error
    in [debug], and no log file is written. *)
Lemma small_parse_error_not_spilled :
  let res :=
    OutputCapture.capture Samples.always_fails (lit "/ws/logs")
      (Samples.blit "not valid json") [] (lit "S") OutputCapture.JSON None true 0
      Samples.empty_world in
  json_loads Samples.always_fails (lit "not valid json")
    = inl (lit "Expecting value: line 1 column 1 (char 0)")
  /\ OutputCapture.exit_code res.1 = 0
  /\ OutputCapture.output res.1 = Some (lit "not valid json")
  /\ OutputCapture.debug res.1
     = Some [(lit "json_parse_error",
              lit "Expecting value: line 1 column 1 (char 0)")]
  /\ fs res.2 !! OutputCapture.stdout_log (lit "/ws/logs") (lit "S") = None
  /\ fs res.2 = ∅.
Proof. vm_compute. repeat split; reflexivity. Qed.

(** ** Masking *)

Section Masking.

Import Secrets.

Lemma startswith_nil (t : str) : startswith [] t = true.
Proof. by destruct t. Qed.

Lemma startswith_star_free (w t : str) :
  maskable w = true -> startswith w (star :: t) = false.
Proof.
  destruct w as [| c w]; [done |]. cbn [maskable startswith]. intros Hm.
  apply negb_true_iff, bool_decide_eq_false in Hm.
  destruct (c =? star)%N eqn:E; [| done].
  apply N.eqb_eq in E as ->. exfalso. apply Hm. by left.
Qed.

Lemma maskable_tail (c : char) (w : str) :
  maskable (c :: w) = true -> w = [] \/ maskable w = true.
Proof.
  simpl. intros Hm. apply negb_true_iff, bool_decide_eq_false in Hm.
  destruct w as [| c' w]; [by left | right]. simpl.
  apply negb_true_iff, bool_decide_eq_false. intros Hin. apply Hm. by right.
Qed.

Lemma contains_stars (w t : str) :
  maskable w = true -> contains w (stars ++ t) = contains w t.
Proof.
  intros Hm. change (stars ++ t) with (star :: star :: star :: t).
  cbn [contains]. by rewrite !startswith_star_free.
Qed.

Lemma contains_tail (w : str) (c : char) (t : str) :
  contains w (c :: t) = false -> contains w t = false.
Proof. cbn [contains]. by intros [_ ?]%orb_false_iff. Qed.

Lemma contains_drop (w t : str) (n : nat) :
  contains w t = false -> contains w (drop n t) = false.
Proof.
  revert t. induction n as [| n IH]; intros t H; [done |].
  destruct t as [| c t]; [done |]. simpl. apply IH. by eapply contains_tail.
Qed.

(** A text without the mask character that starts the masked text
    started the original text already. *)
Lemma startswith_replace (old : str) (fuel : nat) :
  forall (t w : str),
    w = [] \/ maskable w = true ->
    startswith w (replace_fuel fuel old stars t) = true ->
    startswith w t = true.
Proof.
  induction fuel as [| f IH]; intros t w Hw Hs; [done |].
  destruct Hw as [-> | Hm]; [apply startswith_nil |].
  cbn [replace_fuel] in Hs. destruct (startswith old t) eqn:Hold.
  - change (stars ++ ?x) with (star :: star :: star :: x) in Hs.
    by rewrite startswith_star_free in Hs.
  - destruct t as [| c t]; [done |].
    destruct w as [| a w]; [done |]. simpl in Hs |- *.
    destruct (N.eqb a c); [| done].
    eapply IH; [| exact Hs]. by eapply maskable_tail.
Qed.

(** A secret that is absent stays absent when another one is replaced. *)
Lemma contains_replace_other (old : str) (fuel : nat) :
  forall (t w : str),
    maskable w = true ->
    contains w t = false ->
    contains w (replace_fuel fuel old stars t) = false.
Proof.
  induction fuel as [| f IH]; intros t w Hm Hc; [done |].
  destruct (startswith w (replace_fuel (S f) old stars t)) eqn:Hs.
  { apply startswith_replace in Hs; [| by right].
    destruct t; cbn [contains] in Hc; by rewrite Hs in Hc. }
  cbn [replace_fuel] in Hs |- *. destruct (startswith old t) eqn:Hold.
  - rewrite contains_stars by done. apply IH; [done |]. by apply contains_drop.
  - destruct t as [| c t]; [done |].
    cbn [contains]. rewrite Hs. simpl. apply IH; [done |]. by eapply contains_tail.
Qed.

(** The replaced secret is gone. *)
Lemma contains_replace_self (old : str) (fuel : nat) :
  maskable old = true ->
  forall (t : str), (length t < fuel)%nat ->
    contains old (replace_fuel fuel old stars t) = false.
Proof.
  intros Hm. induction fuel as [| f IH]; intros t Hlen; [lia |].
  destruct (startswith old (replace_fuel (S f) old stars t)) eqn:Hs.
  - pose proof Hs as Hs'. apply startswith_replace in Hs'; [| by right].
    cbn [replace_fuel] in Hs. rewrite Hs' in Hs.
    change (stars ++ ?x) with (star :: star :: star :: x) in Hs.
    by rewrite startswith_star_free in Hs.
  - cbn [replace_fuel] in Hs |- *. destruct (startswith old t) eqn:Hold.
    + rewrite contains_stars by done. apply IH.
      rewrite length_drop. destruct old; [done |]. destruct t; [done |].
      simpl in *. lia.
    + destruct t as [| c t]; [by destruct old |].
      cbn [contains]. rewrite Hs. simpl. apply IH. simpl in Hlen. lia.
Qed.

End Masking.

Section MaskText.

Import Secrets.

Lemma replace_nonempty (old new t : str) :
  old <> [] -> replace old new t = replace_fuel (S (length t)) old new t.
Proof. by destruct old. Qed.

Lemma maskable_nonempty (s : str) : maskable s = true -> s <> [].
Proof. by destruct s. Qed.

Lemma mask_step_self (m s : str) :
  maskable s = true -> contains s (mask_step m s) = false.
Proof.
  intros Hm. unfold mask_step, re_sub_escaped.
  destruct (contains s m) eqn:Hc; [| done].
  rewrite replace_nonempty by by apply maskable_nonempty.
  apply contains_replace_self; [done | lia].
Qed.

Lemma mask_step_other (m s w : str) :
  s <> [] -> maskable w = true ->
  contains w m = false -> contains w (mask_step m s) = false.
Proof.
  intros Hs Hw Hc. unfold mask_step, re_sub_escaped.
  destruct (contains s m); [| done].
  rewrite replace_nonempty by done. by apply contains_replace_other.
Qed.

(** After the values of [l] have been replaced one after the other, none
    of them is left, whatever the order. *)
Lemma mask_fold (l : list str) :
  forallb maskable l = true ->
  forall (text s : str), s ∈ l -> contains s (foldl mask_step text l) = false.
Proof.
  induction l as [| x l IH] using rev_ind; intros Hall text s Hin.
  - by apply elem_of_nil in Hin.
  - rewrite forallb_app in Hall. apply andb_true_iff in Hall as [Hl Hx].
    simpl in Hx. rewrite andb_true_r in Hx.
    rewrite foldl_snoc.
    assert (Hs : maskable s = true).
    { apply elem_of_app in Hin as [Hin | ->%list_elem_of_singleton]; [| done].
      rewrite forallb_forall in Hl. apply Hl. by apply list_elem_of_In. }
    destruct (decide (s = x)) as [-> | Hne]; [by apply mask_step_self |].
    apply mask_step_other; [by apply maskable_nonempty | done |].
    apply IH; [done |].
    apply elem_of_app in Hin as [Hin | Hin%list_elem_of_singleton]; done.
Qed.

Lemma insert_sorted_elem {A} (lt : A -> A -> bool) (x y : A) (l : list A) :
  y ∈ insert_sorted lt x l <-> y = x \/ y ∈ l.
Proof.
  induction l as [| z l IH]; simpl.
  - rewrite list_elem_of_singleton, elem_of_nil. tauto.
  - destruct (lt z x); rewrite !elem_of_cons, ?IH; tauto.
Qed.

Lemma sort_by_elem {A} (lt : A -> A -> bool) (y : A) (l : list A) :
  y ∈ sort_by lt l <-> y ∈ l.
Proof.
  unfold sort_by. induction l as [| x l IH]; simpl; [done |].
  rewrite insert_sorted_elem, elem_of_cons, IH. tauto.
Qed.

Lemma sort_by_forallb {A} (lt : A -> A -> bool) (P : A -> bool) (l : list A) :
  forallb P l = true -> forallb P (sort_by lt l) = true.
Proof.
  rewrite !forallb_forall. intros H x Hx. apply H.
  apply list_elem_of_In, (sort_by_elem lt), list_elem_of_In. exact Hx.
Qed.

(** [mask_text] leaves none of the registered values in the text. *)
Lemma mask_text_hides (masked_values : list str) (text s : str) :
  forallb maskable masked_values = true ->
  s ∈ masked_values ->
  contains s (mask_text masked_values text) = false.
Proof.
  intros Hall Hin.
  assert (Hs : maskable s = true).
  { rewrite forallb_forall in Hall. apply Hall. by apply list_elem_of_In. }
  unfold mask_text. destruct text as [| c text]; [by destruct s |].
  destruct masked_values as [| v vs]; [by apply elem_of_nil in Hin |].
  apply mask_fold.
  - by apply sort_by_forallb.
  - by apply sort_by_elem.
Qed.

End MaskText.

Section MaskValues.

Import Secrets.

Lemma value_nested_ind (P : value -> Prop) :
  P VNone -> (forall b, P (VBool b)) -> (forall z, P (VInt z)) ->
  (forall r, P (VFloat r)) -> (forall s, P (VStr s)) ->
  (forall l, Forall P l -> P (VList l)) ->
  (forall d, Forall (fun kv => P kv.2) d -> P (VDict d)) ->
  forall v, P v.
Proof.
  intros H1 H2 H3 H4 H5 H6 H7. fix IH 1.
  intros [ | b | z | r | s | l | d];
    [apply H1 | apply H2 | apply H3 | apply H4 | apply H5 | |].
  - apply H6. induction l as [| x l IHl]; constructor; [apply IH | apply IHl].
  - apply H7. induction d as [| [k x] d IHd]; constructor; [apply IH | apply IHd].
Qed.

Variable (masked : list str).
Hypothesis (Hmaskable : forallb maskable masked = true).

Lemma mask_item_text (item : value) (t : str) :
  mask_item masked item = VStr t -> exists s0, t = mask_text masked s0.
Proof. destruct item; simpl; try discriminate. intros [= <-]. eauto. Qed.

(** No text that [mask_entry] visits keeps a registered value. *)
Lemma mask_entry_hides (v : value) :
  forall t s, visited_text (mask_entry masked v) t -> s ∈ masked ->
    contains s t = false.
Proof.
  induction v as [ | b | z | r | s0 | l IHl | d IHd] using value_nested_ind;
    intros t s Hvis Hin; cbn [mask_entry] in Hvis; try (by inversion Hvis).
  - inversion Hvis; subst. by apply mask_text_hides.
  - inversion Hvis as [ | | l' t' Hmem]; subst.
    apply list_elem_of_fmap in Hmem as (item & Hitem & _).
    symmetry in Hitem. apply mask_item_text in Hitem as [s0 ->].
    by apply mask_text_hides.
  - inversion Hvis as [ | d' k v' t' Hmem Hsub | ]; subst.
    destruct d as [| kv d]; [by apply elem_of_nil in Hmem |].
    destruct masked as [| v0 vs] eqn:Hm; [by apply elem_of_nil in Hin |].
    rewrite <- Hm in *.
    apply list_elem_of_fmap in Hmem as ([k0 x] & Heq & Hkx).
    inversion Heq; subst.
    rewrite Forall_forall in IHd.
    eapply (IHd (k0, x)); [exact Hkx | exact Hsub | exact Hin].
Qed.

Lemma mask_dict_entry (d : list (str * value)) :
  VDict (mask_dict masked d) = mask_entry masked (VDict d).
Proof. clear Hmaskable. by destruct d, masked. Qed.

End MaskValues.

Section Registry.

Import Secrets.

Lemma set_add_elem (x y : str) (s : list str) : y ∈ set_add x s <-> y = x \/ y ∈ s.
Proof.
  unfold set_add. case_bool_decide as Hx.
  - split; [by right | intros [-> | ?]; done].
  - rewrite elem_of_app, list_elem_of_singleton. tauto.
Qed.

Lemma track_value_elem (masked : list str) (v y : str) :
  y ∈ track_value masked v <-> (y = v /\ v <> []) \/ y ∈ masked.
Proof.
  destruct v as [| c v]; simpl.
  - split; [by right | intros [[_ ?] | ?]; done].
  - rewrite set_add_elem. split; [intros [-> | ?]; [left | right]; done |].
    intros [[-> _] | ?]; [by left | by right].
Qed.

(** The registry only grows, by the non-empty values it is given. *)
Lemma track_values_elem (vs : list str) :
  forall (masked : list str) (y : str),
    y ∈ foldl track_value masked vs <-> (y ∈ vs /\ y <> []) \/ y ∈ masked.
Proof.
  induction vs as [| v vs IH]; intros masked y; simpl.
  - rewrite elem_of_nil. tauto.
  - rewrite IH, track_value_elem, elem_of_cons.
    split.
    + intros [[? ?] | [[-> ?] | ?]]; auto.
    + intros [[[-> | ?] ?] | ?]; auto.
Qed.

Lemma capture_masked_values pf logs_dir stdout stderr step_name mode output_file
    allow_parse_error exit_code w :
  masked_values (OutputCapture.capture pf logs_dir stdout stderr step_name mode
                   output_file allow_parse_error exit_code w).2
  = masked_values w.
Proof.
  unfold OutputCapture.capture, OutputCapture.after_tee.
  destruct stderr, output_file, mode;
    unfold OutputCapture._capture_text, OutputCapture._capture_lines,
           OutputCapture._capture_json;
    repeat (match goal with
            | |- context [if ?b then _ else _] => destruct b
            | |- context [match json_loads ?p ?t with _ => _ end] =>
              destruct (json_loads p t)
            end); reflexivity.
Qed.

End Registry.

Section MaskedResults.

Import Secrets StepExecutor.

Lemma contains_empty (s : str) : s <> [] -> contains s [] = false.
Proof. by destruct s. Qed.

Lemma visited_falsy (j : value) (t : str) :
  truthy j = false -> visited_text j t -> t = [].
Proof.
  intros Hf Hv. inversion Hv; subst; simpl in Hf.
  - by destruct t.
  - destruct d; [by apply elem_of_nil in H | done].
  - destruct l; [by apply elem_of_nil in H | done].
Qed.

Lemma mask_capture_hides (masked : list str) (c c' : OutputCapture.CaptureResult) :
  forallb maskable masked = true ->
  mask_capture masked c = inr c' ->
  forall s, s ∈ masked -> hidden_in s c'.
Proof.
  intros Hall Hmask s Hin.
  assert (Hs : s <> []).
  { apply maskable_nonempty. rewrite forallb_forall in Hall. apply Hall.
    by apply list_elem_of_In. }
  assert (Hout : forall out,
            match OutputCapture.output c with
            | Some (ch :: t) => Some (mask_text masked (ch :: t))
            | o => o
            end = Some out -> contains s out = false).
  { intros out. destruct (OutputCapture.output c) as [[| ch t] |];
      intros Heq; try discriminate; injection Heq as <-.
    - by apply contains_empty.
    - exact (mask_text_hides masked (ch :: t) s Hall Hin). }
  assert (Hlines : forall ls l,
            match OutputCapture.lines c with
            | Some (l0 :: ls0) => Some (map (mask_text masked) (l0 :: ls0))
            | o => o
            end = Some ls -> l ∈ ls -> contains s l = false).
  { intros ls l. destruct (OutputCapture.lines c) as [[| l0 ls0] |];
      intros Heq Hl; try discriminate; injection Heq as <-.
    - by apply elem_of_nil in Hl.
    - apply elem_of_cons in Hl as [-> | Hl];
        [exact (mask_text_hides masked l0 s Hall Hin) |].
      apply list_elem_of_fmap in Hl as (x & -> & _).
      exact (mask_text_hides masked x s Hall Hin). }
  unfold mask_capture in Hmask.
  destruct (OutputCapture.json_data c) as [j |].
  - destruct (truthy j) eqn:Htruthy.
    + destruct (mask_json masked j) as [e | j'] eqn:Hj; [discriminate |].
      inversion Hmask; subst. split; [exact Hout |]. split; [exact Hlines |].
      cbn. intros j0 t [= <-] Hvis.
      unfold mask_json in Hj. destruct j; try rewrite Htruthy in Hj; simpl in Hj;
        try (destruct masked; [by apply elem_of_nil in Hin | discriminate]).
      inversion Hj; subst. rewrite mask_dict_entry in Hvis.
      exact (mask_entry_hides masked Hall _ t s Hvis Hin).
    + inversion Hmask; subst. split; [exact Hout |]. split; [exact Hlines |].
      cbn. intros j0 t [= <-] Hvis.
      rewrite (visited_falsy _ _ Htruthy Hvis). by apply contains_empty.
  - inversion Hmask; subst. split; [exact Hout |]. split; [exact Hlines |].
    cbn. by intros j0 t [=].
Qed.

Lemma execute_command_masked_values pf logs_dir step_name cmd env secrets
    timeout_sec mode output_file allow_parse_error w res w' :
  execute_command pf logs_dir step_name cmd env secrets timeout_sec mode
    output_file allow_parse_error w = (res, w') ->
  masked_values w' = masked_values (resolve_secrets pf secrets env w).2.
Proof.
  unfold execute_command.
  destruct (resolve_secrets pf secrets env w) as [ctx w1].
  destruct (missing_secrets ctx); [| by intros [= _ <-]].
  destruct (match cmd with
            | CmdString s => shlex_split pf s
            | CmdArgv argv => inr argv
            end) as [e | command_argv]; [by intros [= _ <-] |].
  destruct (subprocess_run pf _ _) as [rc out err | out err | msg];
    (destruct (OutputCapture.capture _ _ _ _ _ _ _ _ _ _) as [captured w3] eqn:Hcap;
     apply (f_equal snd) in Hcap; simpl in Hcap;
     destruct (mask_capture _ captured) as [e | c'];
     [| destruct (negb _)]; intros [= _ <-];
     rewrite <- Hcap, capture_masked_values; reflexivity).
Qed.

End MaskedResults.

Lemma execute_command_hidden pf logs_dir step_name cmd env secrets
    timeout_sec mode output_file allow_parse_error w r w' :
  StepExecutor.execute_command pf logs_dir step_name cmd env secrets timeout_sec
    mode output_file allow_parse_error w = (inr r, w') ->
  forallb Secrets.maskable (masked_values w') = true ->
  forall s, s ∈ masked_values w' ->
    StepExecutor.hidden_in s (StepExecutor.capture_result r).
Proof.
  intros Hrun Hall s Hin.
  assert (Hs : s <> []).
  { apply maskable_nonempty. rewrite forallb_forall in Hall. apply Hall.
    by apply list_elem_of_In. }
  unfold StepExecutor.execute_command in Hrun.
  destruct (Secrets.resolve_secrets pf secrets env w) as [ctx w1].
  destruct (Secrets.missing_secrets ctx) as [| m0 ms].
  - destruct (match cmd with
              | StepExecutor.CmdString s => shlex_split pf s
              | StepExecutor.CmdArgv argv => inr argv
              end) as [e | command_argv]; [discriminate |].
    destruct (subprocess_run pf _ _) as [rc out err | out err | msg];
      (destruct (OutputCapture.capture _ _ _ _ _ _ _ _ _ _) as [captured w3];
       destruct (StepExecutor.mask_capture _ captured) as [e | c'] eqn:Hmask;
       [discriminate |];
       destruct (negb _); inversion Hrun; subst;
       by eapply mask_capture_hides).
  - inversion Hrun; subst. cbn.
    split; [intros out [= <-]; by apply contains_empty |].
    split; [intros ls0 l0 [= <-] Hl; by apply elem_of_nil in Hl |].
    by intros j t [=].
Qed.




(** ** Dependency resolution *)

Section ResolvePatterns.

Import Resolver.

Variables (pf : platform) (workspace : str) (variables : list (str * str)).

Lemma relative_matches_inside (matches : list str) :
  forallb (inside pf workspace) matches = true ->
  forall w, exists w',
    relative_matches pf workspace matches w
    = (inr (omap (fun m => relative_to (realpath pf m) workspace) matches), w').
Proof.
  induction matches as [| m rest IH]; intros Hall w; simpl; [eauto |].
  simpl in Hall. apply andb_true_iff in Hall as [Hm Hrest].
  unfold inside in Hm. apply andb_true_iff in Hm as [Hstart Hrel].
  apply bool_decide_eq_true in Hrel as [rel Hrel].
  rewrite Hstart, Hrel. simpl.
  destruct (IH Hrest (record_probe m w)) as [w' ->]. eauto.
Qed.

Lemma relative_matches_escape (matches : list str) :
  forallb (inside pf workspace) matches = false ->
  forall w, exists msg payload w',
    relative_matches pf workspace matches w = (inl (ValueError msg payload), w').
Proof.
  induction matches as [| m rest IH]; intros Hall w; simpl; [done |].
  simpl in Hall.
  destruct (startswith workspace (realpath pf m)) eqn:Hstart; simpl; [| eauto].
  destruct (relative_to (realpath pf m) workspace) as [rel |] eqn:Hrel; [| eauto].
  unfold inside in Hall. rewrite Hstart, Hrel in Hall.
  rewrite bool_decide_eq_true_2 in Hall by eauto. simpl in Hall.
  destruct (IH Hall (record_probe m w)) as (msg & payload & w' & ->). eauto.
Qed.

Lemma missing_of_cons (required : bool) (p : str) (rest : list str) :
  missing_of pf workspace variables required (p :: rest)
  = (if required then
       if decide (found_for pf workspace variables p = [])
       then [_substitute_variables p variables] else []
     else [])
    ++ missing_of pf workspace variables required rest.
Proof.
  unfold missing_of. destruct required; [| done].
  rewrite filter_cons. by destruct (decide _).
Qed.

Lemma resolve_loop_ok (required : bool) (patterns : list str) :
  forallb (pattern_ok pf workspace variables) patterns = true ->
  forall all_files used missing w, exists used' w',
    resolve_loop pf workspace patterns variables required all_files used missing w
    = (inr (all_files ++ concat (map (found_for pf workspace variables) patterns),
            used',
            missing ++ missing_of pf workspace variables required patterns), w').
Proof.
  induction patterns as [| p rest IH]; intros Hall all_files used missing w.
  - simpl. exists used, w. unfold missing_of. destruct required; simpl;
      by rewrite !app_nil_r.
  - simpl in Hall. apply andb_true_iff in Hall as [Hp Hrest].
    unfold pattern_ok in Hp.
    apply andb_true_iff in Hp as [Hsafe Hin].
    apply andb_true_iff in Hsafe as [Habs Hdots].
    apply negb_true_iff in Habs, Hdots.
    cbn [resolve_loop]. unfold _validate_path_safety. rewrite Habs, Hdots.
    destruct (relative_matches_inside _ Hin
                (record_probe (path_join workspace (_substitute_variables p variables)) w))
      as [w2 ->].
    fold (found_for pf workspace variables p).
    destruct (found_for pf workspace variables p) as [| f fs] eqn:Hfound.
    + destruct (IH Hrest all_files used
                  (if required then missing ++ [_substitute_variables p variables]
                   else missing) w2) as (used' & w' & ->).
      exists used', w'. rewrite missing_of_cons. cbn [map concat].
      rewrite Hfound. rewrite decide_True by done.
      destruct required; simpl; by rewrite <- ?app_assoc.
    + destruct (IH Hrest (all_files ++ f :: fs)
                  (dict_set (_substitute_variables p variables) (f :: fs) used)
                  missing w2) as (used' & w' & ->).
      exists used', w'. rewrite missing_of_cons. cbn [map concat].
      rewrite Hfound. rewrite decide_False by done.
      destruct required; simpl; by rewrite <- ?app_assoc.
Qed.

Lemma resolve_loop_bad (required : bool) (patterns : list str) :
  forallb (pattern_ok pf workspace variables) patterns = false ->
  forall all_files used missing w, exists msg payload w',
    resolve_loop pf workspace patterns variables required all_files used missing w
    = (inl (ValueError msg payload), w').
Proof.
  induction patterns as [| p rest IH]; intros Hall all_files used missing w;
    [done |].
  simpl in Hall. cbn [resolve_loop]. unfold _validate_path_safety.
  destruct (is_absolute (_substitute_variables p variables)) eqn:Habs; [eauto |].
  destruct (bool_decide (lit ".." ∈ path_parts (_substitute_variables p variables)))
    eqn:Hdots; [eauto |].
  destruct (forallb (inside pf workspace)
              (glob pf (path_join workspace (_substitute_variables p variables))))
    eqn:Hin.
  - destruct (relative_matches_inside _ Hin
                (record_probe (path_join workspace (_substitute_variables p variables)) w))
      as [w2 ->].
    unfold pattern_ok in Hall. rewrite Habs, Hdots, Hin in Hall. simpl in Hall.
    destruct (sorted _); by apply IH.
  - destruct (relative_matches_escape _ Hin
                (record_probe (path_join workspace (_substitute_variables p variables)) w))
      as (msg & payload & w2 & ->). eauto.
Qed.

End ResolvePatterns.

Section SortedUnique.

Import Resolver.

Lemma str_ltb_asym (a : str) : forall b, str_ltb a b = true -> str_ltb b a = false.
Proof.
  induction a as [| x a IH]; intros [| y b]; simpl; try done.
  destruct (N.ltb_spec x y) as [Hlt | Hge].
  - intros _. destruct (N.ltb_spec y x); [lia |].
    destruct (N.eqb_spec y x); [lia | done].
  - destruct (N.eqb_spec x y) as [-> | Hne]; [| done].
    rewrite N.ltb_irrefl, N.eqb_refl. apply IH.
Qed.

Lemma insert_sorted_hd (x y : str) (l : list str) :
  not_after y x -> HdRel not_after y l -> HdRel not_after y (insert_sorted str_ltb x l).
Proof.
  intros Hyx Hl. destruct l as [| z l]; simpl; [by constructor |].
  destruct (str_ltb z x); constructor; [by inversion Hl | done].
Qed.

Lemma insert_sorted_sorted (x : str) (l : list str) :
  Sorted not_after l -> Sorted not_after (insert_sorted str_ltb x l).
Proof.
  induction l as [| y l IH]; intros Hs; simpl; [by repeat constructor |].
  inversion Hs as [| ? ? Hl Hhd]; subst.
  destruct (str_ltb y x) eqn:Hlt.
  - constructor; [by apply IH |].
    apply insert_sorted_hd; [| done]. unfold not_after. by apply str_ltb_asym.
  - constructor; [done |]. by constructor.
Qed.

(** [sorted] sorts: no element is after its successor. *)
Lemma sorted_is_sorted (l : list str) : Sorted not_after (sorted l).
Proof.
  unfold sorted, sort_by. induction l as [| x l IH]; simpl; [constructor |].
  by apply insert_sorted_sorted.
Qed.

Lemma unique_spec (all_files : list str) :
  forall seen,
    NoDup (unique seen all_files)
    /\ forall f, f ∈ unique seen all_files <-> f ∈ all_files /\ f ∉ seen.
Proof.
  induction all_files as [| x l IH]; intros seen; simpl.
  - split; [constructor |]. intros f. rewrite elem_of_nil. tauto.
  - case_bool_decide as Hx.
    + destruct (IH seen) as [Hnd Hmem]. split; [done |].
      intros f. rewrite Hmem, elem_of_cons. split; [tauto |].
      intros [[-> | ?] ?]; [done | tauto].
    + destruct (IH (x :: seen)) as [Hnd Hmem]. split.
      * constructor; [| done]. rewrite Hmem, elem_of_cons. tauto.
      * intros f. rewrite !elem_of_cons, Hmem, elem_of_cons.
        split; [intros [-> | [? ?]]; tauto |].
        intros [[-> | ?] ?]; [by left |].
        destruct (decide (f = x)); [by left | right; tauto].
Qed.

End SortedUnique.

(** C9, as the code has it.  A pattern that is absolute or has a [..]
    segment, or that has a match whose real path is outside the workspace,
    makes the resolution of the pattern list raise a [ValueError]; when
    there is none, the result is the concatenation, in pattern order, of
    the sorted matches of each pattern, without the later duplicates, and
    the required patterns without match are reported.  The combined file
    list of a resolution is sorted. *)
Theorem escaping_match_rejected
    (pf : platform) (workspace : str) (patterns : list str)
    (variables : list (str * str)) (required : bool) (w : world) :
  let found := concat (map (Resolver.found_for pf workspace variables) patterns) in
  (forall p, p ∈ patterns ->
     let expanded := Resolver._substitute_variables p variables in
     is_absolute expanded = true
     \/ lit ".." ∈ path_parts expanded
     \/ (exists m, m ∈ glob pf (path_join workspace expanded)
                   /\ Resolver.inside pf workspace m = false) ->
     exists msg payload w',
       Resolver._resolve_patterns pf workspace patterns variables required w
       = (inl (ValueError msg payload), w'))
  /\ (forallb (Resolver.pattern_ok pf workspace variables) patterns = true ->
      exists used w',
        Resolver._resolve_patterns pf workspace patterns variables required w
        = (inr (Resolver.unique [] found, used,
                Resolver.missing_of pf workspace variables required patterns), w'))
  /\ NoDup (Resolver.unique [] found)
  /\ (forall f, f ∈ Resolver.unique [] found <-> f ∈ found)
  /\ (forall p, Sorted Resolver.not_after (Resolver.found_for pf workspace variables p))
  /\ (forall r, Sorted Resolver.not_after (Resolver.files r)).
Proof.
  intros found. split.
  { intros p Hp expanded Hbad.
    assert (Hall : forallb (Resolver.pattern_ok pf workspace variables) patterns = false).
    { apply not_true_is_false. intros Hall. rewrite forallb_forall in Hall.
      specialize (Hall p (proj1 (list_elem_of_In _ _) Hp)).
      unfold Resolver.pattern_ok in Hall. fold expanded in Hall.
      apply andb_true_iff in Hall as [Hsafe Hin].
      apply andb_true_iff in Hsafe as [Habs Hdots].
      apply negb_true_iff in Habs, Hdots.
      destruct Hbad as [Ha | [Hd | (m & Hm & Hout)]].
      - congruence.
      - by apply bool_decide_eq_false in Hdots.
      - rewrite forallb_forall in Hin.
        rewrite (Hin m (proj1 (list_elem_of_In _ _) Hm)) in Hout. done. }
    unfold Resolver._resolve_patterns.
    destruct (resolve_loop_bad pf workspace variables required patterns Hall [] [] [] w)
      as (msg & payload & w' & ->). eauto. }
  split.
  { intros Hall. unfold Resolver._resolve_patterns.
    destruct (resolve_loop_ok pf workspace variables required patterns Hall [] [] [] w)
      as (used & w' & ->). simpl. eauto. }
  destruct (unique_spec found []) as [Hnd Hmem].
  split; [done |]. split.
  { intros f. rewrite Hmem, elem_of_nil. tauto. }
  split; intros; apply sorted_is_sorted.
Qed.

Lemma escaping_match_rejected_witness :
  (exists msg payload w',
     Resolver._resolve_patterns Samples.workspace_with_symlink (lit "/ws")
       [lit "a*"; lit "link.txt"] [] true Samples.empty_world
     = (inl (ValueError msg payload), w'))
  /\ (exists used w',
        Resolver._resolve_patterns Samples.workspace_with_symlink (lit "/ws")
          [lit "b*"; lit "a*"] [] true Samples.empty_world
        = (inr ([lit "b1"; lit "a1"], used, []), w')).
Proof.
  split.
  - apply (proj1 (escaping_match_rejected Samples.workspace_with_symlink (lit "/ws")
                    [lit "a*"; lit "link.txt"] [] true Samples.empty_world)
             (lit "link.txt")).
    + apply list_elem_of_In. vm_compute. tauto.
    + right. right. exists (lit "/ws/link.txt"). split.
      * apply list_elem_of_In. vm_compute. tauto.
      * vm_compute. reflexivity.
  - apply (proj1 (proj2 (escaping_match_rejected Samples.workspace_with_symlink
                           (lit "/ws") [lit "b*"; lit "a*"] [] true
                           Samples.empty_world))).
    vm_compute. reflexivity.
Defined.

(** C9, the claim as stated fails: a match that is a symlink out of the
    workspace is not left out of the result, the resolution raises; and
    the files found for two patterns are not sorted across the patterns. *)
Lemma escaping_match_raises :
  Resolver.resolve Samples.workspace_with_symlink (lit "/ws")
    [(lit "required", [lit "link.txt"])] None Samples.empty_world
  = (inl (ValueError (lit "Path safety violation: symlink escapes workspace")
            [lit "/ws/link.txt"]),
     mkWorld ∅ [] [] [lit "/ws/link.txt"; lit "/ws/link.txt"])
  /\ (Resolver._resolve_patterns Samples.workspace_with_symlink (lit "/ws")
        [lit "*"] [] false Samples.empty_world).1
     = inl (ValueError (lit "Path safety violation: symlink escapes workspace")
              [lit "/ws/link.txt"])
  /\ (Resolver._resolve_patterns Samples.workspace_with_symlink (lit "/ws")
        [lit "b*"; lit "a*"] [] true Samples.empty_world).1
     = inr ([lit "b1"; lit "a1"],
            [(lit "b*", [lit "b1"]); (lit "a*", [lit "a1"])], []).
Proof. repeat split; vm_compute; reflexivity. Qed.

(** ** The state store: persisting *)

Section Persist.

Import State.

Lemma join_snoc (sep : str) (parts : list str) (x : str) :
  join sep (parts ++ [x])
  = match parts with
    | [] => []
    | _ :: _ => join sep parts ++ sep
    end ++ x.
Proof.
  induction parts as [| p ps IH]; [by rewrite app_nil_l |].
  destruct ps as [| q ps]; [simpl; by rewrite <- app_assoc |].
  change (join sep ((p :: q :: ps) ++ [x]))
    with (p ++ sep ++ join sep ((q :: ps) ++ [x])).
  rewrite IH. change (join sep (p :: q :: ps)) with (p ++ sep ++ join sep (q :: ps)).
  by rewrite <- !app_assoc.
Qed.

(** A file of the run directory, by name. *)
Lemma path_join_name (dir : str) (name : string) :
  is_absolute (lit name) = false ->
  path_components (lit name) = [lit name] ->
  exists prefix, forall other,
    is_absolute (lit other) = false ->
    path_components (lit other) = [lit other] ->
    path_join dir (lit other) = prefix ++ lit other.
Proof.
  intros _ _.
  exists (concat (path_root dir)
          ++ match path_components dir with
             | [] => []
             | _ :: _ => join (lit "/") (path_components dir) ++ lit "/"
             end).
  intros other Habs Hcomp. unfold path_join. rewrite Habs, Hcomp.
  unfold path_str. rewrite join_snoc, <- app_assoc.
  destruct (path_root dir), (path_components dir); done.
Qed.

Lemma temp_file_not_state_file (m : StateManager) : temp_file m <> state_file m.
Proof.
  unfold temp_file, state_file.
  change (name_with_suffix (lit "state.json") (lit ".tmp")) with (lit "state.tmp").
  destruct (path_join_name (sm_run_root m) "state.tmp" eq_refl eq_refl) as [prefix H].
  rewrite (H "state.tmp" eq_refl eq_refl), (H "state.json" eq_refl eq_refl).
  intros Heq%app_inv_head. discriminate.
Qed.

Variables (temp target : str).
Hypothesis (Hdistinct : temp <> target).

(** Writing pieces to the temp file changes the temp file only. *)
Lemma appends_spec (chunks : list bytes) :
  forall (files : gmap str bytes) (c0 : bytes),
    files !! temp = Some c0 ->
    foldl apply_fs_op files (map (FsAppend temp) chunks) !! temp
      = Some (c0 ++ concat chunks)
    /\ forall p, p <> temp ->
         foldl apply_fs_op files (map (FsAppend temp) chunks) !! p = files !! p.
Proof.
  induction chunks as [| c chunks IH]; intros files c0 Htemp;
    cbn [map foldl apply_fs_op concat].
  - by rewrite app_nil_r.
  - rewrite Htemp. cbn [default from_option id].
    destruct (IH (<[temp := c0 ++ c]> files) (c0 ++ c)) as [H1 H2];
      [apply lookup_insert_eq |].
    split; [by rewrite H1, <- app_assoc |].
    intros p Hp. rewrite H2 by done. by apply lookup_insert_ne.
Qed.

(** The file system at every point of the sequence "open the temp file,
    write the pieces, rename": the target holds what it held, or, once
    the rename is done, the whole document; no other file changes. *)
Lemma write_then_rename_atomic (chunks : list bytes) (files : gmap str bytes) (k : nat) :
  let ops := FsTruncate temp :: map (FsAppend temp) chunks ++ [FsRename temp target] in
  let files_k := foldl apply_fs_op files (take k ops) in
  (files_k !! target = files !! target
   \/ ((length ops <= k)%nat /\ files_k !! target = Some (concat chunks)))
  /\ ((length ops <= k)%nat -> files_k !! target = Some (concat chunks))
  /\ (forall p, p <> target -> p <> temp -> files_k !! p = files !! p).
Proof.
  intros ops files_k. subst ops files_k.
  destruct k as [| k]; [simpl; split; [by left |]; split; [lia | done] |].
  cbn [take foldl apply_fs_op].
  destruct (decide (k <= length chunks)%nat) as [Hk | Hk].
  - rewrite take_app_le by by rewrite length_map.
    rewrite firstn_map.
    destruct (appends_spec (take k chunks) (<[temp := []]> files) [])
      as [H1 H2]; [apply lookup_insert_eq |].
    split; [left; rewrite H2 by done; by apply lookup_insert_ne |].
    split; [simpl; rewrite length_app, length_map; simpl; lia |].
    intros p Hp1 Hp2. rewrite H2 by done. by apply lookup_insert_ne.
  - rewrite take_ge by (rewrite length_app, length_map; simpl; lia).
    rewrite foldl_app. cbn [foldl apply_fs_op].
    destruct (appends_spec chunks (<[temp := []]> files) [])
      as [H1 H2]; [apply lookup_insert_eq |].
    rewrite H1. simpl.
    assert (Hlen : (length (FsTruncate temp :: map (FsAppend temp) chunks
                            ++ [FsRename temp target]) <= S k)%nat).
    { simpl. rewrite length_app, length_map. simpl. lia. }
    split; [right; split; [exact Hlen | apply lookup_insert_eq] |].
    split; [intros _; apply lookup_insert_eq |].
    intros p Hp1 Hp2. rewrite lookup_insert_ne by done.
    rewrite lookup_delete_ne by done. rewrite H2 by done.
    by apply lookup_insert_ne.
Qed.

End Persist.

Section ParseBack.

Import State.

Lemma dict_get_hit {V} (k : str) (v : V) (d : list (str * V)) :
  dict_get k ((k, v) :: d) = Some v.
Proof. simpl. by rewrite str_eqb_refl. Qed.

Lemma dict_get_miss {V} (k k' : str) (v : V) (d : list (str * V)) :
  k <> k' -> dict_get k ((k', v) :: d) = dict_get k d.
Proof. intros H. simpl. unfold str_eqb. by rewrite bool_decide_eq_false_2. Qed.

Lemma dict_get_nil {V} (k : str) : dict_get k ([] : list (str * V)) = None.
Proof. done. Qed.

Ltac dict_step :=
  first [ rewrite dict_get_hit
        | rewrite dict_get_miss by (vm_compute; discriminate)
        | rewrite dict_get_nil ].

Lemma make_for_each_all_to_dict (fe : list (str * ForEachState)) :
  make_for_each_all (map (fun kv => (kv.1, for_each_to_dict kv.2)) fe) = inr fe.
Proof.
  induction fe as [| [name [its done_ cur]] fe IH]; [done |].
  cbn [map fst snd make_for_each_all]. rewrite IH.
  by vm_compute make_for_each.
Qed.

Lemma from_dict_to_dict (s : RunState) (d : list (str * step_value)) :
  steps s = StepsDict d ->
  exists doc, to_dict s = inr doc /\ from_dict doc = inr (read_back s d).
Proof.
  intros Hsteps. unfold to_dict. rewrite Hsteps. eexists. split; [reflexivity |].
  pose proof (make_for_each_all_to_dict (for_each s)) as Hfe.
  set (fe := map (fun kv => (kv.1, for_each_to_dict kv.2)) (for_each s)) in *.
  set (sd := map (fun kv => (kv.1, step_value_to_dict kv.2)) d).
  unfold from_dict, required, read_back.
  destruct (truthy (run_root s)); cbn [app];
    repeat dict_step; rewrite Hfe; cbn [bind default from_option id];
    repeat dict_step; reflexivity.
Qed.

End ParseBack.

(** C1.  [_write_state] opens [state.tmp] in the run directory, writes the
    document to it piece by piece and renames it over [state.json].  At
    every point of this sequence (after any number [k] of its file
    operations) [state.json] holds exactly what it held before the call,
    or, once the rename is done, the complete new document, which
    [from_dict] reads back as a run state; no other file than these two
    changes.  When the call ends the new document is in place, and
    [load] returns the state it describes as soon as the JSON library
    reads back what it wrote. *)
Theorem atomic_persist
    (pf : platform) (now : str) (m : State.StateManager) (s : State.RunState)
    (w : world) (k : nat) :
  State.state m = Some s ->
  let s' := State.set_updated_at s now in
  let ops := State._write_state_ops pf m s' in
  let files_k := foldl apply_fs_op (fs w) (take k ops) in
  let w' := (State._write_state pf now m w).2 in
  State.temp_file m = path_join (State.sm_run_root m) (lit "state.tmp")
  /\ State.state_file m = path_join (State.sm_run_root m) (lit "state.json")
  /\ State.temp_file m <> State.state_file m
  /\ w' = run_fs_ops ops w
  /\ (files_k !! State.state_file m = fs w !! State.state_file m
      \/ exists doc d,
           State.steps s = State.StepsDict d
           /\ State.to_dict s' = inr doc
           /\ (length ops <= k)%nat
           /\ files_k !! State.state_file m = Some (concat (json_dump_chunks pf doc))
           /\ State.from_dict doc = inr (State.read_back s' d))
  /\ (forall p, p <> State.state_file m -> p <> State.temp_file m ->
        files_k !! p = fs w !! p)
  /\ (forall d, State.steps s = State.StepsDict d ->
        exists doc,
          State.to_dict s' = inr doc
          /\ State.from_dict doc = inr (State.read_back s' d)
          /\ fs w' !! State.state_file m = Some (concat (json_dump_chunks pf doc))
          /\ (json_load pf (concat (json_dump_chunks pf doc)) = inr doc ->
              State.load pf m w'
              = inr (State.set_state m (Some (State.read_back s' d)),
                     State.read_back s' d))).
Proof.
  intros Hstate s' ops files_k w'.
  pose proof (temp_file_not_state_file m) as Hne.
  split; [reflexivity |]. split; [reflexivity |]. split; [exact Hne |].
  assert (Hw' : w' = run_fs_ops ops w).
  { unfold w', State._write_state. rewrite Hstate. reflexivity. }
  split; [exact Hw' |].
  destruct (State.steps s) as [d | v] eqn:Hsteps.
  - destruct (from_dict_to_dict s' d Hsteps) as (doc & Hdoc & Hback).
    assert (Hops : ops = FsTruncate (State.temp_file m)
                         :: map (FsAppend (State.temp_file m)) (json_dump_chunks pf doc)
                         ++ [FsRename (State.temp_file m) (State.state_file m)]).
    { unfold ops, State._write_state_ops. by rewrite Hdoc. }
    destruct (write_then_rename_atomic (State.temp_file m) (State.state_file m) Hne
                (json_dump_chunks pf doc) (fs w) k) as (Hk & Hend & Hother).
    rewrite <- Hops in Hk, Hend, Hother. fold files_k in Hk, Hend, Hother.
    split.
    { destruct Hk as [Hk | [Hlen Hk]]; [by left | right].
      exists doc, d. done. }
    split; [exact Hother |].
    intros d' [= <-]. exists doc. split; [exact Hdoc |]. split; [exact Hback |].
    assert (Hfinal : fs w' !! State.state_file m
                     = Some (concat (json_dump_chunks pf doc))).
    { rewrite Hw'. unfold run_fs_ops; cbn [fs].
      destruct (write_then_rename_atomic (State.temp_file m) (State.state_file m) Hne
                  (json_dump_chunks pf doc) (fs w) (length ops)) as (_ & Hdone & _).
      rewrite <- Hops in Hdone. rewrite take_ge in Hdone by done.
      by apply Hdone. }
    split; [exact Hfinal |].
    intros Hlib. unfold State.load. rewrite Hfinal. cbn [bind].
    rewrite Hlib. cbn [bind]. by rewrite Hback.
  - assert (Hops : ops = [FsTruncate (State.temp_file m)]).
    { unfold ops, State._write_state_ops, State.to_dict. cbn [State.steps s' State.set_updated_at].
      by rewrite Hsteps. }
    assert (Hk : forall p, p <> State.temp_file m -> files_k !! p = fs w !! p).
    { intros p Hp. unfold files_k. rewrite Hops.
      destruct k as [| k]; [done |]. cbn [take foldl apply_fs_op].
      rewrite take_nil. cbn [foldl]. by apply lookup_insert_ne. }
    split; [left; by apply Hk |].
    split; [intros p _ Hp; by apply Hk | by intros d].
Qed.

Lemma atomic_persist_witness :
  let ops := State._write_state_ops Samples.always_fails Samples.sample_manager
               (State.set_updated_at Samples.sample_run_state (lit "2024-01-01T00:00:01+00:00")) in
  length ops = 4%nat
  /\ foldl apply_fs_op (fs Samples.world_with_state) (take 3 ops)
       !! State.state_file Samples.sample_manager = Some (Samples.blit "{old}")
  /\ (foldl apply_fs_op (fs Samples.world_with_state) (take 3 ops)
        !! State.state_file Samples.sample_manager
      = fs Samples.world_with_state !! State.state_file Samples.sample_manager
      \/ exists doc d,
           State.steps Samples.sample_run_state = State.StepsDict d
           /\ State.to_dict (State.set_updated_at Samples.sample_run_state
                               (lit "2024-01-01T00:00:01+00:00")) = inr doc
           /\ (length ops <= 3)%nat
           /\ foldl apply_fs_op (fs Samples.world_with_state) (take 3 ops)
                !! State.state_file Samples.sample_manager
              = Some (concat (json_dump_chunks Samples.always_fails doc))
           /\ State.from_dict doc
              = inr (State.read_back
                       (State.set_updated_at Samples.sample_run_state
                          (lit "2024-01-01T00:00:01+00:00")) d)).
Proof.
  intros ops. split; [vm_compute; reflexivity |].
  split; [vm_compute; reflexivity |].
  exact (proj1 (proj2 (proj2 (proj2 (proj2
           (atomic_persist Samples.always_fails (lit "2024-01-01T00:00:01+00:00")
              Samples.sample_manager Samples.sample_run_state
              Samples.world_with_state 3 eq_refl)))))).
Defined.

(** ** The state store: backups *)

(** C8 (the code at the failing inputs).  Backups are ordered by file
    name, not by age.  After the backups for the steps [d], [c], [b], [a],
    taken in this order, the three that remain are those of [b], [c] and
    [d]: the backup of [a], the most recent, is the one removed, and the
    oldest is kept.  And with the backup of [b] (holding version 1) older
    than that of [a] (holding version 2), both of them valid,
    [attempt_repair] restores version 1. *)
Theorem backups_ordered_by_name :
  (let w := Samples.backups_before ["d"; "c"; "b"; "a"] Samples.world_with_state in
   sorted (State.glob_backups Samples.backup_manager (fs w))
   = map (State.backup_file Samples.backup_manager) [lit "b"; lit "c"; lit "d"]
   /\ fs w !! State.backup_file Samples.backup_manager (lit "a") = None
   /\ fs w !! State.backup_file Samples.backup_manager (lit "d")
      = Some (Samples.blit "{old}"))
  /\ (let state_json := State.state_file Samples.backup_manager in
      let w1 := write_bytes state_json (Samples.blit "v1") Samples.empty_world in
      let w2 := Samples.backups_before ["b"] w1 in
      let w3 := write_bytes state_json (Samples.blit "v2") w2 in
      let w4 := Samples.backups_before ["a"] w3 in
      let w5 := write_bytes state_json (Samples.blit "garbage") w4 in
      fs w5 !! State.backup_file Samples.backup_manager (lit "b")
        = Some (Samples.blit "v1")
      /\ fs w5 !! State.backup_file Samples.backup_manager (lit "a")
         = Some (Samples.blit "v2")
      /\ (exists s2, bind (json_load Samples.reads_versions (Samples.blit "v2"))
                          State.from_dict = inr s2)
      /\ exists m' w',
           State.attempt_repair Samples.reads_versions Samples.backup_manager w5
           = (inr (true, m'), w')
           /\ fs w' !! state_json = Some (Samples.blit "v1")).
Proof.
  split.
  - vm_compute. repeat split; reflexivity.
  - cbv zeta. split; [vm_compute; reflexivity |]. split; [vm_compute; reflexivity |].
    split; [eexists; vm_compute; reflexivity |].
    eexists _, _. split; [vm_compute; reflexivity | vm_compute; reflexivity].
Qed.

(** ** Pointers to step outputs *)

Section PointerFacts.

Import Pointers.

Lemma startswith_app (p t : str) : startswith p (p ++ t) = true.
Proof. induction p as [| c p IH]; [done |]. simpl. by rewrite N.eqb_refl. Qed.

Lemma startswith_split (p t : str) : startswith p t = true -> t = p ++ drop (length p) t.
Proof.
  revert t. induction p as [| c p IH]; intros t H; [done |].
  destruct t as [| x t]; [done |]. simpl in H.
  destruct (N.eqb_spec c x) as [-> |]; [| done]. simpl. f_equal. by apply IH.
Qed.

Lemma span_until_app (c : char) (a b : str) :
  c ∉ a -> span_until c (a ++ c :: b) = (a, c :: b).
Proof.
  induction a as [| x a IH]; intros Hc; simpl.
  - by rewrite N.eqb_refl.
  - apply not_elem_of_cons in Hc as [Hx Ha].
    destruct (N.eqb_spec x c) as [-> |]; [done |]. by rewrite IH.
Qed.

Lemma span_until_none (c : char) (a : str) : c ∉ a -> span_until c a = (a, []).
Proof.
  induction a as [| x a IH]; intros Hc; [done |]. simpl.
  apply not_elem_of_cons in Hc as [Hx Ha].
  destruct (N.eqb_spec x c) as [-> |]; [done |]. by rewrite IH.
Qed.

Lemma span_until_spec (c : char) (t p r : str) :
  span_until c t = (p, r) ->
  t = p ++ r /\ (c ∉ p) /\ (r = [] \/ exists r', r = c :: r').
Proof.
  revert p r. induction t as [| x t IH]; intros p r; simpl.
  - intros [= <- <-]. split; [done |]. split; [apply not_elem_of_nil | by left].
  - destruct (N.eqb_spec x c) as [-> | Hne].
    + intros [= <- <-]. split; [done |]. split; [apply not_elem_of_nil | right; eauto].
    + destruct (span_until c t) as [p' r'] eqn:E. intros [= <- <-].
      destruct (IH p' r' eq_refl) as (-> & Hp & Hr).
      split; [done |]. split; [| done].
      apply not_elem_of_cons. split; [congruence | done].
Qed.

Lemma split_on_app (c : char) (a b : str) :
  c ∉ a -> split_on c (a ++ c :: b) = a :: split_on c b.
Proof.
  induction a as [| x a IH]; intros Hc; simpl.
  - by rewrite N.eqb_refl.
  - apply not_elem_of_cons in Hc as [Hx Ha].
    destruct (N.eqb_spec x c) as [-> |]; [done |]. by rewrite IH.
Qed.

Lemma split_on_none (c : char) (a : str) : c ∉ a -> split_on c a = [a].
Proof.
  induction a as [| x a IH]; intros Hc; [done |]. simpl.
  apply not_elem_of_cons in Hc as [Hx Ha].
  destruct (N.eqb_spec x c) as [-> |]; [done |]. by rewrite IH.
Qed.

Lemma contains_char (c : char) (t : str) : contains [c] t = false <-> c ∉ t.
Proof.
  induction t as [| x t IH]; simpl.
  - split; [intros _; apply not_elem_of_nil | done].
  - rewrite not_elem_of_cons. destruct (N.eqb_spec c x) as [-> | Hne]; simpl.
    + split; [done | intros [? _]; done].
    + rewrite IH. split; [intros ?; split; [congruence | done] | tauto].
Qed.

(** What a pointer that matches is made of. *)
Lemma match_pointer_spec (pointer step_name field_path : str) :
  match_pointer pointer = Some (step_name, field_path) ->
  exists tail,
    pointer = lit "steps." ++ step_name ++ Substitution.dot :: field_path ++ tail
    /\ step_name <> [] /\ (Substitution.dot ∉ step_name)
    /\ field_path <> [] /\ (OutputCapture.lf ∉ field_path)
    /\ (tail = [] \/ tail = [OutputCapture.lf]).
Proof.
  unfold match_pointer.
  destruct (startswith (lit "steps.") pointer) eqn:Hs; [| done].
  apply startswith_split in Hs.
  destruct (span_until Substitution.dot _) as [n after] eqn:E1.
  apply span_until_spec in E1 as (Hrest & Hn & Hafter).
  destruct n as [| c n]; [done |]. destruct after as [| d fields]; [done |].
  destruct Hafter as [? | [r' [= -> ->]]]; [done |].
  destruct (span_until OutputCapture.lf r') as [fp tail] eqn:E2.
  apply span_until_spec in E2 as (Hf & Hfp & Htail).
  destruct fp as [| c' fp]; [done |].
  case_bool_decide as Ht; [| done]. intros [= <- <-].
  exists tail. rewrite Hs, Hrest, Hf. repeat split; try done.
Qed.

Lemma navigate_resolve_path (field_path : str) (parts : list str) :
  forall json v, navigate field_path json parts = inr v ->
                 Substitution._resolve_path json parts = v.
Proof.
  induction parts as [| part rest IH]; intros json v; simpl; [by intros [= ->] |].
  destruct json as [ | | | | | | d]; try done.
  destruct (dict_get part d) as [x |]; [| done]. intros Hnav.
  destruct x; try (by apply IH).
  destruct rest; simpl in Hnav; [by inversion Hnav | done].
Qed.

(** A well-formed pointer matches. *)
Lemma match_pointer_build (step_name field_path : str) :
  step_name <> [] -> Substitution.dot ∉ step_name ->
  field_path <> [] -> OutputCapture.lf ∉ field_path ->
  match_pointer (lit "steps." ++ step_name ++ Substitution.dot :: field_path)
  = Some (step_name, field_path).
Proof.
  intros Hn Hdot Hf Hlf. unfold match_pointer.
  rewrite startswith_app, drop_app_length, span_until_app by done.
  destruct step_name as [| c n]; [done |].
  rewrite span_until_none by done.
  destruct field_path as [| c' f]; [done |].
  by rewrite bool_decide_eq_true_2 by (by left).
Qed.

End PointerFacts.


Ltac pointer_step :=
  cbn [default from_option id Pointers.py_in Pointers.py_getitem bind negb].

(** X1.  A pointer [steps.<Name>.lines] gives the [lines] recorded for
    the step [Name], for every name that is not empty and has neither a
    dot nor a bracket. *)
Theorem pointer_to_lines
    (state sd d : list (str * value)) (name : str) (v : value) :
  dict_get (lit "steps") state = Some (VDict sd) ->
  dict_get name sd = Some (VDict d) ->
  dict_get (lit "lines") d = Some v ->
  name <> [] -> Substitution.dot ∉ name -> 91%N ∉ name ->
  Pointers.resolve state (lit "steps." ++ name ++ lit ".lines") = inr v.
Proof.
  intros Hsteps Hname Hlines Hne Hdot Hbracket.
  unfold Pointers.resolve.
  change (name ++ lit ".lines") with (name ++ Substitution.dot :: lit "lines").
  rewrite match_pointer_build; [| done | done | done |].
  2:{ apply (bool_decide_unpack _). by vm_compute. }
  rewrite Hsteps. pointer_step. rewrite Hname. pointer_step.
  rewrite bool_decide_eq_true_2 by eauto. pointer_step.
  apply contains_char in Hbracket.
  assert (Hb : contains (lit "[") name = false) by exact Hbracket. rewrite Hb.
  rewrite (split_on_none Substitution.dot (lit "lines"))
    by (apply (bool_decide_unpack _); by vm_compute).
  rewrite str_eqb_refl. pointer_step. rewrite Hlines.
  rewrite bool_decide_eq_true_2 by eauto. by pointer_step.
Qed.

Lemma pointer_to_lines_witness :
  Pointers.resolve
    [(lit "steps", VDict [(lit "List", VDict [(lit "lines", VList [VStr (lit "a.txt")])])])]
    (lit "steps." ++ lit "List" ++ lit ".lines")
  = inr (VList [VStr (lit "a.txt")]).
Proof.
  apply (pointer_to_lines _ [(lit "List", VDict [(lit "lines", VList [VStr (lit "a.txt")])])]
           [(lit "lines", VList [VStr (lit "a.txt")])]);
    try reflexivity; try discriminate; apply (bool_decide_unpack _); by vm_compute.
Defined.

(** X2.  Pointers and variables agree: whenever an [items_from] pointer
    written on one line resolves to a value, the variable of the same
    name, substituted in a command over the same [steps], resolves to
    that value too. *)
Theorem pointer_agrees_with_variable
    (state variables : list (str * value)) (pointer : str) (v : value) :
  Pointers.resolve state pointer = inr v ->
  OutputCapture.lf ∉ pointer ->
  dict_get (lit "steps") variables = dict_get (lit "steps") state ->
  Substitution._resolve_variable pointer variables = inr v.
Proof.
  intros Hres Hlf Hsteps. unfold Pointers.resolve in Hres.
  destruct (Pointers.match_pointer pointer) as [[name fp] |] eqn:Hm; [| done].
  apply match_pointer_spec in Hm as (tail & -> & Hname & Hdot & Hfp & Hfplf & Htail).
  assert (tail = []) as ->.
  { destruct Htail as [-> | ->]; [done |]. exfalso. apply Hlf.
    apply elem_of_app; right. apply elem_of_app; right.
    apply elem_of_cons; right. apply elem_of_app; right. by apply elem_of_cons; left. }
  rewrite app_nil_r in *.
  unfold Substitution._resolve_variable.
  change (lit "steps." ++ name ++ Substitution.dot :: fp)
    with (lit "steps" ++ Substitution.dot :: name ++ Substitution.dot :: fp).
  rewrite split_on_app by (apply (bool_decide_unpack _); by vm_compute).
  rewrite split_on_app by done.
  assert (Hkeys : str_eqb (lit "steps") (lit "run") = false
                  /\ str_eqb (lit "steps") (lit "loop") = false
                  /\ str_eqb (lit "steps") (lit "context") = false) by done.
  destruct Hkeys as (-> & -> & ->). rewrite str_eqb_refl.
  assert (Hgo : Substitution._resolve_steps_variable
                  (default (VDict []) (dict_get (lit "steps") variables))
                  (name :: split_on Substitution.dot fp) = inr v).
  { rewrite Hsteps.
    destruct (default (VDict []) (dict_get (lit "steps") state))
      as [ | | | | | | sd]; try done;
      try (cbn [Pointers.py_in Pointers.py_getitem bind] in Hres; by destruct (negb _)).
    + cbn [Pointers.py_in Pointers.py_getitem bind] in Hres.
      cbn [Substitution._resolve_steps_variable].
      destruct (dict_get name sd) as [step_data |] eqn:Hn;
        [| by rewrite bool_decide_eq_false_2 in Hres by (by intros [? ?])].
      rewrite bool_decide_eq_true_2 in Hres by eauto. cbn [negb] in Hres.
      destruct (contains (lit "[") name); [done |].
      destruct (split_on Substitution.dot fp) as [| first rest] eqn:Hsplit; [done |].
      f_equal.
      destruct (str_eqb first (lit "lines")) eqn:Hl.
      * apply bool_decide_eq_true in Hl as ->.
        destruct rest; [| done].
        destruct step_data as [ | | | | | | d]; try done;
          try (cbn [Pointers.py_in Pointers.py_getitem bind] in Hres; by destruct (negb _)).
        cbn [Pointers.py_in Pointers.py_getitem bind] in Hres.
        cbn [Substitution._resolve_path].
        destruct (dict_get (lit "lines") d) as [x |]; [| by destruct (negb _)].
        destruct (negb _); [done |]. inversion Hres; subst. by destruct v.
      * destruct (str_eqb first (lit "json")) eqn:Hj; [| done].
        apply bool_decide_eq_true in Hj as ->.
        destruct step_data as [ | | | | | | d]; try done;
          try (cbn [Pointers.py_in Pointers.py_getitem bind] in Hres; by destruct (negb _)).
        cbn [Pointers.py_in Pointers.py_getitem bind] in Hres.
        cbn [Substitution._resolve_path].
        destruct (dict_get (lit "json") d) as [json |]; [| by destruct (negb _)].
        destruct (negb _); [done |]. cbn [bind] in Hres.
        pose proof (navigate_resolve_path _ _ _ _ Hres) as Hpath.
        destruct json; try exact Hpath.
        destruct rest; simpl in Hres; [by inversion Hres | done]. }
  destruct (dict_get (lit "steps") variables) as [x |]; exact Hgo.
Qed.

Lemma pointer_agrees_with_variable_witness :
  let state :=
    [(lit "steps",
      VDict [(lit "Parse",
              VDict [(lit "json", VDict [(lit "files", VList [VStr (lit "a")])])])])] in
  Substitution._resolve_variable (lit "steps.Parse.json.files") state
  = inr (VList [VStr (lit "a")]).
Proof.
  intros state.
  apply (pointer_agrees_with_variable state state); [reflexivity | | reflexivity].
  apply (bool_decide_unpack _). by vm_compute.
Defined.

(** ** Provider templates and parameters *)

Section RegistryFacts.

Import Providers.

Lemma deep_merge_nil (base : list (str * value)) : _deep_merge base [] = base.
Proof. reflexivity. Qed.

Lemma deep_merge_cons (base : list (str * value)) (key : str) (v : value)
    (rest : list (str * value)) :
  _deep_merge base ((key, v) :: rest)
  = _deep_merge
      match dict_get key base, v with
      | Some (VDict b), VDict o => dict_set key (VDict (_deep_merge b o)) base
      | _, _ => dict_set key v base
      end rest.
Proof.
  unfold _deep_merge. cbn [merge_into].
  destruct (dict_get key base) as [[ | | | | | | b] |]; try reflexivity.
  destruct v; reflexivity.
Qed.

Lemma dict_get_not_key {V} (k : str) (d : list (str * V)) :
  k ∉ map fst d -> dict_get k d = None.
Proof.
  induction d as [| [k' v] d IH]; [done |]. cbn [map fst dict_get].
  rewrite not_elem_of_cons. intros [Hne Hd].
  unfold str_eqb. by rewrite bool_decide_eq_false_2, IH.
Qed.

Lemma deep_merge_lookup_aux (overlay : list (str * value)) :
  forall base k,
    NoDup (map fst overlay) ->
    dict_get k (_deep_merge base overlay)
    = match dict_get k overlay with
      | None => dict_get k base
      | Some (VDict o) =>
        match dict_get k base with
        | Some (VDict b) => Some (VDict (_deep_merge b o))
        | _ => Some (VDict o)
        end
      | Some v => Some v
      end.
Proof.
  induction overlay as [| [key v] rest IH]; intros base k Hnd; [done |].
  cbn [map fst] in Hnd. apply NoDup_cons in Hnd as [Hkey Hrest].
  rewrite deep_merge_cons, IH by done. cbn [dict_get].
  destruct (str_eqb k key) eqn:E.
  - apply bool_decide_eq_true in E as ->.
    rewrite (dict_get_not_key key rest) by done.
    destruct (dict_get key base) as [[ | | | | | | b] |];
      try (rewrite dict_get_set_eq; by destruct v).
    destruct v; by rewrite dict_get_set_eq.
  - assert (Hne : key <> k) by (apply bool_decide_eq_false in E; congruence).
    assert (Hsame : dict_get k
                      match dict_get key base, v with
                      | Some (VDict b), VDict o =>
                        dict_set key (VDict (_deep_merge b o)) base
                      | _, _ => dict_set key v base
                      end = dict_get k base).
    { destruct (dict_get key base) as [[ | | | | | | b] |];
        try (by rewrite dict_get_set_ne).
      destruct v; by rewrite dict_get_set_ne. }
    by rewrite Hsame.
Qed.

End RegistryFacts.

(** X3.  Deep merge of provider parameters, key by key: a key that the
    step does not set keeps the default; a mapping set over a mapping is
    merged in turn; any other value set by the step replaces the
    default. *)
Theorem deep_merge_lookup
    (base overlay : list (str * value)) (k : str) :
  NoDup (map fst overlay) ->
  dict_get k (Providers._deep_merge base overlay)
  = match dict_get k overlay with
    | None => dict_get k base
    | Some (VDict o) =>
      match dict_get k base with
      | Some (VDict b) => Some (VDict (Providers._deep_merge b o))
      | _ => Some (VDict o)
      end
    | Some v => Some v
    end.
Proof. apply deep_merge_lookup_aux. Qed.

Lemma deep_merge_lookup_witness :
  dict_get (lit "model")
    (Providers._deep_merge [(lit "model", VStr (lit "gpt-5")); (lit "t", VInt 1)]
                           [(lit "model", VStr (lit "o3"))])
  = Some (VStr (lit "o3")).
Proof.
  rewrite (deep_merge_lookup _ [(lit "model", VStr (lit "o3"))] (lit "model")).
  - reflexivity.
  - apply (bool_decide_unpack _). by vm_compute.
Defined.

(** X4.  Registering a template and looking it up: a template with a
    command, and in stdin mode without [${PROMPT}] in any token, is
    registered, is then what its name gives (a built-in template of the
    same name is shadowed), and the other names give what they gave
    before; any other template is refused with a [ValueError] and not
    registered. *)
Theorem register_then_get (p : Providers.ProviderTemplate) (r : Providers.ProviderRegistry) :
  let valid :=
    bool_decide (Providers.command p <> [])
    && match Providers.input_mode p with
       | Providers.STDIN =>
         forallb (fun token => negb (contains (lit "${PROMPT}") token)) (Providers.command p)
       | Providers.ARGV => true
       end in
  if valid then
    exists r', Providers.register p r = inr r'
               /\ Providers.get r' (Providers.name p) = Some p
               /\ (forall n, n <> Providers.name p -> Providers.get r' n = Providers.get r n)
  else exists msg payload, Providers.register p r = inl (ValueError msg payload).
Proof.
  intros valid. unfold Providers.register, Providers.validate.
  assert (Hfilter : forall l : list str,
             forallb (fun token => negb (contains (lit "${PROMPT}") token)) l = true
             <-> filter (fun token => contains Providers.prompt_placeholder token = true) l = []).
  { induction l as [| t l IH]; [done |]. cbn [forallb]. rewrite filter_cons.
    change Providers.prompt_placeholder with (lit "${PROMPT}").
    destruct (contains (lit "${PROMPT}") t) eqn:E; cbn [negb andb].
    - rewrite decide_True by done. split; done.
    - rewrite decide_False by done. exact IH. }
  destruct (Providers.command p) as [| token tokens] eqn:Hcmd.
  { subst valid. cbn. by eexists _, _. }
  assert (Hv : valid = match Providers.input_mode p with
                       | Providers.STDIN =>
                         forallb (fun token => negb (contains (lit "${PROMPT}") token))
                                 (token :: tokens)
                       | Providers.ARGV => true
                       end).
  { subst valid. by rewrite bool_decide_eq_true_2. }
  rewrite Hv. clear Hv valid. cbn [app].
  assert (Hok : forall r0, r0 = Providers.mkRegistry
                                  (dict_set (Providers.name p) p (Providers._providers r)) ->
                 Providers.get r0 (Providers.name p) = Some p
                 /\ (forall n, n <> Providers.name p -> Providers.get r0 n = Providers.get r n)).
  { intros r0 ->. unfold Providers.get. cbn [Providers._providers].
    rewrite dict_get_set_eq. split; [done |]. intros n Hn.
    by rewrite dict_get_set_ne. }
  destruct (Providers.input_mode p).
  - eexists. split; [reflexivity | by apply Hok].
  - destruct (forallb _ (token :: tokens)) eqn:Hall.
    + apply Hfilter in Hall. rewrite Hall. cbn [map].
      eexists. split; [reflexivity | by apply Hok].
    + assert (Hne : filter (fun t => contains Providers.prompt_placeholder t = true)
                           (token :: tokens) <> []).
      { intros Hnil. apply Hfilter in Hnil. congruence. }
      destruct (filter _ (token :: tokens)) as [| bad rest]; [done |].
      cbn [map]. by eexists _, _.
Qed.

Section BuildCommand.

Import Providers.

Lemma startswith_absent (c : char) (old t : str) : c ∉ t -> startswith (c :: old) t = false.
Proof.
  destruct t as [| x t]; [done |]. rewrite not_elem_of_cons. intros [Hne _].
  simpl. by destruct (N.eqb_spec c x).
Qed.

Lemma replace_fuel_absent (c : char) (old new : str) (fuel : nat) :
  forall t, c ∉ t -> replace_fuel fuel (c :: old) new t = t.
Proof.
  induction fuel as [| f IH]; intros t Hc; [done |].
  cbn [replace_fuel]. rewrite startswith_absent by done.
  destruct t as [| x t]; [done |].
  apply not_elem_of_cons in Hc as [_ Hc]. by rewrite IH.
Qed.

Lemma replace_absent (c : char) (old new t : str) : c ∉ t -> replace (c :: old) new t = t.
Proof. intros Hc. unfold replace. by apply replace_fuel_absent. Qed.

Lemma contains_absent (c : char) (old t : str) : c ∉ t -> contains (c :: old) t = false.
Proof.
  induction t as [| x t IH]; intros Hc.
  - done.
  - cbn [contains]. rewrite startswith_absent by done.
    apply not_elem_of_cons in Hc as [_ Hc]. by rewrite IH.
Qed.

Lemma match_token_absent (t : str) : Substitution.dollar ∉ t -> Substitution.match_token t = None.
Proof.
  destruct t as [| c1 [| c2 body]]; try done.
  rewrite not_elem_of_cons. intros [Hne _]. unfold Substitution.match_token.
  by destruct (N.eqb_spec c1 Substitution.dollar).
Qed.

Lemma find_placeholders_absent (fuel : nat) :
  forall t, Substitution.dollar ∉ t -> find_placeholders fuel t = [].
Proof.
  induction fuel as [| f IH]; intros t Hc; [done |].
  destruct t as [| x t]; [done |]. cbn [find_placeholders].
  rewrite match_token_absent by done.
  apply not_elem_of_cons in Hc as [_ Hc]. by apply IH.
Qed.

(** A token without any of the three special characters is copied. *)
Lemma build_token_plain provider params context prompt token missing invalid :
  Substitution.dollar ∉ token -> marker0 ∉ token -> marker1 ∉ token ->
  build_token provider params context prompt token missing invalid
  = inr (token, missing, invalid).
Proof.
  intros Hd H0 H1. unfold build_token.
  change (lit "$$") with (Substitution.dollar :: lit "$").
  change (lit "$${") with (Substitution.dollar :: lit "${").
  rewrite (replace_absent Substitution.dollar _ _ token) by done.
  rewrite (replace_absent Substitution.dollar _ _ token) by done.
  change prompt_placeholder with (Substitution.dollar :: lit "{PROMPT}").
  rewrite contains_absent by done.
  rewrite find_placeholders_absent by done. cbn [substitute_placeholders].
  change [marker0] with (marker0 :: @nil char).
  rewrite (replace_absent marker0) by done.
  by rewrite (replace_absent marker1) by done.
Qed.

(** The token [${PROMPT}] becomes the prompt in argv mode. *)
Lemma build_token_prompt provider params context (p : str) missing invalid :
  input_mode provider = ARGV -> p <> [] -> marker0 ∉ p -> marker1 ∉ p ->
  build_token provider params context (Some p) (lit "${PROMPT}") missing invalid
  = inr (p, missing, invalid).
Proof.
  intros Hmode Hp H0 H1. unfold build_token. rewrite Hmode.
  change (replace (lit "$${") (marker1 :: lit "{")
            (replace (lit "$$") [marker0] (lit "${PROMPT}")))
    with (lit "${PROMPT}").
  change (contains prompt_placeholder (lit "${PROMPT}")) with true.
  change (find_placeholders (length (lit "${PROMPT}")) (lit "${PROMPT}"))
    with [lit "PROMPT"].
  cbn [substitute_placeholders]. rewrite str_eqb_refl.
  destruct p as [| c p]; [done |].
  assert (Hrep : replace prompt_placeholder (c :: p) (lit "${PROMPT}") = c :: p).
  { vm_compute. f_equal. apply (app_nil_r p). }
  rewrite Hrep.
  change [marker0] with (marker0 :: @nil char).
  rewrite (replace_absent marker0) by done.
  by rewrite (replace_absent marker1) by done.
Qed.

End BuildCommand.



Lemma build_command_stdin (provider : Providers.ProviderTemplate)
    (params context : list (str * value)) (p1 p2 : option str) :
  Providers.input_mode provider = Providers.STDIN ->
  Providers._build_command provider params context p1
  = Providers._build_command provider params context p2.
Proof.
  intros Hmode. unfold Providers._build_command.
  generalize (@nil str) at 1 3. generalize (@nil str). generalize false.
  induction (Providers.command provider) as [| token tokens IH];
    intros invalid missing command; [done |].
  cbn [Providers.build_tokens].
  assert (Htoken : Providers.build_token provider params context p1 token missing invalid
                   = Providers.build_token provider params context p2 token missing invalid).
  { unfold Providers.build_token. rewrite Hmode.
    destruct (Providers.substitute_placeholders _ _ _ _ _) as [e | [processed missing']];
      [done |].
    by destruct (contains _ _). }
  rewrite Htoken.
  destruct (Providers.build_token provider params context p2 token missing invalid)
    as [e | [[processed missing'] invalid']]; [done |].
  apply IH.
Qed.

(** X6.  In stdin mode the prompt stays out of the command line: when an
    invocation is prepared for a stdin-mode provider, it carries the
    prompt for the standard input, and for any other prompt the same
    call prepares the same command, environment and registry of masked
    values, carrying that other prompt. *)
Theorem stdin_prompt_stays_out_of_command
    (pf : platform) (r : Providers.ProviderRegistry) (provider_name : str)
    (pparams : Providers.ProviderParams) (context : list (str * value))
    (p1 p2 : option str) (env : option (list (str * str)))
    (secrets : option (list str)) (timeout_sec : option Z) (w w' : world)
    (inv : Providers.ProviderInvocation) :
  (exists provider, Providers.get r provider_name = Some provider
                    /\ Providers.input_mode provider = Providers.STDIN) ->
  Providers.prepare_invocation pf r provider_name pparams context p1 env secrets
    timeout_sec w = (inr (inr inv), w') ->
  Providers.prompt inv = p1
  /\ Providers.prepare_invocation pf r provider_name pparams context p2 env secrets
       timeout_sec w
     = (inr (inr (Providers.mkInvocation (Providers.inv_command inv) Providers.STDIN p2
                    (Providers.inv_output_file inv) (Providers.inv_env inv)
                    (Providers.inv_timeout_sec inv))), w').
Proof.
  intros (provider & Hget & Hmode). unfold Providers.prepare_invocation.
  rewrite Hget.
  destruct (Providers._substitute_params pf _ context) as [e | [substituted errors]];
    [done |].
  destruct errors as [| err errors]; [| done].
  rewrite (build_command_stdin provider substituted context p1 p2 Hmode).
  destruct (Providers._build_command provider substituted context p2)
    as [e | [[command missing] invalid]]; [done |].
  destruct invalid; [done |]. destruct missing as [| m0 missing]; [| done].
  destruct (Secrets.resolve_secrets pf secrets env w) as [ctx w1].
  destruct (Secrets.missing_secrets ctx); [| done].
  rewrite Hmode. intros [= <- <-]. done.
Qed.

Lemma stdin_prompt_stays_out_of_command_witness :
  exists inv w',
    Providers.prepare_invocation Samples.always_fails Providers.new_registry (lit "codex")
      (Providers.mkParams None None None) [] (Some (lit "second prompt")) None None None
      Samples.empty_world = (inr (inr inv), w')
    /\ Providers.inv_command inv
       = [lit "codex"; lit "exec"; lit "--model"; lit "gpt-5";
          lit "--dangerously-bypass-approvals-and-sandbox"]
    /\ Providers.prompt inv = Some (lit "second prompt").
Proof.
  eexists _, _. split.
  - refine (proj2 (stdin_prompt_stays_out_of_command Samples.always_fails
                     Providers.new_registry (lit "codex")
                     (Providers.mkParams None None None) []
                     (Some (lit "first prompt")) (Some (lit "second prompt"))
                     None None None Samples.empty_world _ _ _ _)).
    + eexists. split; reflexivity.
    + vm_compute. reflexivity.
  - split; vm_compute; reflexivity.
Defined.

(** ** Waiting for files *)

(** X7.  A wait on an unsafe pattern ends at once: an absolute pattern or
    one with a [..] segment gives exit code 2 with error type
    [path_safety_error], no poll and no file, and touches nothing, unless
    the pattern holds a [${], in which case it is let through
    unchecked. *)
Theorem wait_rejects_unsafe_pattern
    (sr : WaitFor.surroundings) (config : WaitFor.WaitForConfig) (fuel : nat) (w : world) :
  let pattern := WaitFor.glob_pattern config in
  (contains (lit "${") pattern = false ->
   is_absolute pattern = true \/ lit ".." ∈ path_parts pattern ->
   exists msg,
     WaitFor.execute sr config fuel w
     = Some (WaitFor.mkResult [] 0 0 false 2
               (Some (OutputCapture.mkError (lit "path_safety_error") msg
                        [(lit "glob_pattern", VStr pattern)])), w))
  /\ (contains (lit "${") pattern = true ->
      WaitFor._validate_path_safety pattern = None
      /\ WaitFor.execute sr config fuel w
         = WaitFor.poll_loop sr config fuel (WaitFor.clock sr 0) 1 0 [] w).
Proof.
  intros pattern. unfold WaitFor.execute, WaitFor._validate_path_safety.
  fold pattern. split.
  - intros -> [-> | Hdots]; [by eexists |].
    destruct (is_absolute pattern); [by eexists |].
    rewrite bool_decide_eq_true_2 by done. by eexists.
  - by intros ->.
Qed.

Lemma wait_rejects_unsafe_pattern_witness :
  WaitFor.exit_code
    (default (WaitFor.mkResult [] 0 0 false 0 None)
       (fst <$> WaitFor.execute
                  (WaitFor.mkSurroundings Samples.always_fails (fun n => Z.of_nat n)
                     (fun _ _ => []))
                  (WaitFor.mkConfig (lit "../inbox/*.task") 300 500 1 (lit "/ws"))
                  5 Samples.empty_world)) = 2.
Proof.
  destruct (proj1 (wait_rejects_unsafe_pattern
                     (WaitFor.mkSurroundings Samples.always_fails (fun n => Z.of_nat n)
                        (fun _ _ => []))
                     (WaitFor.mkConfig (lit "../inbox/*.task") 300 500 1 (lit "/ws"))
                     5 Samples.empty_world)) as [msg ->].
  - reflexivity.
  - right. apply (bool_decide_unpack _). by vm_compute.
  - reflexivity.
Defined.

Section WaitFacts.

Import WaitFor.

Variables (sr : surroundings) (config : WaitForConfig).

Lemma wait_relative_matches_spec (matches : list str) :
  forall w,
    let out := (relative_matches (base sr) (workspace config) matches w).1 in
    let w' := (relative_matches (base sr) (workspace config) matches w).2 in
    (forall f, f ∈ out ->
       exists m, m ∈ matches
                 /\ relative_to m (workspace config) = Some f
                 /\ is_Some (relative_to (realpath (base sr) m) (workspace config)))
    /\ fs w' = fs w /\ spawned w' = spawned w /\ masked_values w' = masked_values w.
Proof.
  induction matches as [| m rest IH]; intros w; cbn [relative_matches].
  - split; [intros f Hf; by apply elem_of_nil in Hf | done].
  - specialize (IH (record_probe m w)).
    destruct (relative_matches (base sr) (workspace config) rest (record_probe m w))
      as [out w''] eqn:E.
    cbn [fst snd] in IH. destruct IH as (Hout & Hfs & Hsp & Hmv).
    assert (Hrest : forall f, f ∈ out ->
              exists m0, m0 ∈ m :: rest
                         /\ relative_to m0 (workspace config) = Some f
                         /\ is_Some (relative_to (realpath (base sr) m0) (workspace config))).
    { intros f Hf. destruct (Hout f Hf) as (m0 & Hm0 & H1 & H2).
      exists m0. split; [by apply elem_of_cons; right | done]. }
    destruct (relative_to (realpath (base sr) m) (workspace config)) as [x |] eqn:Hreal;
      [destruct (relative_to m (workspace config)) as [rel |] eqn:Hrel |];
      cbn [fst snd]; (split; [| done]); try exact Hrest.
    intros f [-> | Hf]%elem_of_cons; [| by apply Hrest].
    exists m. split; [by apply elem_of_cons; left |]. split; [done |].
    rewrite Hreal. eauto.
Qed.

End WaitFacts.

Section WaitLoop.

Import WaitFor.

Variables (sr : surroundings) (config : WaitForConfig).

Lemma find_matching_files_spec (poll : nat) (w : world) :
  let r := _find_matching_files sr (workspace config) poll
             (path_join (workspace config) (glob_pattern config)) w in
  found_by_a_poll sr config r.1
  /\ fs r.2 = fs w /\ spawned r.2 = spawned w /\ masked_values r.2 = masked_values w.
Proof.
  unfold _find_matching_files.
  pose proof (wait_relative_matches_spec sr config
                (glob_at sr poll (path_join (workspace config) (glob_pattern config)))
                (record_probe (path_join (workspace config) (glob_pattern config)) w))
    as (Hout & Hfs & Hsp & Hmv).
  destruct (relative_matches _ _ _ _) as [found w'].
  cbn [fst snd] in *. split; [| done]. split; [apply sorted_is_sorted |].
  intros f Hf. apply sort_by_elem in Hf.
  destruct (Hout f Hf) as (m & Hm & H1 & H2). by exists poll, m.
Qed.

Lemma poll_loop_spec (fuel : nat) :
  forall start_time reading poll_count matched_files w r w',
    found_by_a_poll sr config matched_files ->
    (poll_count = 0%nat -> matched_files = []) ->
    ((0 < poll_count)%nat -> Z.of_nat (length matched_files) < min_count config) ->
    poll_loop sr config fuel start_time reading poll_count matched_files w = Some (r, w') ->
    found_by_a_poll sr config (files r)
    /\ error r = None
    /\ ((exit_code r = 0 /\ timed_out r = false
         /\ min_count config <= Z.of_nat (length (files r)) /\ 1 <= WaitFor.poll_count r)
        \/ (exit_code r = 124 /\ timed_out r = true
            /\ (WaitFor.poll_count r = 0 -> files r = [])
            /\ (0 < WaitFor.poll_count r ->
                Z.of_nat (length (files r)) < min_count config)))
    /\ fs w' = fs w /\ spawned w' = spawned w /\ masked_values w' = masked_values w.
Proof.
  induction fuel as [| f IH];
    intros start_time reading poll_count matched_files w r w' Hfound Hzero Hfew Hrun;
    [done |].
  cbn [poll_loop] in Hrun.
  destruct (clock sr reading <? start_time + timeout_sec config * 1000000).
  - pose proof (find_matching_files_spec poll_count w) as Hfind.
    cbn [pred] in Hrun.
    destruct (_find_matching_files sr (workspace config) poll_count _ w)
      as [matched w1] eqn:E.
    cbn [fst snd] in Hfind. destruct Hfind as (Hm & Hfs & Hsp & Hmv).
    destruct (Z.leb_spec (min_count config) (Z.of_nat (length matched))) as [Hle | Hlt].
    + inversion Hrun; subst. cbn. split; [done |]. split; [done |].
      split; [left; repeat split; [done | lia] | done].
    + apply IH in Hrun; [| done | done | done].
      destruct Hrun as (H1 & H2 & H3 & H4 & H5 & H6).
      split; [done |]. split; [done |]. split; [done |].
      split; [by rewrite H4 |]. split; [by rewrite H5 | by rewrite H6].
  - inversion Hrun; subst. cbn. split; [done |]. split; [done |].
    split; [| done]. right. repeat split; [intros ?; apply Hzero; lia | intros ?; apply Hfew; lia].
Qed.

End WaitLoop.

(** X8.  What a wait returns.  The files are sorted paths relative to the
    workspace of matches found at a poll, and only of matches whose real
    path is inside the workspace (a symlink that leaves it is left out).
    The wait ends in one of three ways: exit code 0 after at least one
    poll, with at least [min_count] files; exit code 124 with [timed_out]
    set, the last poll having found fewer than [min_count] files; or exit
    code 2 for an unsafe pattern.  It spawns nothing, writes no file and
    registers no secret. *)
Theorem wait_result_shape
    (sr : WaitFor.surroundings) (config : WaitFor.WaitForConfig) (fuel : nat)
    (w w' : world) (r : WaitFor.WaitForResult) :
  WaitFor.execute sr config fuel w = Some (r, w') ->
  WaitFor.found_by_a_poll sr config (WaitFor.files r)
  /\ ((WaitFor.exit_code r = 0 /\ WaitFor.timed_out r = false
       /\ WaitFor.error r = None
       /\ WaitFor.min_count config <= Z.of_nat (length (WaitFor.files r))
       /\ 1 <= WaitFor.poll_count r)
      \/ (WaitFor.exit_code r = 124 /\ WaitFor.timed_out r = true
          /\ WaitFor.error r = None
          /\ (0 < WaitFor.poll_count r ->
              Z.of_nat (length (WaitFor.files r)) < WaitFor.min_count config))
      \/ (WaitFor.exit_code r = 2 /\ WaitFor.timed_out r = false
          /\ WaitFor.files r = [] /\ WaitFor.poll_count r = 0
          /\ exists e, WaitFor.error r = Some e
                       /\ OutputCapture.err_type e = lit "path_safety_error"))
  /\ fs w' = fs w /\ spawned w' = spawned w /\ masked_values w' = masked_values w.
Proof.
  unfold WaitFor.execute.
  assert (Hnil : WaitFor.found_by_a_poll sr config []).
  { split; [constructor | intros f Hf; by apply elem_of_nil in Hf]. }
  destruct (WaitFor._validate_path_safety _) as [msg |].
  - intros [= <- <-]. cbn. split; [done |]. split; [| done].
    right. right. repeat split. by eexists.
  - intros Hrun. apply poll_loop_spec in Hrun; [| done | done | lia].
    destruct Hrun as (H1 & H2 & H3 & H4).
    split; [done |]. split; [| done].
    destruct H3 as [(? & ? & ? & ?) | (? & ? & ? & ?)]; [left | right; left]; done.
Qed.

Lemma wait_result_shape_witness :
  let sr := WaitFor.mkSurroundings Samples.always_fails (fun n => Z.of_nat n)
              (fun poll _ => match poll with
                             | O => []
                             | S _ => [lit "/ws/a2"; lit "/ws/a1"]
                             end) in
  let config := WaitFor.mkConfig (lit "a*") 300 500 2 (lit "/ws") in
  exists r w',
    WaitFor.execute sr config 5 Samples.empty_world = Some (r, w')
    /\ WaitFor.files r = [lit "a1"; lit "a2"]
    /\ WaitFor.poll_count r = 2
    /\ fs w' = fs Samples.empty_world.
Proof.
  intros sr config. eexists _, _.
  split; [vm_compute; reflexivity |]. split; [reflexivity |]. split; [reflexivity |].
  refine (proj1 (proj2 (proj2 (wait_result_shape sr config 5 Samples.empty_world _ _ _)))).
  vm_compute. reflexivity.
Defined.

Lemma poll_loop_total (sr : WaitFor.surroundings) (config : WaitFor.WaitForConfig)
    (fuel : nat) :
  forall reading poll_count matched_files w,
    (forall n, WaitFor.clock sr 0 + Z.of_nat n <= WaitFor.clock sr n) ->
    (0 < fuel)%nat ->
    WaitFor.timeout_sec config * 1000000 - Z.of_nat reading < Z.of_nat fuel ->
    WaitFor.poll_loop sr config fuel (WaitFor.clock sr 0) reading poll_count
                      matched_files w <> None.
Proof.
  induction fuel as [| f IH]; intros reading poll_count matched_files w Hclock Hpos Hfuel.
  - lia.
  - cbn [WaitFor.poll_loop].
    destruct (Z.ltb_spec (WaitFor.clock sr reading)
                (WaitFor.clock sr 0 + WaitFor.timeout_sec config * 1000000)) as [Hlt | Hge];
      [| done].
    destruct (WaitFor._find_matching_files _ _ _ _ _) as [matched w1].
    destruct (_ <=? _); [discriminate |].
    pose proof (Hclock reading). apply IH; [done | lia | lia].
Qed.

(** X9.  A wait ends.  When every reading of the clock is later than the
    one before (by a microsecond at least) and the timeout is not
    negative, the wait returns a result within as many rounds as the
    timeout has microseconds, whatever the directory scans find. *)
Theorem wait_ends_when_clock_advances
    (sr : WaitFor.surroundings) (config : WaitFor.WaitForConfig) (w : world) :
  (forall n, WaitFor.clock sr n + 1 <= WaitFor.clock sr (S n)) ->
  0 <= WaitFor.timeout_sec config ->
  exists r w',
    WaitFor.execute sr config
      (S (Z.to_nat (WaitFor.timeout_sec config * 1000000))) w = Some (r, w').
Proof.
  intros Hclock Htimeout. unfold WaitFor.execute.
  destruct (WaitFor._validate_path_safety _); [by eexists _, _ |].
  destruct (WaitFor.poll_loop sr config _ _ _ _ _ _) as [[r w'] |] eqn:Hloop;
    [by eexists _, _ |].
  exfalso. revert Hloop. apply poll_loop_total; [| lia | lia].
  induction n as [| n IHn]; [simpl; lia |]. specialize (Hclock n). lia.
Qed.

Lemma wait_ends_when_clock_advances_witness :
  exists r w',
    WaitFor.execute
      (WaitFor.mkSurroundings Samples.always_fails (fun n => Z.of_nat n * 600000)
         (fun _ _ => []))
      (WaitFor.mkConfig (lit "inbox/*.task") 2 500 1 (lit "/ws"))
      (S (Z.to_nat (2 * 1000000))) Samples.empty_world = Some (r, w').
Proof.
  apply (wait_ends_when_clock_advances
           (WaitFor.mkSurroundings Samples.always_fails (fun n => Z.of_nat n * 600000)
              (fun _ _ => []))
           (WaitFor.mkConfig (lit "inbox/*.task") 2 500 1 (lit "/ws"))
           Samples.empty_world).
  - intros n. cbn [WaitFor.clock]. lia.
  - cbn [WaitFor.timeout_sec]. lia.
Defined.

(** ** Injection of dependencies into prompts *)

Section ListInjection.

Import Injector.

Lemma utf8_len_app (a b : str) : utf8_len (a ++ b) = (utf8_len a + utf8_len b)%nat.
Proof. induction a as [| c a IH]; [done |]. cbn [app]. rewrite !utf8_len_cons, IH. lia. Qed.

Lemma encoded_len_app (a b : str) :
  OutputCapture.encoded_len (a ++ b)
  = OutputCapture.encoded_len a + OutputCapture.encoded_len b.
Proof. unfold OutputCapture.encoded_len. rewrite utf8_len_app. lia. Qed.

Lemma encoded_len_nonneg (a : str) : 0 <= OutputCapture.encoded_len a.
Proof. unfold OutputCapture.encoded_len. lia. Qed.

Lemma encoded_len_join (x : str) (ls : list str) :
  OutputCapture.encoded_len (join [OutputCapture.lf] (x :: ls))
  = OutputCapture.encoded_len x + lines_size ls.
Proof.
  revert x. induction ls as [| l ls IH]; intros x.
  - cbn. lia.
  - change (join [OutputCapture.lf] (x :: l :: ls))
      with (x ++ [OutputCapture.lf] ++ join [OutputCapture.lf] (l :: ls)).
    rewrite !encoded_len_app, IH. cbn [lines_size foldr].
    change (OutputCapture.encoded_len [OutputCapture.lf]) with 1.
    fold (lines_size ls). lia.
Qed.

Lemma lines_size_app (a b : list str) : lines_size (a ++ b) = lines_size a + lines_size b.
Proof.
  unfold lines_size. induction a as [| l a IH]; cbn [app foldr]; [done | rewrite IH; lia].
Qed.

Lemma shown_lines_spec (files : list str) :
  forall total_size,
    let shown := shown_lines files total_size in
    shown = map bullet (take (length shown) files)
    /\ (length shown <= length files)%nat
    /\ (shown <> [] \/ total_size <= MAX_INJECTION_SIZE ->
        total_size + lines_size shown <= MAX_INJECTION_SIZE)
    /\ (length shown = length files -> files <> [] ->
        total_size + lines_size (map bullet files) <= MAX_INJECTION_SIZE).
Proof.
  induction files as [| f files IH]; intros total_size; cbn [shown_lines].
  - cbn. repeat split; try done. intros [? | ?]; [done | lia].
  - rewrite encoded_len_app. change (OutputCapture.encoded_len [OutputCapture.lf]) with 1.
    destruct (Z.ltb_spec MAX_INJECTION_SIZE
                (total_size + (OutputCapture.encoded_len (bullet f) + 1))) as [Hover | Hfit].
    + cbn. repeat split; try done; try lia. intros [? | ?]; [done | lia].
    + specialize (IH (total_size + (OutputCapture.encoded_len (bullet f) + 1))).
      cbn zeta in IH. destruct IH as (Heq & Hlen & Hsize & Hall).
      cbn [length take map lines_size foldr]. fold (lines_size (shown_lines files
        (total_size + (OutputCapture.encoded_len (bullet f) + 1)))).
      split; [by rewrite <- Heq |]. split; [lia |]. split.
      * intros _. specialize (Hsize (or_intror Hfit)). lia.
      * intros Hl _. destruct files as [| g files].
        -- cbn [map lines_size foldr]. lia.
        -- fold (lines_size (map bullet (g :: files))).
           specialize (Hall ltac:(lia) ltac:(done)). lia.
Qed.

End ListInjection.

(** X10.  The list of files injected into a prompt.  When the instruction
    followed by one line per file fits in 256 KiB, that is the injected
    text and nothing is reported.  Otherwise the text is the instruction,
    the lines of the first [k] files and a line telling how many files
    were left out; the reported counts add up to the number of files; at
    least one file is left out when there is one; and when the
    instruction alone fits, what comes before the last line fits in
    256 KiB. *)
Theorem list_injection_is_a_prefix_of_the_files (files : list str) (instruction : str) :
  let full := join [OutputCapture.lf] (instruction :: map Injector.bullet files) in
  let r := Injector._generate_list_injection files instruction in
  if Injector.MAX_INJECTION_SIZE <? OutputCapture.encoded_len full then
    exists k : nat,
      (k <= length files)%nat
      /\ (files <> [] -> (k < length files)%nat)
      /\ r = (join [OutputCapture.lf]
                (instruction :: map Injector.bullet (take k files)
                 ++ [Injector.omitted_line (Z.of_nat (length files) - Z.of_nat k)]),
              true,
              Some [(lit "total_files", VInt (Z.of_nat (length files)));
                    (lit "files_shown", VInt (Z.of_nat k));
                    (lit "files_omitted", VInt (Z.of_nat (length files) - Z.of_nat k))])
      /\ (OutputCapture.encoded_len instruction <= Injector.MAX_INJECTION_SIZE ->
          OutputCapture.encoded_len
            (join [OutputCapture.lf] (instruction :: map Injector.bullet (take k files)))
          <= Injector.MAX_INJECTION_SIZE)
  else r = (full, false, None).
Proof.
  intros full r. unfold r, Injector._generate_list_injection. fold full.
  destruct (Z.ltb_spec Injector.MAX_INJECTION_SIZE (OutputCapture.encoded_len full))
    as [Hover | Hfit]; [| done].
  destruct (shown_lines_spec files (OutputCapture.encoded_len instruction))
    as (Heq & Hlen & Hsize & Hall).
  cbn zeta in *.
  set (shown := Injector.shown_lines files (OutputCapture.encoded_len instruction)) in *.
  exists (length shown). split; [done |]. split.
  { intros Hne. destruct (decide (length shown = length files)) as [Hl |]; [| lia].
    specialize (Hall Hl Hne). unfold full in Hover. rewrite encoded_len_join in Hover. lia. }
  split.
  { by rewrite <- Heq. }
  intros Hinstr. rewrite <- Heq, encoded_len_join. apply Hsize. by right.
Qed.

(** X11.  Injection keeps the prompt.  Whatever the configuration and
    the generator of file contents, a successful injection returns a
    prompt that ends (when prepending) or starts (when appending) with
    the original prompt; with a configuration that is false or empty, or
    with mode [none], the prompt is returned as it is. *)
Theorem injection_keeps_the_prompt
    (generate_content : list str -> str -> str * bool * option (list (str * value)))
    (prompt : str) (files : list str) (inject_config : value) (is_required : bool)
    (r : Injector.InjectionResult) :
  Injector.inject generate_content prompt files inject_config is_required = inr r ->
  (prompt `suffix_of` Injector.modified_prompt r
   \/ prompt `prefix_of` Injector.modified_prompt r)
  /\ (truthy inject_config = false
      \/ (exists d, inject_config = VDict d
                    /\ dict_get (lit "mode") d = Some (VStr (lit "none"))) ->
      r = Injector.mkInjection prompt false None).
Proof.
  unfold Injector.inject.
  destruct (truthy inject_config) eqn:Htruthy; cbn [negb].
  2:{ intros [= <-]. cbn. split; [by left | done]. }
  assert (Hkeep : forall (content : str) t d r0,
            r0 = Injector.mkInjection
                   (match prompt with
                    | [] => content
                    | _ :: _ => content ++ [OutputCapture.lf; OutputCapture.lf] ++ prompt
                    end) t d
            \/ r0 = Injector.mkInjection
                      (match prompt with
                       | [] => content
                       | _ :: _ => prompt ++ [OutputCapture.lf; OutputCapture.lf] ++ content
                       end) t d ->
            prompt `suffix_of` Injector.modified_prompt r0
            \/ prompt `prefix_of` Injector.modified_prompt r0).
  { intros content t d r0 [-> | ->]; cbn [Injector.modified_prompt].
    - left. destruct prompt as [| c p]; [by exists content; rewrite app_nil_r |].
      exists (content ++ [OutputCapture.lf; OutputCapture.lf]). by rewrite <- app_assoc.
    - right. destruct prompt as [| c p]; [by exists content |]. by eexists. }
  destruct inject_config as [ | b | | | | | d]; try done; cbn [bind].
  - (* inject: true *)
    change (Substitution.is_str (lit "none") (VStr (lit "list"))) with false.
    change (Substitution.is_str (lit "list") (VStr (lit "list"))) with true.
    cbn [bind].
    destruct (Injector._generate_list_injection files _) as [[content t] details].
    change (Substitution.is_str (lit "prepend") (VStr (lit "prepend"))) with true.
    intros [= <-]. split; [apply (Hkeep content t details); auto |].
    intros [? | (d & ? & _)]; done.
  - (* a mapping *)
    unfold Executor.get_or.
    destruct (default (VStr (lit "list")) (dict_get (lit "mode") d)) as [ | | | | mode | |] eqn:Hmode;
      cbn [Substitution.is_str bind]; try done.
    destruct (str_eqb (lit "none") mode) eqn:Hnone.
    { intros [= <-]. cbn. split; [by left | done]. }
    assert (Hnot_none : ~ (true = false
                           \/ exists d0, VDict d = VDict d0
                                         /\ dict_get (lit "mode") d0 = Some (VStr (lit "none")))).
    { intros [? | (d0 & [= <-] & Hd0)]; [done |].
      rewrite Hd0 in Hmode. cbn in Hmode. inversion Hmode; subst. done. }
    intros Hrun. split; [| intros Hcase; destruct (Hnot_none Hcase)].
    destruct (str_eqb (lit "list") mode).
    + destruct (default _ (dict_get (lit "instruction") d)); cbn [bind] in Hrun; try done.
      destruct (Injector._generate_list_injection files _) as [[content t] details].
      destruct (Substitution.is_str (lit "prepend") _);
        [inversion Hrun; apply (Hkeep content t details); auto |].
      destruct (Substitution.is_str (lit "append") _); [| done].
      inversion Hrun; apply (Hkeep content t details); auto.
    + destruct (str_eqb (lit "content") mode); [| done].
      destruct (default _ (dict_get (lit "instruction") d)); cbn [bind] in Hrun; try done.
      destruct (generate_content files _) as [[content t] details].
      destruct (Substitution.is_str (lit "prepend") _);
        [inversion Hrun; apply (Hkeep content t details); auto |].
      destruct (Substitution.is_str (lit "append") _); [| done].
      inversion Hrun; apply (Hkeep content t details); auto.
Qed.

(** ** Loops *)

Section ForEachFacts.

Import Loops.

Lemma set_step_entry_total (state : list (str * value)) (step_name : str) (v : value) :
  match dict_get (lit "steps") state with
  | None | Some (VDict _) => True
  | Some _ => False
  end ->
  exists state', Executor.set_step_entry state step_name v = inr state'.
Proof.
  unfold Executor.set_step_entry.
  destruct (dict_get (lit "steps") state) as [[ | | | | | | sd] |]; try done; by eexists.
Qed.

End ForEachFacts.

(** X12.  A loop without items.  When [items_from] does not resolve (the
    pointer is refused with a [ValueError]) or resolves to something that
    is not a list, the step is recorded in the state with exit code 2,
    the error and [failed]; no iteration runs, nothing is spawned, no
    file is written and the state store is left as it was. *)
Theorem loop_without_items_is_recorded_as_failed
    (pf : platform) (wf : Executor.Workflow) (wf_variables : value)
    (run_provider : Executor.Step -> list (str * value) -> list (str * value) -> world ->
                    result (list (str * value)) * world)
    (now : nat -> str) (current_step : nat) (step_name : option str)
    (cfg : Loops.ForEachConfig) (resume : bool) (pointer : str)
    (state : list (str * value)) (m : State.StateManager) (w : world) :
  Loops.items_from cfg = Some pointer ->
  match Pointers.resolve state pointer with
  | inl (ValueError _ _) => True
  | inr (VList _) => False
  | inr _ => True
  | inl _ => False
  end ->
  match dict_get (lit "steps") state with
  | None | Some (VDict _) => True
  | Some _ => False
  end ->
  exists state' error,
    Loops._execute_for_each pf wf wf_variables run_provider now current_step step_name
      cfg resume state m w = Some (inr (state', m), w)
    /\ Executor.step_result_of state'
         (default (lit "step_" ++ str_of_int (Z.of_nat current_step)) step_name)
       = inr (VDict [(lit "exit_code", VInt 2); (lit "error", error);
                     (lit "failed", VBool true)]).
Proof.
  intros Hfrom Hres Hsteps. unfold Loops._execute_for_each, Loops.resolve_items.
  rewrite Hfrom.
  set (name := default (lit "step_" ++ str_of_int (Z.of_nat current_step)) step_name).
  assert (Hrecord : forall error,
             exists state',
               Loops._record_step_error state name 2 error = inr state'
               /\ Executor.step_result_of state' name
                  = inr (VDict [(lit "exit_code", VInt 2); (lit "error", error);
                                (lit "failed", VBool true)])).
  { intros error. unfold Loops._record_step_error.
    destruct (set_step_entry_total state name
                (VDict [(lit "exit_code", VInt 2); (lit "error", error);
                        (lit "failed", VBool true)]) Hsteps) as [state' Hset].
    exists state'. split; [done |]. by apply (step_result_of_set state). }
  destruct (Pointers.resolve state pointer) as [[msg payload | | | | | | |] | v]; try done.
  - edestruct Hrecord as (state' & -> & Hentry). cbn [bind]. by eexists _, _.
  - destruct v; try done;
      (edestruct Hrecord as (state' & -> & Hentry); cbn [bind]; by eexists _, _).
Qed.

Lemma loop_without_items_is_recorded_as_failed_witness :
  exists state' error,
    Loops._execute_for_each Samples.always_fails Samples.sample_workflow (VDict [])
      (fun _ _ _ w => (inr [], w)) (fun _ => lit "t") 0 (Some (lit "Each"))
      (Loops.mkForEach (Some (lit "steps.List.lines")) None None []) false
      [(lit "steps", VDict [])] Samples.sample_manager Samples.empty_world
    = Some (inr (state', Samples.sample_manager), Samples.empty_world)
    /\ Executor.step_result_of state' (lit "Each")
       = inr (VDict [(lit "exit_code", VInt 2); (lit "error", error);
                     (lit "failed", VBool true)]).
Proof.
  apply (loop_without_items_is_recorded_as_failed Samples.always_fails
           Samples.sample_workflow (VDict []) (fun _ _ _ w => (inr [], w))
           (fun _ => lit "t") 0 (Some (lit "Each"))
           (Loops.mkForEach (Some (lit "steps.List.lines")) None None []) false
           (lit "steps.List.lines") [(lit "steps", VDict [])]
           Samples.sample_manager Samples.empty_world);
    [reflexivity | by vm_compute | by vm_compute].
Defined.

Section ForEachResults.

Import Loops.

Lemma iteration_key_not_name (step_name : str) (i : nat) (nested_name : str) :
  iteration_key step_name i nested_name <> step_name.
Proof.
  intros H. apply (f_equal length) in H. unfold iteration_key in H.
  rewrite !length_app in H. change (length (lit "[")) with 1%nat in H. lia.
Qed.

Lemma step_result_of_other state k v state' k' :
  Executor.set_step_entry state k v = inr state' -> k <> k' ->
  Executor.step_result_of state' k' = Executor.step_result_of state k'.
Proof.
  unfold Executor.set_step_entry, Executor.step_result_of, Executor.get_or.
  intros Hset Hne.
  destruct (dict_get (lit "steps") state) as [[ | | | | | | sd] |];
    simplify_eq; rewrite dict_get_set_eq; simpl.
  - by rewrite dict_get_set_ne.
  - assert (Hf : str_eqb k' k = false).
    { unfold str_eqb. apply bool_decide_eq_false_2. congruence. }
    by rewrite Hf.
Qed.

Variables (pf : platform) (wf : Executor.Workflow) (wf_variables : value).
Variable run_provider :
  Executor.Step -> list (str * value) -> list (str * value) -> world ->
  result (list (str * value)) * world.

Lemma flatten_iteration_keeps now step_name i k entries :
  forall state writes m w state' writes' m' w',
  flatten_iteration pf now step_name i entries state writes m w
  = (inr (state', writes', m'), w') ->
  (forall n, iteration_key step_name i n <> k) ->
  Executor.step_result_of state' k = Executor.step_result_of state k.
Proof.
  induction entries as [| [nested_name result_] rest IH]; intros * Hrun Hkey.
  - by simplify_eq/=.
  - cbn [flatten_iteration] in Hrun.
    destruct (Executor.set_step_entry state _ result_) as [| state1] eqn:Hset; [done |].
    destruct result_ as [ | | | | | | r]; try done.
    destruct (State.update_loop_step _ _ _ _ _ _ _ _) as [[| m1] w1]; [done |].
    rewrite (IH _ _ _ _ _ _ _ _ Hrun Hkey).
    by apply (step_result_of_other state _ _ _ _ Hset).
Qed.

Lemma flatten_results_keeps now step_name k loop_results :
  forall i state writes m w state' m' w',
  flatten_results pf now step_name i loop_results state writes m w
  = (inr (state', m'), w') ->
  (forall i n, iteration_key step_name i n <> k) ->
  Executor.step_result_of state' k = Executor.step_result_of state k.
Proof.
  induction loop_results as [| iteration rest IH]; intros * Hrun Hkey.
  - by simplify_eq/=.
  - cbn [flatten_results] in Hrun.
    destruct iteration as [ | | | | | | entries]; try done.
    destruct (flatten_iteration _ _ _ _ _ _ _ _ _) as [[| [[state1 writes1] m1]] w1] eqn:Hit;
      [done |].
    rewrite (IH _ _ _ _ _ _ _ _ Hrun Hkey).
    by apply (flatten_iteration_keeps _ _ _ _ _ _ _ _ _ _ _ _ _ Hit).
Qed.

(** The name under which the result of a nested step is kept in the
    iteration [index]. *)
Lemma dict_set_keeps_keys {V} (k k' : str) (v : V) (d : list (str * V)) :
  is_Some (dict_get k' d) -> is_Some (dict_get k' (dict_set k v d)).
Proof.
  intros H. destruct (decide (k = k')) as [-> | Hne].
  - rewrite dict_get_set_eq. by eexists.
  - by rewrite dict_get_set_ne.
Qed.

Lemma run_nested_entries step_name item index loop_context state loop_steps :
  forall iteration_state m w iteration_state' m' w',
  run_nested pf wf wf_variables run_provider step_name item index loop_context state
    loop_steps iteration_state m w = Some (inr (iteration_state', m'), w') ->
  (forall k, is_Some (dict_get k iteration_state) ->
             is_Some (dict_get k iteration_state'))
  /\ (forall nested_step, nested_step ∈ loop_steps ->
        is_Some (dict_get
                   (default (lit "nested_" ++ str_of_int (Z.of_nat index))
                            (Executor.name (inner nested_step)))
                   iteration_state')).
Proof.
  induction loop_steps as [| nested_step rest IH]; intros * Hrun.
  - simplify_eq/=. split; [done |]. intros ? H. by apply elem_of_nil in H.
  - cbn [run_nested] in Hrun.
    set (nested_name := default (lit "nested_" ++ str_of_int (Z.of_nat index))
                                (Executor.name (inner nested_step))) in *.
    assert (Hcont : forall result_ m1 w1,
               run_nested pf wf wf_variables run_provider step_name item index
                 loop_context state rest
                 (dict_set nested_name (VDict result_) iteration_state) m1 w1
               = Some (inr (iteration_state', m'), w') ->
               (forall k, is_Some (dict_get k iteration_state) ->
                          is_Some (dict_get k iteration_state'))
               /\ (forall ls, ls ∈ nested_step :: rest ->
                     is_Some (dict_get
                                (default (lit "nested_" ++ str_of_int (Z.of_nat index))
                                         (Executor.name (inner ls)))
                                iteration_state'))).
    { intros result_ m1 w1 Hrest. destruct (IH _ _ _ _ _ _ Hrest) as [Hkeep Hall].
      split.
      - intros k Hk. apply Hkeep. by apply dict_set_keeps_keys.
      - intros ls [-> | Hin]%elem_of_cons; [| by apply Hall].
        apply Hkeep. fold nested_name. rewrite dict_get_set_eq. by eexists. }
    destruct (match Executor.when (inner nested_step) with
              | None => _ | Some _ => _ end) as [gate w1].
    destruct gate as [e | [|]]; [by eapply Hcont | | by eapply Hcont].
    destruct (_create_loop_context _ _ _ _ _ _) as [| [nested_context m1]]; [done |].
    destruct (if Executor.debug wf then _ else _) as [[| ?] w2]; [done |].
    destruct (Executor.kind (inner nested_step)) as [cmd |].
    + destruct (Executor._execute_command_with_context _ _ _ _ _ _ _)
        as [[[| [result_ ?]] w3] |]; try done. by eapply Hcont.
    + destruct (has_provider nested_step); [| by eapply Hcont].
      destruct (run_provider _ _ _ _) as [[| result_] w3]; [done |]. by eapply Hcont.
Qed.

Lemma run_iterations_results step_name item_var total state loop_steps remaining :
  forall index kept m w results m' w',
  run_iterations pf wf wf_variables run_provider step_name item_var total state
    loop_steps remaining index kept m w = Some (inr (results, m'), w') ->
  exists tail,
    results = kept ++ tail /\ length tail = length remaining
    /\ forall j r, tail !! j = Some r ->
         exists d, r = VDict d
           /\ forall nested_step, nested_step ∈ loop_steps ->
                is_Some (dict_get
                           (default (lit "nested_" ++ str_of_int (Z.of_nat (index + j)))
                                    (Executor.name (inner nested_step))) d).
Proof.
  induction remaining as [| item rest IH]; intros * Hrun.
  - simplify_eq/=. exists []. by rewrite app_nil_r.
  - cbn [run_iterations] in Hrun.
    destruct (run_nested _ _ _ _ _ _ _ _ _ _ _ _ _)
      as [[[| [iteration_state m1]] w1] |] eqn:Hnested; try done.
    destruct (IH _ _ _ _ _ _ _ Hrun) as (tail & -> & Hlen & Htail).
    exists (VDict iteration_state :: tail). split; [by rewrite <- app_assoc |].
    split; [by simpl; rewrite Hlen |].
    intros [| j] r Hr.
    + simplify_eq/=. eexists. split; [done |]. rewrite Nat.add_0_r.
      by apply (run_nested_entries _ _ _ _ _ _ _ _ _ _ _ _ Hnested).
    + replace (index + S j)%nat with (S index + j)%nat by lia. by apply Htail.
Qed.

End ForEachResults.

(** X13.  A loop keeps one result per item.  When a [for_each] step that
    is not resumed returns, the entry of the step in the state is a list
    with exactly one dict for each item, in order, and the i-th dict has
    an entry for every nested step of the loop under its name (or
    [nested_<i>] for a step without a name). *)
Theorem loop_keeps_one_result_per_item
    (pf : platform) (wf : Executor.Workflow) (wf_variables : value)
    (run_provider : Executor.Step -> list (str * value) -> list (str * value) -> world ->
                    result (list (str * value)) * world)
    (now : nat -> str) (current_step : nat) (step_name : option str)
    (cfg : Loops.ForEachConfig) (items : list value)
    (state state' : list (str * value)) (m m' : State.StateManager) (w w' : world) :
  let name := default (lit "step_" ++ str_of_int (Z.of_nat current_step)) step_name in
  Loops.resolve_items cfg state name = inr (inr items) ->
  Loops._execute_for_each pf wf wf_variables run_provider now current_step step_name
    cfg false state m w = Some (inr (state', m'), w') ->
  exists results,
    Executor.step_result_of state' name = inr (VList results)
    /\ length results = length items
    /\ forall i r, results !! i = Some r ->
         exists d, r = VDict d
           /\ forall nested_step, nested_step ∈ Loops.loop_steps cfg ->
                is_Some (dict_get
                           (default (lit "nested_" ++ str_of_int (Z.of_nat i))
                                    (Executor.name (Loops.inner nested_step))) d).
Proof.
  intros name Hitems Hrun. unfold Loops._execute_for_each in Hrun.
  fold name in Hrun. rewrite Hitems in Hrun. cbn [Loops.resume_point drop] in Hrun.
  destruct (Loops.run_iterations _ _ _ _ _ _ _ _ _ _ _ _ _ _)
    as [[[| [loop_results m1]] w1] |] eqn:Hiter; try done.
  destruct (Executor.set_step_entry _ name (VList loop_results)) as [| state2] eqn:Hset;
    [done |].
  injection Hrun as Hflat.
  apply run_iterations_results in Hiter as (tail & -> & Hlen & Htail).
  exists tail. split; [| split; [done |]].
  - erewrite flatten_results_keeps; [| exact Hflat |].
    + by apply (step_result_of_set _ _ _ _ Hset).
    + intros i n. apply iteration_key_not_name.
  - intros i r Hr. by apply (Htail i r).
Qed.

(** X21.  Failures inside a loop do not stop the run.  Once a [for_each]
    step has gone through its items, its entry in the state is a list,
    and the control flow that follows goes on with the next step:
    whatever the exit codes of the nested steps, neither strict flow nor
    the [on] handlers of the loop step apply. *)
Theorem loop_failures_do_not_stop_the_run
    (pf : platform) (wf : Executor.Workflow) (wf_variables : value)
    (run_provider : Executor.Step -> list (str * value) -> list (str * value) -> world ->
                    result (list (str * value)) * world)
    (now : nat -> str) (current_step : nat) (step : Executor.Step)
    (cfg : Loops.ForEachConfig) (resume : bool) (on_error : str) (items : list value)
    (state state' : list (str * value)) (m m' : State.StateManager) (w w' : world) :
  let name := Executor.step_name_of current_step step in
  Loops.resolve_items cfg state name = inr (inr items) ->
  Loops._execute_for_each pf wf wf_variables run_provider now current_step
    (Executor.name step) cfg resume state m w = Some (inr (state', m'), w') ->
  Executor._handle_control_flow wf step state' name on_error = inr Executor.FlowNext.
Proof.
  intros name Hitems Hrun. unfold Loops._execute_for_each in Hrun.
  change (default (lit "step_" ++ str_of_int (Z.of_nat current_step)) (Executor.name step))
    with name in Hrun.
  rewrite Hitems in Hrun.
  destruct (Loops.resume_point _ _ _ _) as [| [kept start_index]]; [done |].
  destruct (Loops.run_iterations _ _ _ _ _ _ _ _ _ _ _ _ _ _)
    as [[[| [loop_results m1]] w1] |]; try done.
  destruct (Executor.set_step_entry _ name (VList loop_results)) as [| state2] eqn:Hset;
    [done |].
  injection Hrun as Hflat. unfold Executor._handle_control_flow.
  erewrite flatten_results_keeps; [| exact Hflat |].
  - by rewrite (step_result_of_set _ _ _ _ Hset).
  - intros i n. apply iteration_key_not_name.
Qed.

Section LoopScope.

Import Loops.

Lemma dict_update_other {V} (k : str) (extra : list (str * V)) :
  forall d, k ∉ map fst extra ->
  dict_get k (Executor.dict_update d extra) = dict_get k d.
Proof.
  unfold Executor.dict_update.
  induction extra as [| [k0 v0] rest IH]; intros d Hk; [done |].
  cbn [foldl fst snd]. apply not_elem_of_cons in Hk as [Hne Hk].
  rewrite IH by done. by apply dict_get_set_ne.
Qed.

Lemma dict_update_last {V} (k : str) (v : V) (extra : list (str * V)) :
  forall d, k ∉ map fst extra ->
  dict_get k (Executor.dict_update d (extra ++ [(k, v)])) = Some v.
Proof.
  intros d Hk. unfold Executor.dict_update. rewrite foldl_app. cbn [foldl fst snd].
  apply dict_get_set_eq.
Qed.

Lemma loop_context_keys (item_var : str) (item : value) (index total : nat) :
  exists front,
    loop_context item_var item index total
    = front ++ [(lit "loop", VDict [(lit "index", VInt (Z.of_nat index));
                                    (lit "total", VInt (Z.of_nat total))])]
    /\ (lit "loop" ∉ map fst front)
    /\ (item_var <> lit "steps" -> lit "steps" ∉ map fst front).
Proof.
  unfold loop_context. cbn [dict_set].
  destruct (str_eqb item_var (lit "item")) eqn:Hitem.
  - exists [(item_var, item)]. cbn [dict_set].
    apply bool_decide_eq_true_1 in Hitem as ->.
    repeat split; try (apply (bool_decide_unpack _); by vm_compute).
  - cbn [dict_set].
    destruct (str_eqb (lit "loop") (lit "item")) eqn:E; [by vm_compute in E |].
    destruct (str_eqb (lit "loop") item_var) eqn:Hloop.
    + apply bool_decide_eq_true_1 in Hloop as <-.
      exists [(lit "item", item)].
      repeat split; try (apply (bool_decide_unpack _); by vm_compute).
    + apply bool_decide_eq_false_1 in Hloop.
      exists [(lit "item", item); (item_var, item)].
      repeat split.
      * cbn [map fst]. rewrite !not_elem_of_cons. repeat split; try done.
        apply not_elem_of_nil.
      * intros Hne. cbn [map fst]. rewrite !not_elem_of_cons. repeat split; try done.
        apply not_elem_of_nil.
Qed.

End LoopScope.

(** X14.  The scope of a loop.  For a command nested in a [for_each]
    whose item alias is not [steps], the variables hold as [steps] the
    results of the current iteration only (the steps of the workflow
    outside the loop are not visible), and [loop.index] and [loop.total]
    resolve to the index of the iteration and the number of items. *)
Theorem loop_scope_is_the_iteration
    (pf : platform) (variables : value) (item_var : str) (item : value)
    (index total : nat) (iteration_state state context : list (str * value))
    (m m' : State.StateManager) (w : world) :
  item_var <> lit "steps" ->
  Loops._create_loop_context pf variables
    (Loops.loop_context item_var item index total) iteration_state m w
  = inr (context, m') ->
  let vars := Executor.command_variables context state in
  dict_get (lit "steps") vars = Some (VDict iteration_state)
  /\ Substitution._resolve_variable (lit "loop.index") vars = inr (VInt (Z.of_nat index))
  /\ Substitution._resolve_variable (lit "loop.total") vars = inr (VInt (Z.of_nat total)).
Proof.
  intros Hvar Hctx vars. unfold Loops._create_loop_context in Hctx.
  destruct (State.load pf m w) as [| [m1 run_state]]; [done |].
  injection Hctx as <- <-.
  destruct (loop_context_keys item_var item index total)
    as (front & Hshape & Hloop & Hsteps).
  specialize (Hsteps Hvar).
  set (base := [(lit "run", _); (lit "context", variables);
                (lit "steps", VDict iteration_state)]) in *.
  set (context := Executor.dict_update base _) in *.
  assert (Hcs : dict_get (lit "steps") context = Some (VDict iteration_state)).
  { unfold context. rewrite dict_update_other; [done |].
    rewrite Hshape, map_app. apply not_elem_of_app. split; [done |].
    apply (bool_decide_unpack _). by vm_compute. }
  assert (Hcl : dict_get (lit "loop") context
                = Some (VDict [(lit "index", VInt (Z.of_nat index));
                               (lit "total", VInt (Z.of_nat total))])).
  { unfold context. rewrite Hshape. by apply dict_update_last. }
  assert (Hreserved : forall k, k ∈ Executor.reserved_names ->
            k ∉ map fst (filter (fun kv => kv.1 ∉ Executor.reserved_names) context)).
  { intros k Hk [kv [-> Hin]]%list_elem_of_fmap. by apply list_elem_of_filter in Hin as [? _]. }
  assert (Hvs : dict_get (lit "steps") vars = Some (VDict iteration_state)).
  { unfold vars, Executor.command_variables. fold context.
    rewrite dict_update_other by (apply Hreserved, (bool_decide_unpack _); by vm_compute).
    rewrite Hcs. unfold Executor.build_variables.
    assert (Hget : Executor.get_or "steps" (VDict [])
                     (dict_set (lit "steps") (VDict iteration_state) state)
                   = VDict iteration_state).
    { unfold Executor.get_or. by rewrite dict_get_set_eq. }
    rewrite Hget.
    destruct (dict_set (lit "steps") (VDict iteration_state) state) eqn:Hs.
    - by destruct state as [| [? ?] ?]; [| cbn [dict_set] in Hs; destruct (str_eqb _ _)].
    - done. }
  assert (Hvl : dict_get (lit "loop") vars
                = Some (VDict [(lit "index", VInt (Z.of_nat index));
                               (lit "total", VInt (Z.of_nat total))])).
  { unfold vars, Executor.command_variables. fold context.
    rewrite dict_update_other by (apply Hreserved, (bool_decide_unpack _); by vm_compute).
    rewrite Hcs. unfold Executor.build_variables, Executor.get_or. rewrite Hcl.
    cbn [default from_option id truthy].
    destruct (dict_set (lit "steps") (VDict iteration_state) state) eqn:Hs.
    - by destruct state as [| [? ?] ?]; [| cbn [dict_set] in Hs; destruct (str_eqb _ _)].
    - cbn [app dict_get]. 
      change (str_eqb (lit "loop") (lit "run")) with false.
      change (str_eqb (lit "loop") (lit "steps")) with false.
      cbv iota.
      destruct (truthy _).
      + cbn [app dict_get]. change (str_eqb (lit "loop") (lit "context")) with false.
        cbv iota. by change (str_eqb (lit "loop") (lit "loop")) with true.
      + cbn [app dict_get]. by change (str_eqb (lit "loop") (lit "loop")) with true. }
  split; [done |].
  unfold Substitution._resolve_variable.
  change (split_on Substitution.dot (lit "loop.index")) with [lit "loop"; lit "index"].
  change (split_on Substitution.dot (lit "loop.total")) with [lit "loop"; lit "total"].
  rewrite !Hvl. clearbody vars. split; by vm_compute.
Qed.

Section StepLoop.

Import Executor.

Variables (pf : platform) (wf : Workflow).
Variable run_other :
  Step -> list (str * value) -> State.StateManager -> world ->
  list (str * value) * State.StateManager * world.

Lemma flow_without_handlers (step : Step) (on_error : str) (r : list (str * value)) :
  on step = None ->
  flow_of_result wf step on_error r = FlowNext
  \/ flow_of_result wf step on_error r = FlowStop.
Proof.
  intros Hon. unfold flow_of_result. rewrite Hon.
  destruct (truthy _); [by left |].
  destruct (negb _); [| by left].
  destruct (_ && _); [by right | by left].
Qed.

Lemma run_step_without_handlers now resume on_error step_index step state m w :
  on step = None ->
  exists outcome w',
    run_step pf wf run_other now resume on_error step_index step state m w
    = Some (outcome, w')
    /\ forall next state' m', outcome = inr (next, state', m') ->
         next = FlowNext \/ next = FlowStop.
Proof.
  intros Hon. unfold run_step.
  destruct (resume && _).
  { eexists _, _. split; [done |]. intros ? ? ? [= <- _ _]. by left. }
  assert (Hrecord : forall entry r w1,
             exists outcome w',
               Some (record_and_advance pf now state m (step_name_of step_index step)
                       entry r w1) = Some (outcome, w')
               /\ forall next state' m', outcome = inr (next, state', m') ->
                    next = FlowNext \/ next = FlowStop).
  { intros entry r w1. unfold record_and_advance.
    destruct (set_step_entry _ _ _); [by eexists _, _ |].
    destruct (State.update_step _ _ _ _ _ _) as [[|] ?]; eexists _, _; (split; [done |]);
      [done |]. intros ? ? ? [= <- _ _]. by left. }
  destruct (when_gate pf wf step state w) as [[e | [|]] w1]; [apply Hrecord | | apply Hrecord].
  destruct (if debug wf then _ else _) as [[|] w2]; [by eexists _, _ |].
  assert (Hflow : forall state' m' w3,
             exists (outcome : result step_outcome) (w' : world),
               match _handle_control_flow wf step state' (step_name_of step_index step)
                       on_error with
               | inl e => Some (inl e, w3)
               | inr next_step => Some (inr (next_step, state', m'), w3)
               end = Some (outcome, w')
               /\ forall (next : flow) (state'' : list (str * value))
                         (m'' : State.StateManager),
                    outcome = inr (next, state'', m'') ->
                    next = FlowNext \/ next = FlowStop).
  { intros state' m' w3. unfold _handle_control_flow.
    destruct (step_result_of _ _) as [| v]; [by eexists _, _ |].
    destruct v; try (eexists _, _; split; [done |]; intros ? ? ? [= <- _ _]; by left).
    eexists _, _. split; [done |]. intros ? ? ? [= <- _ _].
    by apply flow_without_handlers. }
  destruct (kind step) as [cmd |].
  - unfold _execute_command.
    destruct (_execute_command_with_context _ _ _ _ _ _ _) as [[[| [r ?]] w3] |] eqn:Hrun.
    + by eexists _, _.
    + destruct (set_step_entry _ _ _); [by eexists _, _ |].
      destruct (State.update_step _ _ _ _ _ _) as [[|] ?]; [by eexists _, _ |].
      apply Hflow.
    + by apply execute_command_with_context_total in Hrun.
  - destruct (run_other step state m w2) as [[state' m'] w3]. apply Hflow.
Qed.

Lemma step_loop_without_handlers now resume on_error (fuel : nat) :
  Forall (fun step => on step = None) (wf_steps wf) ->
  forall round step_index state m w,
    (length (wf_steps wf) - step_index < fuel)%nat ->
    Loops.step_loop pf wf run_other now resume on_error fuel round step_index state m w
    <> None.
Proof.
  intros Hall. induction fuel as [| fuel IH]; intros * Hfuel; [lia |].
  cbn [Loops.step_loop].
  destruct (wf_steps wf !! step_index) as [step |] eqn:Hstep; [| done].
  assert (Hon : on step = None).
  { by apply (proj1 (Forall_lookup _ _) Hall step_index). }
  apply lookup_lt_Some in Hstep.
  destruct (run_step_without_handlers (now round) resume on_error step_index step
              state m w Hon) as (outcome & w' & -> & Hnext).
  destruct outcome as [| [[next state'] m']]; [done |].
  destruct (Hnext _ _ _ eq_refl) as [-> | ->]; [| done].
  apply IH. lia.
Qed.

End StepLoop.


Section Lines.

Lemma split_on_nonempty (sep : char) (t : str) : split_on sep t <> [].
Proof.
  destruct t as [| c t]; [done |]. cbn [split_on].
  destruct (N.eqb c sep); [done |]. by destruct (split_on sep t).
Qed.

Lemma split_on_pieces (sep : char) (t : str) :
  Forall (fun piece => sep ∉ piece) (split_on sep t).
Proof.
  induction t as [| c t IH]; cbn [split_on].
  - apply Forall_cons. split; [apply not_elem_of_nil | constructor].
  - destruct (N.eqb_spec c sep) as [-> | Hne].
    + apply Forall_cons. split; [apply not_elem_of_nil | done].
    + destruct (split_on sep t) as [| piece pieces]; apply Forall_cons.
      * split; [| constructor]. rewrite not_elem_of_cons. split; [done |].
        apply not_elem_of_nil.
      * apply Forall_cons in IH as [Hpiece Hrest]. split; [| done].
        rewrite not_elem_of_cons. split; [done | done].
Qed.

Lemma join_split_on (sep : char) (t : str) : join [sep] (split_on sep t) = t.
Proof.
  induction t as [| c t IH]; [done |]. cbn [split_on].
  pose proof (split_on_nonempty sep t) as Hne.
  destruct (split_on sep t) as [| piece pieces]; [done |].
  destruct (N.eqb_spec c sep) as [-> | Hc].
  - change (join [sep] ([] :: piece :: pieces)) with (sep :: join [sep] (piece :: pieces)).
    by rewrite IH.
  - destruct pieces as [| piece' pieces].
    + cbn [join] in *. by rewrite IH.
    + change (join [sep] ((c :: piece) :: piece' :: pieces))
        with (c :: join [sep] (piece :: piece' :: pieces)).
      by rewrite IH.
Qed.

Lemma join_drop_empty_last (sep : char) (pieces : list str) :
  last pieces = Some [] ->
  join [sep] (removelast pieces) = join [sep] pieces
  \/ join [sep] (removelast pieces) ++ [sep] = join [sep] pieces.
Proof.
  intros [front ->]%last_Some. rewrite removelast_last, join_snoc, app_nil_r.
  destruct front; [by left | by right].
Qed.

End Lines.

(** X16.  Capture of lines.  The lines recorded never hold a line feed
    and there are at most 10000 of them.  When the result is not marked
    truncated nothing is written, and the lines joined by line feeds give
    back the text with its CRLF pairs turned into LF, up to one final
    line feed; when it is marked truncated there are exactly 10000 lines
    and the complete raw output is in the [.stdout] log of the step. *)
Theorem lines_capture_keeps_the_text
    (logs_dir text : str) (raw_stdout : bytes) (step_name : str) (exit_code : Z)
    (w : world) :
  let normalised := replace [OutputCapture.cr; OutputCapture.lf] [OutputCapture.lf] text in
  let r := (OutputCapture._capture_lines logs_dir text raw_stdout step_name exit_code w).1 in
  let w' := (OutputCapture._capture_lines logs_dir text raw_stdout step_name exit_code w).2 in
  exists recorded,
    OutputCapture.lines r = Some recorded
    /\ (Z.of_nat (length recorded) <= OutputCapture.LINES_LIMIT)
    /\ Forall (fun line => OutputCapture.lf ∉ line) recorded
    /\ OutputCapture.exit_code r = exit_code
    /\ (OutputCapture.truncated r = false ->
        w' = w
        /\ (join [OutputCapture.lf] recorded = normalised
            \/ join [OutputCapture.lf] recorded ++ [OutputCapture.lf] = normalised))
    /\ (OutputCapture.truncated r = true ->
        Z.of_nat (length recorded) = OutputCapture.LINES_LIMIT
        /\ fs w' !! OutputCapture.stdout_log logs_dir step_name = Some raw_stdout).
Proof.
  intros normalised r w'. subst r w'. unfold OutputCapture._capture_lines.
  fold normalised.
  pose proof (split_on_pieces OutputCapture.lf normalised) as Hpieces.
  pose proof (join_split_on OutputCapture.lf normalised) as Hjoin.
  set (pieces := split_on OutputCapture.lf normalised) in *.
  set (kept := match last pieces with Some [] => removelast pieces | _ => pieces end).
  assert (Hkept : Forall (fun line => OutputCapture.lf ∉ line) kept
                  /\ (join [OutputCapture.lf] kept = normalised
                      \/ join [OutputCapture.lf] kept ++ [OutputCapture.lf] = normalised)).
  { unfold kept. destruct (last pieces) as [[| c l] |] eqn:Hlast; try (split; [done | by left]).
    split.
    - apply last_Some in Hlast as [front Hfront]. rewrite Hfront, removelast_last.
      rewrite Hfront in Hpieces. by apply Forall_app in Hpieces as [? _].
    - rewrite <- Hjoin. by apply join_drop_empty_last. }
  destruct Hkept as [Hlines Hback].
  destruct (OutputCapture.LINES_LIMIT <? Z.of_nat (length kept)) eqn:Hover;
    cbn [fst snd OutputCapture.lines OutputCapture.truncated OutputCapture.exit_code].
  - apply Z.ltb_lt in Hover. eexists. split; [done |].
    assert (Hlen : Z.of_nat (length (take (Z.to_nat OutputCapture.LINES_LIMIT) kept))
                   = OutputCapture.LINES_LIMIT).
    { rewrite length_take. unfold OutputCapture.LINES_LIMIT in *. lia. }
    split; [lia |]. split; [by apply Forall_take |]. split; [done |].
    split; [done |]. intros _. split; [done |]. apply fs_write_bytes_eq.
  - apply Z.ltb_ge in Hover. eexists. split; [done |].
    split; [done |]. split; [done |]. split; [done |]. split; [done | done].
Qed.

Section StepEnv.

Import Secrets.

Lemma dict_get_value {V} (k : str) (v : V) (d : list (str * V)) :
  dict_get k d = Some v -> v ∈ map snd d.
Proof.
  induction d as [| [k' v'] d IH]; [done |]. cbn [dict_get map snd].
  destruct (str_eqb k k'); [intros [= ->]; by left | intros H; right; by apply IH].
Qed.

Lemma apply_step_env_other (step_env : list (str * str)) (k : str) :
  forall ctx,
    k ∉ map fst step_env ->
    let ctx' := foldl apply_step_env ctx step_env in
    child_env ctx' !! k = child_env ctx !! k
    /\ dict_get k (secret_values ctx') = dict_get k (secret_values ctx)
    /\ declared_secrets ctx' = declared_secrets ctx.
Proof.
  induction step_env as [| [key v] step_env IH]; intros ctx Hk; cbn [foldl]; [done |].
  cbn [map fst] in Hk. apply not_elem_of_cons in Hk as [Hne Hk].
  destruct (IH (apply_step_env ctx (key, v)) Hk) as (H1 & H2 & H3).
  rewrite H1, H2, H3. cbn [apply_step_env child_env secret_values declared_secrets].
  split; [by apply lookup_insert_ne |]. split; [| done].
  case_bool_decide; [| done]. by apply dict_get_set_ne.
Qed.

Lemma apply_step_env_sets (step_env : list (str * str)) (key v : str) :
  forall ctx,
    NoDup (map fst step_env) -> (key, v) ∈ step_env ->
    let ctx' := foldl apply_step_env ctx step_env in
    child_env ctx' !! key = Some v
    /\ (key ∈ declared_secrets ctx -> dict_get key (secret_values ctx') = Some v).
Proof.
  induction step_env as [| [k0 v0] step_env IH]; intros ctx Hnd Hin; cbn [foldl].
  { by apply elem_of_nil in Hin. }
  cbn [map fst] in Hnd. apply NoDup_cons in Hnd as [Hfresh Hnd].
  apply elem_of_cons in Hin as [[= <- <-] | Hin].
  - destruct (apply_step_env_other step_env key (apply_step_env ctx (key, v)) Hfresh)
      as (H1 & H2 & _).
    rewrite H1, H2. cbn [apply_step_env child_env secret_values].
    split; [by apply lookup_insert_eq |]. intros Hdeclared.
    rewrite bool_decide_eq_true_2 by done. apply dict_get_set_eq.
  - destruct (IH (apply_step_env ctx (k0, v0)) Hnd Hin) as [H1 H2]. split; [done |].
    intros Hdeclared. by apply H2.
Qed.

End StepEnv.

(** X17.  The environment of the step wins.  For every entry of the
    step's [env], the child environment holds the value the step gives,
    whatever the process environment or the declared secrets say.  When
    the key is also a declared secret, the step's value is the one
    tracked for it and, unless empty, is registered for masking; the
    secret is still reported missing when the process environment lacks
    it. *)
Theorem step_env_overrides_secrets
    (pf : platform) (declared : list str) (step_env : list (str * str)) (w : world)
    (key v : str) :
  NoDup (map fst step_env) ->
  (key, v) ∈ step_env ->
  let ctx := (Secrets.resolve_secrets pf (Some declared) (Some step_env) w).1 in
  let w' := (Secrets.resolve_secrets pf (Some declared) (Some step_env) w).2 in
  Secrets.child_env ctx !! key = Some v
  /\ (key ∈ declared ->
      dict_get key (Secrets.secret_values ctx) = Some v
      /\ (v <> [] -> v ∈ masked_values w')
      /\ (environ pf !! key = None -> key ∈ Secrets.missing_secrets ctx)).
Proof.
  intros Hnd Hin ctx w'.
  destruct (resolve_secrets_spec pf declared (Some step_env) w) as (Hmissing & _).
  fold ctx in Hmissing. subst ctx w'. unfold Secrets.resolve_secrets in *.
  change (default [] (Some declared)) with declared in *.
  change (default [] (Some step_env)) with step_env in *.
  cbn [fst snd Secrets.declared_secrets] in *.
  set (ctx0 := Secrets.mkSecretsContext declared [] [] (environ pf)) in *.
  set (ctx1 := foldl (Secrets.overlay_secret (environ pf)) ctx0 declared) in *.
  destruct (overlay_secrets_fold (environ pf) declared ctx0 eq_refl) as (_ & Hdecl & _).
  fold ctx1 in Hdecl.
  destruct (apply_step_env_sets step_env key v ctx1 Hnd Hin) as [Henv Hsecret].
  split; [done |]. intros Hdeclared.
  assert (Hvalue : dict_get key
                     (Secrets.secret_values (foldl Secrets.apply_step_env ctx1 step_env))
                   = Some v).
  { apply Hsecret. by rewrite Hdecl. }
  split; [done |]. split.
  - intros Hne. cbn [masked_values set_masked]. apply track_values_elem. left.
    split; [| done]. by apply (dict_get_value key).
  - intros Hnone. rewrite Hmissing. apply list_elem_of_filter. by split.
Qed.

Lemma step_env_overrides_secrets_witness :
  let pf := Samples.prints_token in
  let step_env := [(lit "TOKEN", lit "override"); (lit "MODE", lit "fast")] in
  let ctx := (Secrets.resolve_secrets pf (Some [lit "TOKEN"]) (Some step_env)
                Samples.empty_world).1 in
  Secrets.child_env ctx !! lit "TOKEN" = Some (lit "override").
Proof.
  refine (proj1 (step_env_overrides_secrets Samples.prints_token [lit "TOKEN"]
                   [(lit "TOKEN", lit "override"); (lit "MODE", lit "fast")]
                   Samples.empty_world (lit "TOKEN") (lit "override") _ _)).
  - apply (bool_decide_unpack _). by vm_compute.
  - apply (bool_decide_unpack _). by vm_compute.
Defined.

Section MaskNothing.

Import Secrets.

Lemma mask_fold_absent (l : list str) (text : str) :
  Forall (fun s => contains s text = false) l -> foldl mask_step text l = text.
Proof.
  induction l as [| s l IH]; [done |]. intros [Hs Hl]%Forall_cons.
  cbn [foldl]. unfold mask_step at 2. rewrite Hs. by apply IH.
Qed.

End MaskNothing.

(** X18.  Masking leaves other text alone.  A text in which none of the
    registered values occurs comes back from [mask_text] unchanged. *)
Theorem mask_text_without_secrets (masked_values : list str) (text : str) :
  Forall (fun s => contains s text = false) masked_values ->
  Secrets.mask_text masked_values text = text.
Proof.
  intros Hnone. unfold Secrets.mask_text.
  destruct text as [| c text]; [done |]. destruct masked_values as [| s l]; [done |].
  apply mask_fold_absent. apply Forall_forall. intros x Hx.
  apply sort_by_elem in Hx. by apply (proj1 (Forall_forall _ _) Hnone).
Qed.

Lemma mask_text_without_secrets_witness :
  Secrets.mask_text [lit "hunter2"; lit "s3cret"] (lit "nothing to hide")
  = lit "nothing to hide".
Proof.
  apply mask_text_without_secrets.
  apply Forall_cons. split; [by vm_compute |].
  apply Forall_cons. split; [by vm_compute | constructor].
Defined.

Section Repair.

Import State.

Lemma repair_from_spec (pf : platform) (m : StateManager) (backups : list str) (w : world) :
  forall restored m' w',
    repair_from pf m backups w = (inr (restored, m'), w') ->
    if restored then
      exists backup content s,
        backup ∈ backups
        /\ fs w !! backup = Some content
        /\ bind (json_load pf content) from_dict = inr s
        /\ m' = set_state m (Some s)
        /\ w' = write_bytes (state_file m) content w
    else m' = m /\ w' = w.
Proof.
  induction backups as [| backup rest IH]; intros restored m' w' Hrun.
  - cbn in Hrun. by simplify_eq.
  - cbn [repair_from] in Hrun.
    destruct (fs w !! backup) as [content |] eqn:Hfile; [| done].
    destruct (bind (json_load pf content) from_dict) as [e | s] eqn:Hparse.
    + assert (Hrest : repair_from pf m rest w = (inr (restored, m'), w')).
      { by destruct e. }
      specialize (IH _ _ _ Hrest). destruct restored; [| done].
      destruct IH as (b & c & s & Hb & ?). exists b, c, s. split; [by right | done].
    + simplify_eq. exists backup, content, s. split; [by left | done].
Qed.

End Repair.

(** X19.  Repair restores only what a backup holds.  When
    [attempt_repair] reports success, [state.json] has been overwritten
    with the content of one of the backup files of the run, which parses
    as a run state, and that state is the one now held in memory; no
    other file changes.  When it reports failure, the files and the
    state in memory are as before. *)
Theorem repair_restores_a_backup
    (pf : platform) (m m' : State.StateManager) (w w' : world) (restored : bool) :
  State.attempt_repair pf m w = (inr (restored, m'), w') ->
  if restored then
    exists backup content s,
      backup ∈ State.glob_backups m (fs w)
      /\ fs w !! backup = Some content
      /\ bind (json_load pf content) State.from_dict = inr s
      /\ State.state m' = Some s
      /\ fs w' = <[State.state_file m := content]> (fs w)
  else m' = m /\ w' = w.
Proof.
  intros Hrun. unfold State.attempt_repair in Hrun.
  apply repair_from_spec in Hrun. destruct restored; [| done].
  destruct Hrun as (backup & content & s & Hin & Hfile & Hparse & -> & ->).
  exists backup, content, s. split.
  { unfold sorted_reverse in Hin. by apply sort_by_elem in Hin. }
  done.
Qed.

Lemma repair_restores_a_backup_witness :
  let w := Samples.backups_before ["b"]
             (write_bytes (State.state_file Samples.backup_manager) (Samples.blit "v1")
                Samples.empty_world) in
  exists backup content s,
    backup ∈ State.glob_backups Samples.backup_manager (fs w)
    /\ fs w !! backup = Some content
    /\ bind (json_load Samples.reads_versions content) State.from_dict = inr s
    /\ State.state
         (match State.attempt_repair Samples.reads_versions Samples.backup_manager w with
          | (inr (_, m'), _) => m'
          | _ => Samples.backup_manager
          end) = Some s
    /\ fs (State.attempt_repair Samples.reads_versions Samples.backup_manager w).2
       = <[State.state_file Samples.backup_manager := content]> (fs w).
Proof.
  intros w.
  apply (repair_restores_a_backup Samples.reads_versions Samples.backup_manager
           (match State.attempt_repair Samples.reads_versions Samples.backup_manager w with
            | (inr (_, m'), _) => m'
            | _ => Samples.backup_manager
            end)
           w (State.attempt_repair Samples.reads_versions Samples.backup_manager w).2 true).
  vm_compute. reflexivity.
Defined.

Section Goto.

Import Executor.

Lemma index_of_step_spec (target : str) (steps : list Step) :
  forall start i,
    index_of_step target steps start = Some i ->
    (start <= i)%nat
    /\ (exists step, steps !! (i - start)%nat = Some step /\ name step = Some target)
    /\ forall j step, (j < i - start)%nat -> steps !! j = Some step ->
                      name step <> Some target.
Proof.
  induction steps as [| s rest IH]; intros start i Hfind; [done |].
  cbn [index_of_step] in Hfind. case_bool_decide as Hname.
  - simplify_eq. replace (i - i)%nat with 0%nat by lia.
    split; [lia |]. split; [by exists s |]. intros; lia.
  - destruct (IH _ _ Hfind) as (Hle & (step & Hstep & Hstep_name) & Hfirst).
    replace (i - start)%nat with (S (i - S start)) by lia.
    split; [lia |]. split; [by exists step |].
    intros [| j] step' Hj Hlook.
    + by simplify_eq/=.
    + apply (Hfirst j); [lia | done].
Qed.

Lemma index_of_step_none (target : str) (steps : list Step) :
  forall start,
    index_of_step target steps start = None ->
    Forall (fun step => name step <> Some target) steps.
Proof.
  induction steps as [| s rest IH]; intros start Hfind; [constructor |].
  cbn [index_of_step] in Hfind. case_bool_decide as Hname; [done |].
  apply Forall_cons. split; [done | by apply (IH (S start))].
Qed.

End Goto.

(** X20.  Where a goto lands.  The target [_end] ends the run.  Any other
    target leads to the first step of the workflow with that name, so a
    jump never leaves the list of steps, and a target that no step
    carries is passed over: the run goes on with the next step. *)
Theorem goto_lands_on_the_named_step (wf : Executor.Workflow) (target : str) :
  match Executor._resolve_goto_target wf target with
  | Executor.FlowEnd => target = lit "_end"
  | Executor.FlowJump i =>
    target <> lit "_end"
    /\ (exists step, Executor.wf_steps wf !! i = Some step
                     /\ Executor.name step = Some target)
    /\ forall j step, (j < i)%nat -> Executor.wf_steps wf !! j = Some step ->
                      Executor.name step <> Some target
  | Executor.FlowNext =>
    target <> lit "_end"
    /\ Forall (fun step => Executor.name step <> Some target) (Executor.wf_steps wf)
  | Executor.FlowStop => False
  end.
Proof.
  unfold Executor._resolve_goto_target, str_eqb. case_bool_decide as Hend; [done |].
  destruct (Executor.index_of_step target (Executor.wf_steps wf) 0) as [i |] eqn:Hfind.
  - apply index_of_step_spec in Hfind as (_ & Hstep & Hfirst).
    rewrite Nat.sub_0_r in *. done.
  - split; [done |]. by apply (index_of_step_none _ _ 0%nat).
Qed.

Section StrictFlow.

Import Executor.

Lemma resolve_goto_never_stops (wf : Workflow) (target : str) :
  _resolve_goto_target wf target <> FlowStop.
Proof.
  unfold _resolve_goto_target. destruct (str_eqb _ _); [done |].
  by destruct (index_of_step _ _ _).
Qed.

End StrictFlow.

(** X22.  When strict flow stops the run.  After a step whose result is
    a mapping, the run is stopped exactly when the step was not skipped,
    its exit code is not zero, [strict_flow] is on (the default), the
    error mode is [stop], and the [on] handlers of the step give no goto
    target for this exit code. *)
Theorem strict_stop_needs_a_failure_without_goto
    (wf : Executor.Workflow) (step : Executor.Step) (on_error : str)
    (step_result : list (str * value)) :
  let exit_code := Executor.get_or "exit_code" (VInt 0) step_result in
  Executor.flow_of_result wf step on_error step_result = Executor.FlowStop
  <-> (truthy (Executor.get_or "skipped" VNone step_result) = false
       /\ Executor.equals_zero exit_code = false
       /\ default true (Executor.strict_flow wf) = true
       /\ on_error = lit "stop"
       /\ forall handlers target,
            Executor.on step = Some handlers ->
            Executor.goto_target_of handlers exit_code = Some target ->
            target = []).
Proof.
  intros exit_code. unfold Executor.flow_of_result. fold exit_code.
  destruct (truthy (Executor.get_or "skipped" VNone step_result)).
  { split; [done | by intros [? _]]. }
  assert (Hafter :
            (if negb (Executor.equals_zero exit_code)
             then if default true (Executor.strict_flow wf) && str_eqb on_error (lit "stop")
                  then Executor.FlowStop else Executor.FlowNext
             else Executor.FlowNext) = Executor.FlowStop
            <-> Executor.equals_zero exit_code = false
                /\ default true (Executor.strict_flow wf) = true
                /\ on_error = lit "stop").
  { destruct (Executor.equals_zero exit_code); cbn [negb]; [split; [done | by intros [? _]] |].
    destruct (default true (Executor.strict_flow wf)); cbn [andb];
      [| split; [done | by intros (_ & ? & _)]].
    unfold str_eqb. case_bool_decide; [done |]. split; [done | by intros (_ & _ & ?)]. }
  destruct (Executor.on step) as [handlers |].
  - destruct (Executor.goto_target_of handlers exit_code) as [[| c t] |] eqn:Htarget.
    + rewrite Hafter. split.
      * intros (? & ? & ?). repeat split; try done. intros ? ? [= <-] Ht.
        rewrite Htarget in Ht. by injection Ht as <-.
      * intros (_ & ? & ? & ? & _). done.
    + split; [by intros ?%resolve_goto_never_stops |].
      intros (_ & _ & _ & _ & Hnone). by specialize (Hnone handlers (c :: t) eq_refl Htarget).
    + rewrite Hafter. split.
      * intros (? & ? & ?). repeat split; try done. intros ? ? [= <-] Ht.
        by rewrite Htarget in Ht.
      * intros (_ & ? & ? & ? & _). done.
  - rewrite Hafter. split.
    + intros (? & ? & ?). by repeat split.
    + intros (_ & ? & ? & ? & _). done.
Qed.

Section Escapes.

Import Substitution.

Variables (pf : platform) (variables : list (str * value)).

Lemma var_sub_plain (fuel : nat) :
  forall prev_dollar t undef,
    dollar ∉ t ->
    var_sub pf variables fuel prev_dollar t undef = (inr t, undef).
Proof.
  induction fuel as [| f IH]; intros prev_dollar t undef Ht; [done |].
  destruct t as [| c t]; [done |]. cbn [var_sub].
  rewrite match_token_absent by done.
  apply not_elem_of_cons in Ht as [Hc Ht].
  assert (Hnone : (if prev_dollar then None else @None (str * str)) = None)
    by by destruct prev_dollar.
  rewrite Hnone. by rewrite IH.
Qed.

Lemma replace_fuel_prefix (c : char) (old new pre rest : str) :
  c ∉ pre ->
  forall fuel,
    (length pre <= fuel)%nat ->
    replace_fuel fuel (c :: old) new (pre ++ rest)
    = pre ++ replace_fuel (fuel - length pre) (c :: old) new rest.
Proof.
  induction pre as [| x pre IH]; intros Hpre fuel Hfuel.
  - by rewrite Nat.sub_0_r.
  - apply not_elem_of_cons in Hpre as [Hx Hpre].
    destruct fuel as [| f]; [cbn in Hfuel; lia |].
    cbn [app replace_fuel length]. cbn [length] in Hfuel.
    assert (Hstart : startswith (c :: old) (x :: pre ++ rest) = false).
    { cbn [startswith]. by destruct (N.eqb_spec c x). }
    rewrite Hstart. rewrite IH by (done || lia). done.
Qed.

Lemma replace_one (c : char) (old new pre post : str) :
  c ∉ pre -> c ∉ post ->
  replace (c :: old) new (pre ++ (c :: old) ++ post) = pre ++ new ++ post.
Proof.
  intros Hpre Hpost. unfold replace.
  rewrite replace_fuel_prefix by (done || (rewrite length_app; lia)).
  f_equal. rewrite length_app.
  replace (S (length pre + length ((c :: old) ++ post)) - length pre)%nat
    with (S (length ((c :: old) ++ post))) by lia.
  cbn [replace_fuel].
  assert (Hstart : forall l, startswith l (l ++ post) = true).
  { induction l as [| a l IHl]; [by destruct post |].
    cbn [app startswith]. by rewrite N.eqb_refl. }
  rewrite (Hstart (c :: old)). rewrite drop_app_length.
  f_equal. by apply replace_fuel_absent.
Qed.

End Escapes.

(** X23.  The escape of the dollar sign.  In a text with one [$$] and no
    other dollar sign or NUL character, the pair is replaced by a single
    dollar sign and nothing else changes: [$${name}] gives [${name}],
    and the variable is neither looked up nor reported undefined. *)
Theorem doubled_dollar_is_a_literal_dollar
    (pf : platform) (variables : list (str * value)) (before after : str)
    (undef : list str) :
  Substitution.dollar ∉ before -> Substitution.dollar ∉ after ->
  Substitution.nul ∉ before -> Substitution.nul ∉ after ->
  Substitution._substitute_string pf variables (before ++ lit "$$" ++ after) undef
  = (inr (before ++ lit "$" ++ after), undef).
Proof.
  intros Hb Ha Hnb Hna. unfold Substitution._substitute_string.
  change (lit "$$") with (Substitution.dollar :: [Substitution.dollar]).
  rewrite (replace_one Substitution.dollar [Substitution.dollar] [Substitution.nul])
    by done.
  rewrite var_sub_plain.
  - change [Substitution.nul] with (Substitution.nul :: [] ++ []) at 1.
    f_equal. f_equal.
    change (before ++ [Substitution.nul] ++ after)
      with (before ++ (Substitution.nul :: []) ++ after).
    by rewrite (replace_one Substitution.nul [] (lit "$")).
  - rewrite !not_elem_of_app, not_elem_of_cons. repeat split; try done.
    apply not_elem_of_nil.
Qed.

Lemma doubled_dollar_is_a_literal_dollar_witness :
  Substitution._substitute_string Samples.always_fails []
    (lit "echo " ++ lit "$$" ++ lit "{HOME}") []
  = (inr (lit "echo " ++ lit "$" ++ lit "{HOME}"), []).
Proof.
  apply doubled_dollar_is_a_literal_dollar;
    apply (bool_decide_unpack _); by vm_compute.
Defined.

(** X24.  Text without variables.  A text without a dollar sign goes
    through substitution untouched as long as it has no NUL character;
    every NUL character it has comes back as a dollar sign, because NUL
    is the mark used for the escaped dollar. *)
Theorem text_without_dollar_keeps_all_but_nul
    (pf : platform) (variables : list (str * value)) (text : str) (undef : list str) :
  Substitution.dollar ∉ text ->
  Substitution._substitute_string pf variables text undef
  = (inr (replace [Substitution.nul] (lit "$") text), undef)
  /\ (Substitution.nul ∉ text ->
      Substitution._substitute_string pf variables text undef = (inr text, undef)).
Proof.
  intros Ht.
  assert (Hrun : Substitution._substitute_string pf variables text undef
                 = (inr (replace [Substitution.nul] (lit "$") text), undef)).
  { unfold Substitution._substitute_string.
    change (lit "$$") with (Substitution.dollar :: [Substitution.dollar]).
    rewrite replace_absent by done. by rewrite var_sub_plain. }
  split; [done |]. intros Hnul. rewrite Hrun. by rewrite replace_absent.
Qed.

Lemma text_without_dollar_keeps_all_but_nul_witness :
  Substitution._substitute_string Samples.always_fails []
    (lit "a" ++ [Substitution.nul] ++ lit "b") []
  = (inr (lit "a$b"), []).
Proof.
  refine (proj1 (text_without_dollar_keeps_all_but_nul Samples.always_fails []
                   (lit "a" ++ [Substitution.nul] ++ lit "b") [] _)).
  apply (bool_decide_unpack _). by vm_compute.
Defined.

Section Rotation.

Import State.

Lemma insert_sorted_length {A} (lt : A -> A -> bool) (x : A) (l : list A) :
  length (insert_sorted lt x l) = S (length l).
Proof. induction l as [| y l IH]; [done |]. simpl. destruct (lt y x); simpl; by rewrite ?IH. Qed.

Lemma sort_by_length {A} (lt : A -> A -> bool) (l : list A) :
  length (sort_by lt l) = length l.
Proof.
  unfold sort_by. induction l as [| x l IH]; [done |]. simpl.
  by rewrite insert_sorted_length, IH.
Qed.

Lemma insert_sorted_NoDup {A} (lt : A -> A -> bool) (x : A) (l : list A) :
  x ∉ l -> NoDup l -> NoDup (insert_sorted lt x l).
Proof.
  induction l as [| y l IH]; intros Hx Hnd; simpl.
  - apply NoDup_singleton.
  - apply not_elem_of_cons in Hx as [Hne Hx]. apply NoDup_cons in Hnd as [Hy Hnd].
    destruct (lt y x).
    + apply NoDup_cons. split; [| by apply IH].
      rewrite insert_sorted_elem. intros [-> | ?]; done.
    + apply NoDup_cons. split; [| by apply NoDup_cons].
      rewrite elem_of_cons. intros [-> | ?]; done.
Qed.

Lemma sort_by_NoDup {A} (lt : A -> A -> bool) (l : list A) :
  NoDup l -> NoDup (sort_by lt l).
Proof.
  unfold sort_by. induction l as [| x l IH]; [done |]. intros [Hx Hnd]%NoDup_cons. simpl.
  apply insert_sorted_NoDup; [| by apply IH].
  fold (sort_by lt l). by rewrite sort_by_elem.
Qed.

Lemma glob_backups_NoDup (m : StateManager) (files : gmap str bytes) :
  NoDup (glob_backups m files).
Proof. unfold glob_backups. apply NoDup_filter, NoDup_fst_map_to_list. Qed.

Lemma glob_backups_elem (m : StateManager) (files : gmap str bytes) (p : str) :
  p ∈ glob_backups m files
  <-> is_backup_path (sm_run_root m) p = true /\ is_Some (files !! p).
Proof.
  unfold glob_backups. rewrite list_elem_of_filter, list_elem_of_fmap.
  rewrite Is_true_true. split.
  - intros [Hp ([k v] & -> & Hin)]. split; [done |].
    apply elem_of_map_to_list in Hin. by exists v.
  - intros [Hp [v Hv]]. split; [done |]. exists (p, v). split; [done |].
    by apply elem_of_map_to_list.
Qed.

Lemma unlink_all (removed : list str) :
  forall (files : gmap str bytes) (p : str),
    foldl apply_fs_op files (map FsUnlink removed) !! p
    = if bool_decide (p ∈ removed) then None else files !! p.
Proof.
  induction removed as [| d removed IH]; intros files p; [done |].
  cbn [map foldl apply_fs_op]. rewrite IH.
  case_bool_decide as Hin.
  - rewrite bool_decide_eq_true_2 by by right. done.
  - destruct (decide (p = d)) as [-> | Hne].
    + rewrite bool_decide_eq_true_2 by by left. apply lookup_delete_eq.
    + rewrite bool_decide_eq_false_2 by (rewrite elem_of_cons; tauto).
      by apply lookup_delete_ne.
Qed.

Lemma rotate_backups_spec (m : StateManager) (w : world) :
  0 <= max_backups m ->
  Z.of_nat (length (glob_backups m (fs (_rotate_backups m w)))) <= max_backups m.
Proof.
  intros Hmax. unfold _rotate_backups.
  set (backups := sorted (glob_backups m (fs w))).
  destruct (max_backups m <? Z.of_nat (length backups)) eqn:Hover.
  2: { apply Z.ltb_ge in Hover. unfold backups, sorted in Hover.
       by rewrite sort_by_length in Hover. }
  apply Z.ltb_lt in Hover.
  set (removed := take (length backups - Z.to_nat (max_backups m)) backups).
  set (kept := drop (length backups - Z.to_nat (max_backups m)) backups).
  assert (Hsub : glob_backups m (fs (run_fs_ops (map FsUnlink removed) w)) ⊆+ kept).
  { apply NoDup_submseteq; [apply glob_backups_NoDup |].
    intros p [Hp Hfile]%glob_backups_elem. cbn [fs run_fs_ops] in Hfile.
    rewrite unlink_all in Hfile. case_bool_decide as Hin; [by destruct Hfile |].
    assert (Hall : p ∈ backups).
    { unfold backups, sorted. apply sort_by_elem. by apply glob_backups_elem. }
    unfold backups in *. rewrite <- (take_drop (length backups - Z.to_nat (max_backups m))
                                       (sorted (glob_backups m (fs w)))) in Hall.
    apply elem_of_app in Hall as [? | ?]; done. }
  apply submseteq_length in Hsub. unfold kept in Hsub. rewrite length_drop in Hsub. lia.
Qed.

End Rotation.



(** ** Witnesses for the loops *)

Lemma injection_keeps_the_prompt_witness :
  exists r,
    Injector.inject (fun _ _ => ([], false, None)) (lit "P") [lit "a.txt"]
      (VBool true) true = inr r
    /\ (lit "P" `suffix_of` Injector.modified_prompt r
        \/ lit "P" `prefix_of` Injector.modified_prompt r).
Proof.
  eexists. split; [vm_compute; reflexivity |].
  refine (proj1 (injection_keeps_the_prompt (fun _ _ => ([], false, None)) (lit "P")
                   [lit "a.txt"] (VBool true) true _ _)).
  vm_compute. reflexivity.
Defined.

Lemma loop_keeps_one_result_per_item_witness :
  exists results,
    Executor.step_result_of LoopSamples.loop_state (lit "Each") = inr (VList results)
    /\ length results = 2%nat.
Proof.
  destruct (loop_keeps_one_result_per_item Samples.always_fails Samples.sample_workflow
              (VDict []) LoopSamples.no_provider (fun _ => lit "t") 0 (Some (lit "Each"))
              LoopSamples.loop_config [VStr (lit "x"); VStr (lit "y")]
              [(lit "steps", VDict [])] LoopSamples.loop_state
              Samples.sample_manager LoopSamples.loop_manager
              Samples.empty_world LoopSamples.loop_world)
    as (results & Hentry & Hlen & _).
  - reflexivity.
  - vm_compute. reflexivity.
  - exists results. split; [exact Hentry | exact Hlen].
Defined.

Lemma loop_failures_do_not_stop_the_run_witness :
  Executor._handle_control_flow Samples.sample_workflow LoopSamples.loop_step
    LoopSamples.loop_state (lit "Each") (lit "stop") = inr Executor.FlowNext.
Proof.
  apply (loop_failures_do_not_stop_the_run Samples.always_fails Samples.sample_workflow
           (VDict []) LoopSamples.no_provider (fun _ => lit "t") 0 LoopSamples.loop_step
           LoopSamples.loop_config false (lit "stop") [VStr (lit "x"); VStr (lit "y")]
           [(lit "steps", VDict [])] LoopSamples.loop_state
           Samples.sample_manager LoopSamples.loop_manager
           Samples.empty_world LoopSamples.loop_world).
  - reflexivity.
  - vm_compute. reflexivity.
Defined.

Lemma loop_scope_is_the_iteration_witness :
  let vars := Executor.command_variables LoopSamples.iteration_context
                Samples.sample_state in
  dict_get (lit "steps") vars = Some (VDict LoopSamples.iteration_state)
  /\ Substitution._resolve_variable (lit "loop.index") vars = inr (VInt (Z.of_nat 0))
  /\ Substitution._resolve_variable (lit "loop.total") vars = inr (VInt (Z.of_nat 3)).
Proof.
  apply (loop_scope_is_the_iteration Samples.reads_versions (VDict []) (lit "f")
           (VStr (lit "a")) 0 3 LoopSamples.iteration_state Samples.sample_state
           LoopSamples.iteration_context Samples.sample_manager
           LoopSamples.iteration_manager LoopSamples.stored_world).
  - intros H. by vm_compute in H.
  - vm_compute. reflexivity.
Defined.

